(** * whisper_shell: the core streaming engine of the WhisperDoc terminal client

    A shallow embedding of

      - [logic/sanitizer.py]              (module [Sanitizer]),
      - [logic/audio_buffer.py]           (module [AudioBuffer]),
      - [logic/handshake.py] and
        [services/transport_service.py]   (module [Transport]),
      - [services/audio_service.py]       (module [AudioCapture]),
      - [controllers/recording_controller.py] (module [Controller]),

    followed by the properties of the specification that concern them, and
    by further properties of the same code.

    Conventions.  The sanitizer sees a Python [str] as the list of its code
    points; the transport only compares strings with ASCII literals and keeps
    them as [string].  A [bytes] object is a list of [byte].  Objects the
    code talks to but does not own
    (the websocket, listener callbacks, the send callback of the buffer) are
    represented by the record of the calls made on them, and those calls
    return normally; the one exception is an [await] in a task that has
    cancelled itself, where asyncio raises [CancelledError] (see
    [disconnect_inside]).  Log lines are not modelled. *)

From Stdlib.Strings Require Import String Ascii Byte.
From Stdlib Require Import ZArith List Bool Lia.
From Stdlib.Floats Require Import SpecFloat.
From Equations Require Import Equations.
Import ListNotations.

Local Open Scope Z_scope.

(** Python [bytes]. *)
Definition bytes := list byte.

(* ===================================================================== *)
(** ** logic/sanitizer.py *)
(* ===================================================================== *)

Module Sanitizer.

(** A Python [str]: its code points. *)
Definition text := list Z.

Definition ESC : Z := 0x1b.
Definition BEL : Z := 0x07.
Definition LF  : Z := 0x0a.

(** The class [[\x20-\x7E\n\r\t]] that [WHITELIST_REGEX] negates. *)
Definition whitelisted (c : Z) : bool :=
  ((0x20 <=? c) && (c <=? 0x7E)) || (c =? 0x0a) || (c =? 0x0d) || (c =? 0x09).

(** [WHITELIST_REGEX.sub('', s)]: the pattern matches exactly one code point
    outside the class, so substitution deletes those code points. *)
Definition WHITELIST_sub (s : text) : text := filter whitelisted s.

(** The class [[0-9;]] of CSI parameters (';' is 0x3b, next after '9'). *)
Definition csi_param (c : Z) : bool := (0x30 <=? c) && (c <=? 0x3b) && negb (c =? 0x3a).

(** The class [[mGKH]] of CSI final bytes. *)
Definition csi_final (c : Z) : bool :=
  (c =? 0x6d) || (c =? 0x47) || (c =? 0x4b) || (c =? 0x48).

(** [[0-9;]*[mGKH]] at the head of [s]; the result is what follows the match.
    The two classes are disjoint, so the greedy star cannot give back a
    parameter to serve as the final byte. *)
Fixpoint csi_tail (s : text) : option text :=
  match s with
  | [] => None
  | c :: t => if csi_param c then csi_tail t
              else if csi_final c then Some t else None
  end.

(** [.*?\x07] at the head of [s]: the lazy star stops at the first BEL, and
    [.] does not match a line feed. *)
Fixpoint osc_tail (s : text) : option text :=
  match s with
  | [] => None
  | c :: t => if c =? BEL then Some t
              else if c =? LF then None else osc_tail t
  end.

(** [ANSI_ESCAPE_REGEX.match] at the head of [s]:
    [\x1b\[[0-9;]*[mGKH]|\x1b]0;.*?\x07].  The result is the text after the
    match. *)
Definition ANSI_match (s : text) : option text :=
  match s with
  | 0x1b :: 0x5b :: t => csi_tail t
  | 0x1b :: 0x5d :: 0x30 :: 0x3b :: t => osc_tail t
  | _ => None
  end.

(** [ANSI_ESCAPE_REGEX.sub('', s)]: scan left to right; at a position where
    the pattern matches, drop the match and resume after it, otherwise keep
    the code point and move on by one. *)
Equations? ANSI_sub (s : text) : text by wf (length s) lt :=
  ANSI_sub [] := [];
  ANSI_sub (c :: t) with Logic.inspect (ANSI_match (c :: t)) := {
    | exist _ (Some r) _ := ANSI_sub r;
    | exist _ None _ := c :: ANSI_sub t }.
Proof.
  (* the text after a match is shorter than the text matched *)
  - assert (Hcsi : forall u v, csi_tail u = Some v -> (length v < length u)%nat).
    { induction u as [|d u IH]; simpl; intros v H; [discriminate|].
      destruct (csi_param d); [apply IH in H; lia|].
      destruct (csi_final d); [injection H as <-; lia | discriminate]. }
    assert (Hosc : forall u v, osc_tail u = Some v -> (length v < length u)%nat).
    { induction u as [|d u IH]; simpl; intros v H; [discriminate|].
      destruct (d =? BEL); [injection H as <-; lia|].
      destruct (d =? LF); [discriminate|].
      apply IH in H; lia. }
    match goal with H : _ = Some r |- _ => rename H into Hm end.
    repeat match type of Hm with
           | match ?x with _ => _ end = _ => destruct x; try discriminate
           end;
      first [apply Hcsi in Hm | apply Hosc in Hm]; simpl; lia.
Qed.

(** [str.isspace] on one code point: the characters Python's [str.strip()]
    removes. *)
Definition py_isspace (c : Z) : bool :=
  ((0x09 <=? c) && (c <=? 0x0d)) || ((0x1c <=? c) && (c <=? 0x20))
  || (c =? 0x85) || (c =? 0xa0) || (c =? 0x1680)
  || ((0x2000 <=? c) && (c <=? 0x200a))
  || (c =? 0x2028) || (c =? 0x2029) || (c =? 0x202f) || (c =? 0x205f)
  || (c =? 0x3000).

Fixpoint lstrip (s : text) : text :=
  match s with
  | [] => []
  | c :: t => if py_isspace c then lstrip t else s
  end.

Definition rstrip (s : text) : text := rev (lstrip (rev s)).

(** [str.strip()]. *)
Definition strip (s : text) : text := rstrip (lstrip s).

(** [Sanitizer.sanitize]. *)
Definition sanitize (txt : text) : text :=
  match txt with
  | [] => []
  | _ => strip (WHITELIST_sub (ANSI_sub txt))
  end.

(** For the properties: the first code point of [s], if there is one, is not
    white space. *)
Definition starts_clean (s : text) : bool :=
  match s with
  | [] => true
  | c :: _ => negb (py_isspace c)
  end.

(** For the properties: [l1] is [l2] with some elements left out. *)
Inductive subseq {A : Type} : list A -> list A -> Prop :=
| subseq_nil : subseq [] []
| subseq_skip x l1 l2 : subseq l1 l2 -> subseq l1 (x :: l2)
| subseq_keep x l1 l2 : subseq l1 l2 -> subseq (x :: l1) (x :: l2).

End Sanitizer.

(* ===================================================================== *)
(** ** logic/audio_buffer.py *)
(* ===================================================================== *)

Module AudioBuffer.

Record AudioBufferManager := {
  _buffer : list bytes;
  _is_buffering : bool
}.

(** [AudioBufferManager.__init__]. *)
Definition init : AudioBufferManager :=
  {| _buffer := []; _is_buffering := true |}.

Definition MAX_CHUNKS : Z := 20000.

(** The properties [count] and [is_empty]. *)
Definition count (m : AudioBufferManager) : Z := Z.of_nat (length (_buffer m)).

Definition is_empty (m : AudioBufferManager) : bool := count m =? 0.

(** [list.pop(0)], used only where the list holds [MAX_CHUNKS] or more
    entries, so the [IndexError] of an empty list cannot occur. *)
Definition pop0 (l : list bytes) : list bytes := tl l.

(** [AudioBufferManager.add]. *)
Definition add (chunk : bytes) (m : AudioBufferManager) : AudioBufferManager :=
  if _is_buffering m then
    let b := if MAX_CHUNKS <=? count m then pop0 (_buffer m) else _buffer m in
    {| _buffer := b ++ [chunk]; _is_buffering := _is_buffering m |}
  else m.

(** [AudioBufferManager.clear]. *)
Definition clear (m : AudioBufferManager) : AudioBufferManager :=
  {| _buffer := []; _is_buffering := true |}.

Section Flush.

(** What the send callback acts on (for the controller: the transport). *)
Variable W : Type.

(** [send_callback(chunk)], awaited while the manager is in the given
    state. *)
Variable send_callback : bytes -> AudioBufferManager -> W -> W.

(** [AudioBufferManager.flush]. *)
Definition flush (m : AudioBufferManager) (w : W) : AudioBufferManager * W :=
  match _buffer m with
  | [] => ({| _buffer := _buffer m; _is_buffering := false |}, w)
  | _ =>
    let to_flush := _buffer m in
    let m' := {| _buffer := []; _is_buffering := false |} in
    (m', fold_left (fun w chunk => send_callback chunk m' w) to_flush w)
  end.

(** The operations of the class, for runs of the manager. *)
Inductive Op :=
| OpAdd (chunk : bytes)
| OpFlush
| OpClear.

Definition exec (o : Op) (s : AudioBufferManager * W) : AudioBufferManager * W :=
  match o with
  | OpAdd chunk => (add chunk (fst s), snd s)
  | OpFlush => flush (fst s) (snd s)
  | OpClear => (clear (fst s), snd s)
  end.

Definition run (ops : list Op) (s : AudioBufferManager * W) : AudioBufferManager * W :=
  fold_left (fun s o => exec o s) ops s.

End Flush.

(** A send callback that only records what it is called with. *)
Definition recorder (chunk : bytes) (m : AudioBufferManager)
  (log : list (bytes * AudioBufferManager)) : list (bytes * AudioBufferManager) :=
  log ++ [(chunk, m)].

(** [add] called for each chunk of a list, first to last. *)
Definition add_all (chunks : list bytes) (m : AudioBufferManager) : AudioBufferManager :=
  fold_left (fun m chunk => add chunk m) chunks m.

(** The last [n] elements of a list. *)
Definition lastn {A : Type} (n : nat) (l : list A) : list A := skipn (length l - n) l.

(** A manager filled to the cap, for examples. *)
Definition full : AudioBufferManager :=
  {| _buffer := [x01] :: repeat [] (Z.to_nat 19999); _is_buffering := true |}.

End AudioBuffer.

(* ===================================================================== *)
(** ** logic/handshake.py, logic/payload.py, services/transport_service.py *)
(* ===================================================================== *)

Module Transport.

Local Open Scope string_scope.
Local Open Scope list_scope.
Local Open Scope Z_scope.

(** [class HandshakeState(Enum)]. *)
Inductive HandshakeState :=
| LOCKED
| AUTHENTICATING
| AUTHENTICATED
| FAILED
| BANNED.

Definition state_eqb (a b : HandshakeState) : bool :=
  match a, b with
  | LOCKED, LOCKED | AUTHENTICATING, AUTHENTICATING
  | AUTHENTICATED, AUTHENTICATED | FAILED, FAILED | BANNED, BANNED => true
  | _, _ => false
  end.

(** [HandshakeStateMachine._is_valid_transition]. *)
Definition _is_valid_transition (from_state to_state : HandshakeState) : bool :=
  if state_eqb to_state BANNED then true
  else match from_state with
       | LOCKED => state_eqb to_state AUTHENTICATING || state_eqb to_state FAILED
       | AUTHENTICATING => state_eqb to_state AUTHENTICATED || state_eqb to_state FAILED
       | AUTHENTICATED => state_eqb to_state LOCKED
       | FAILED => state_eqb to_state LOCKED
       | BANNED => state_eqb to_state LOCKED
       end.

(** [transition_to] changes the state: the target differs from the current
    state and the edge is valid. *)
Definition moves (s new_state : HandshakeState) : bool :=
  negb (state_eqb s new_state) && _is_valid_transition s new_state.

(** *** Values that cross the JSON boundary *)

(** What [json.loads] returns and [json.dumps] accepts.  A [dict] is kept as
    its items, with distinct keys. *)
#[warnings="-register-all"]
Inductive pyval :=
| PyNone
| PyBool (b : bool)
| PyInt (z : Z)
| PyFloat (f : spec_float)
| PyStr (s : string)
| PyList (l : list pyval)
| PyDict (items : list (string * pyval)).

(** [d.get(key)]. *)
Definition dict_get (items : list (string * pyval)) (key : string) : pyval :=
  match find (fun kv => String.eqb (fst kv) key) items with
  | Some kv => snd kv
  | None => PyNone
  end.

(** [v == s] for a string literal [s]. *)
Definition py_eq_str (v : pyval) (s : string) : bool :=
  match v with
  | PyStr t => String.eqb t s
  | _ => false
  end.

(** [f == n] for a float and an integer: Python compares the exact values. *)
Definition float_eq_int (f : spec_float) (n : Z) : bool :=
  match f with
  | S754_zero _ => n =? 0
  | S754_finite s m e =>
    let sm := if s then Z.neg m else Z.pos m in
    if 0 <=? e then sm * 2 ^ e =? n else sm =? n * 2 ^ (- e)
  | _ => false
  end.

(** [v == n] for an integer literal [n]. *)
Definition py_eq_int (v : pyval) (n : Z) : bool :=
  match v with
  | PyInt z => z =? n
  | PyBool b => (if b then 1 else 0) =? n
  | PyFloat f => float_eq_int f n
  | _ => false
  end.

(** [v in [n1, n2, ...]]. *)
Definition py_in_ints (v : pyval) (l : list Z) : bool := existsb (py_eq_int v) l.

(** [PayloadBuilder.build_hello] and [PayloadBuilder.build_end_of_stream]. *)
Definition build_hello (token auth_type : string) (incognito : bool) : pyval :=
  PyDict [("event", PyStr "hello");
          ("client", PyStr "whisper.client.terminal");
          ("version", PyStr "2.20.0");
          ("auth_type", PyStr auth_type);
          ("token", PyStr token);
          ("incognito", PyBool incognito)].

Definition build_end_of_stream : pyval := PyDict [("event", PyStr "end-of-stream")].

(** *** The event loop, the socket and the callbacks *)

(** A task of the asyncio loop that has neither finished nor been cancelled:
    the two sleeping coroutines with the loop time at which their
    [asyncio.sleep] ends, and the receiver [_listen_loop]. *)
Inductive Task :=
| TimeoutTask (wake_at : Z)   (* HandshakeStateMachine._start_timeout._timeout_coro *)
| IdleTask (wake_at : Z)      (* TransportService._reset_idle_timer._timeout *)
| ListenTask.                 (* TransportService._listen_loop *)

(** Task handles, connection handles and registered callbacks are known by a
    number. *)
Definition TaskId := nat.
Definition Conn := nat.
Definition Callback := nat.

Record Loop := {
  clock : Z;                          (* loop.time() *)
  next_id : TaskId;
  pending : list (TaskId * Task)
}.

(** A frame handed to [ws.send]: [bytes] go out as a binary frame, a [str]
    as a text frame. *)
Inductive Frame :=
| Binary (chunk : bytes)
| Text (payload : string).

(** What the frame handed over by [ws.recv] is in Python. *)
Inductive Data :=
| DataStr (s : string)
| DataBytes (b : bytes).

(** The calls made on the socket and on the registered callbacks. *)
Inductive Call :=
| Notify (cb : Callback) (new_state : HandshakeState)   (* listener(new_state) *)
| Deliver (cb : Callback) (msg : pyval)                 (* await cb(msg) *)
| WsSend (ws : Conn) (frame : Frame)                    (* await ws.send(frame) *)
| WsClose (ws : Conn) (code : Z) (reason : string).     (* await ws.close(code, reason) *)

Record HandshakeStateMachine := {
  _state : HandshakeState;
  _timeout_duration : Z;
  _timeout_task : option TaskId;
  _listeners : list Callback
}.

Record TransportService := {
  _ws : option Conn;
  handshake : HandshakeStateMachine;
  _message_listeners : list Callback;
  _receive_task : option TaskId;
  _idle_timer : option TaskId
}.

Record World := {
  loop : Loop;
  transport : TransportService;
  calls : list Call
}.

(** [HandshakeStateMachine.__init__(timeout=15)] and
    [TransportService.__init__]. *)
Definition hs_init (timeout : Z) : HandshakeStateMachine :=
  {| _state := LOCKED; _timeout_duration := timeout;
     _timeout_task := None; _listeners := [] |}.

Definition init : World :=
  {| loop := {| clock := 0; next_id := O; pending := [] |};
     transport := {| _ws := None; handshake := hs_init 15;
                     _message_listeners := [];
                     _receive_task := None; _idle_timer := None |};
     calls := [] |}.

(** *** Statements: a state monad over [World] *)

Definition M (A : Type) : Type := World -> A * World.

Definition ret {A} (a : A) : M A := fun w => (a, w).
Definition bind {A B} (c : M A) (k : A -> M B) : M B :=
  fun w => k (fst (c w)) (snd (c w)).
Definition gets {A} (f : World -> A) : M A := fun w => (f w, w).
Definition modify (f : World -> World) : M unit := fun w => (tt, f w).
Definition exec {A} (c : M A) (w : World) : World := snd (c w).

Notation "x <- c ;; k" := (bind c (fun x => k))
  (at level 61, c at next level, right associativity).
Notation "c ;; k" := (bind c (fun _ => k))
  (at level 61, right associativity).

(** [for x in l: body(x)]. *)
Fixpoint for_each {A} (l : list A) (body : A -> M unit) : M unit :=
  match l with
  | [] => ret tt
  | x :: l' => body x ;; for_each l' body
  end.

(** Field updates. *)
Definition with_loop (f : Loop -> Loop) (w : World) : World :=
  {| loop := f (loop w); transport := transport w; calls := calls w |}.
Definition with_transport (f : TransportService -> TransportService) (w : World) : World :=
  {| loop := loop w; transport := f (transport w); calls := calls w |}.
Definition with_handshake (f : HandshakeStateMachine -> HandshakeStateMachine) : World -> World :=
  with_transport (fun t =>
    {| _ws := _ws t; handshake := f (handshake t);
       _message_listeners := _message_listeners t;
       _receive_task := _receive_task t; _idle_timer := _idle_timer t |}).

Definition set_state (s : HandshakeState) : M unit :=
  modify (with_handshake (fun h =>
    {| _state := s; _timeout_duration := _timeout_duration h;
       _timeout_task := _timeout_task h; _listeners := _listeners h |})).
Definition set_timeout_task (t : option TaskId) : M unit :=
  modify (with_handshake (fun h =>
    {| _state := _state h; _timeout_duration := _timeout_duration h;
       _timeout_task := t; _listeners := _listeners h |})).
Definition set_ws (c : option Conn) : M unit :=
  modify (with_transport (fun t =>
    {| _ws := c; handshake := handshake t;
       _message_listeners := _message_listeners t;
       _receive_task := _receive_task t; _idle_timer := _idle_timer t |})).
Definition set_receive_task (r : option TaskId) : M unit :=
  modify (with_transport (fun t =>
    {| _ws := _ws t; handshake := handshake t;
       _message_listeners := _message_listeners t;
       _receive_task := r; _idle_timer := _idle_timer t |})).
Definition set_idle_timer (i : option TaskId) : M unit :=
  modify (with_transport (fun t =>
    {| _ws := _ws t; handshake := handshake t;
       _message_listeners := _message_listeners t;
       _receive_task := _receive_task t; _idle_timer := i |})).

(** A call on an external object: recorded. *)
Definition call (c : Call) : M unit :=
  modify (fun w => {| loop := loop w; transport := transport w;
                      calls := calls w ++ [c] |}).

(** [asyncio.create_task] for one of the three coroutines. *)
Definition create_task (t : Task) : M TaskId :=
  fun w => (next_id (loop w),
            with_loop (fun l => {| clock := clock l; next_id := S (next_id l);
                                   pending := pending l ++ [(next_id l, t)] |}) w).

(** [task.cancel()]: the task leaves the loop; on a task that is already
    done it does nothing. *)
Definition cancel (id : TaskId) : M unit :=
  modify (with_loop (fun l =>
    {| clock := clock l; next_id := next_id l;
       pending := filter (fun p => negb (Nat.eqb (fst p) id)) (pending l) |})).

Definition now : M Z := gets (fun w => clock (loop w)).

(** *** HandshakeStateMachine *)

Definition state : M HandshakeState := gets (fun w => _state (handshake (transport w))).

(** [_cancel_timeout]. *)
Definition _cancel_timeout : M unit :=
  t <- gets (fun w => _timeout_task (handshake (transport w))) ;;
  match t with
  | Some id => cancel id ;; set_timeout_task None
  | None => ret tt
  end.

(** [_start_timeout]. *)
Definition _start_timeout : M unit :=
  _cancel_timeout ;;
  t <- now ;;
  d <- gets (fun w => _timeout_duration (handshake (transport w))) ;;
  id <- create_task (TimeoutTask (t + d)) ;;
  set_timeout_task (Some id).

(** [transition_to]. *)
Definition transition_to (new_state : HandshakeState) : M unit :=
  s <- state ;;
  if state_eqb s new_state then ret tt
  else if negb (_is_valid_transition s new_state) then ret tt
  else
    set_state new_state ;;
    ls <- gets (fun w => _listeners (handshake (transport w))) ;;
    for_each ls (fun listener => call (Notify listener new_state)) ;;
    if state_eqb new_state AUTHENTICATING then _start_timeout
    else _cancel_timeout.

(** [can_send_audio]. *)
Definition can_send_audio : M bool := s <- state ;; ret (state_eqb s AUTHENTICATED).

(** [reset]. *)
Definition reset : M unit :=
  _cancel_timeout ;;
  transition_to LOCKED.

(** [add_listener]. *)
Definition add_listener (callback : Callback) : M unit :=
  modify (with_handshake (fun h =>
    {| _state := _state h; _timeout_duration := _timeout_duration h;
       _timeout_task := _timeout_task h;
       _listeners := _listeners h ++ [callback] |})).

(** The part of [_timeout_coro] that runs when its sleep is over. *)
Definition _timeout_coro_wakes : M unit :=
  s <- state ;;
  if state_eqb s AUTHENTICATING then transition_to FAILED else ret tt.

(** *** TransportService *)

Section Service.

(** [cfg.IDLE_TIMEOUT] and [cfg.args.incognito]. *)
Variable IDLE_TIMEOUT : Z.
Variable incognito : bool.

(** [json.loads], [None] where it raises, and [json.dumps]. *)
Variable json_loads : string -> option pyval.
Variable json_dumps : pyval -> string.

(** [disconnect], run by a task that it does not cancel: the caller of
    [connect], the controller. *)
Definition disconnect (reason : string) : M unit :=
  reset ;;
  i <- gets (fun w => _idle_timer (transport w)) ;;
  match i with
  | Some id => cancel id ;; set_idle_timer None
  | None => ret tt
  end ;;
  r <- gets (fun w => _receive_task (transport w)) ;;
  match r with
  | Some id => cancel id ;; set_receive_task None
  | None => ret tt
  end ;;
  ws <- gets (fun w => _ws (transport w)) ;;
  match ws with
  | Some c => call (WsClose c 1000 reason) ;; set_ws None
  | None => ret tt
  end.

(** The handle is the one of the task [self]. *)
Definition handle_is (self : TaskId) (handle : option TaskId) : bool :=
  match handle with
  | Some id => Nat.eqb id self
  | None => false
  end.

(** [disconnect] run by the task [self], the idle task or the receiver.
    When [self] is the task that [_idle_timer] or [_receive_task] holds,
    [disconnect] cancels the task it runs in: asyncio raises
    [CancelledError] in that task at its next [await], the one on
    [ws.close], so the call is started and what follows it,
    [self._ws = None], does not run.  With no socket there is no [await],
    and a task that is not cancelled runs [disconnect] to its end. *)
Definition disconnect_inside (self : TaskId) (reason : string) : M unit :=
  reset ;;
  i <- gets (fun w => _idle_timer (transport w)) ;;
  match i with
  | Some id => cancel id ;; set_idle_timer None
  | None => ret tt
  end ;;
  r <- gets (fun w => _receive_task (transport w)) ;;
  match r with
  | Some id => cancel id ;; set_receive_task None
  | None => ret tt
  end ;;
  ws <- gets (fun w => _ws (transport w)) ;;
  match ws with
  | Some c =>
    call (WsClose c 1000 reason) ;;
    if handle_is self i || handle_is self r then ret tt   (* CancelledError *)
    else set_ws None
  | None => ret tt
  end.

(** The part of [_reset_idle_timer._timeout] that runs when the sleep of
    the idle task [self] is over. *)
Definition _timeout_wakes (self : TaskId) : M unit :=
  ws <- gets (fun w => _ws (transport w)) ;;
  match ws with
  | Some _ => disconnect_inside self "Idle Timeout"
  | None => ret tt
  end.

(** The [except ConnectionClosed] clause of [_listen_loop], run by the
    receiver [self]. *)
Definition _listen_loop_closed (self : TaskId) : M unit :=
  disconnect_inside self "Closed by server".

(** [_reset_idle_timer]. *)
Definition _reset_idle_timer : M unit :=
  i <- gets (fun w => _idle_timer (transport w)) ;;
  match i with
  | Some id => cancel id
  | None => ret tt
  end ;;
  t <- now ;;
  id <- create_task (IdleTask (t + IDLE_TIMEOUT)) ;;
  set_idle_timer (Some id).

(** [for cb in self._message_listeners: await cb(msg)]. *)
Definition notify_message_listeners (msg : pyval) : M unit :=
  ls <- gets (fun w => _message_listeners (transport w)) ;;
  for_each ls (fun cb => call (Deliver cb msg)).

(** [_handle_raw_message].  When [json.loads] raises, or returns something
    that has no [get], the [except] clause logs and the method returns. *)
Definition _handle_raw_message (data : Data) : M unit :=
  match data with
  | DataBytes _ => ret tt
  | DataStr s =>
    _reset_idle_timer ;;
    match json_loads s with
    | Some (PyDict msg) =>
      let event := dict_get msg "event" in
      if py_eq_str event "hello" then ret tt
      else if py_eq_str event "authenticated" then transition_to AUTHENTICATED
      else if py_eq_str event "error" then
        let code := dict_get msg "code" in
        (if py_in_ints code [401; 403; 1008] then
           transition_to FAILED ;;
           if py_eq_int code 1008 then transition_to BANNED else ret tt
         else ret tt) ;;
        notify_message_listeners (PyDict msg)
      else notify_message_listeners (PyDict msg)
    | _ => ret tt
    end
  end.

(** [send_audio]. *)
Definition send_audio (chunk : bytes) : M unit :=
  ok <- can_send_audio ;;
  ws <- gets (fun w => _ws (transport w)) ;;
  match ok, ws with
  | true, Some c => _reset_idle_timer ;; call (WsSend c (Binary chunk))
  | _, _ => ret tt
  end.

(** [_send_json]. *)
Definition _send_json (data : pyval) : M unit :=
  ws <- gets (fun w => _ws (transport w)) ;;
  match ws with
  | Some c => _reset_idle_timer ;; call (WsSend c (Text (json_dumps data)))
  | None => ret tt
  end.

(** The outcome of [websockets.connect]: a connection, or an exception
    with its message. *)
Inductive Dial :=
| Dialled (ws : Conn)
| DialError (e : string).

(** [connect], given the outcome of [websockets.connect] and the key that
    [sec_cfg.get_api_key] returns. *)
Definition connect (dial : Dial) (api_key : string) : M bool :=
  ws <- gets (fun w => _ws (transport w)) ;;
  match ws with
  | Some _ => ret true
  | None =>
    reset ;;
    match dial with
    | DialError e => disconnect e ;; ret false
    | Dialled c =>
      set_ws (Some c) ;;
      r <- create_task ListenTask ;;
      set_receive_task (Some r) ;;
      if String.eqb api_key "" then
        disconnect "No API Key available for authentication." ;; ret false
      else
        _send_json (build_hello api_key "api_key" incognito) ;;
        transition_to AUTHENTICATING ;;
        ret true
    end
  end.

(** [ensure_connected]. *)
Definition ensure_connected (dial : Dial) (api_key : string) : M bool :=
  s <- state ;;
  if state_eqb s AUTHENTICATED then ret true else connect dial api_key.

(** [add_message_listener]. *)
Definition add_message_listener (callback : Callback) : M unit :=
  modify (with_transport (fun t =>
    {| _ws := _ws t; handshake := handshake t;
       _message_listeners := _message_listeners t ++ [callback];
       _receive_task := _receive_task t; _idle_timer := _idle_timer t |})).

(** *** Runs of the service on the loop *)

Inductive Event :=
| EvAddListener (cb : Callback)              (* handshake.add_listener(cb) *)
| EvAddMessageListener (cb : Callback)       (* add_message_listener(cb) *)
| EvEnsureConnected (dial : Dial) (api_key : string)
| EvSendAudio (chunk : bytes)                (* send_audio(chunk) *)
| EvSendJson (data : pyval)                  (* _send_json(data) *)
| EvDisconnect (reason : string)             (* disconnect(reason), by another task *)
| EvRecv (data : Data)                       (* _listen_loop gets a frame *)
| EvClosed (id : TaskId)                     (* the receiver gets ConnectionClosed *)
| EvWake (id : TaskId)                       (* the sleep of a timer task ends *)
| EvElapse (d : Z).                          (* time passes *)

Definition lookup_task (id : TaskId) (l : Loop) : option Task :=
  option_map snd (find (fun p => Nat.eqb (fst p) id) (pending l)).

Definition listening (w : World) : bool :=
  existsb (fun p => match snd p with ListenTask => true | _ => false end)
          (pending (loop w)).

(** No sleeping task is due before loop time [t]. *)
Definition none_due_before (t : Z) (l : Loop) : bool :=
  forallb (fun p => match snd p with
                    | TimeoutTask at_ | IdleTask at_ => t <=? at_
                    | ListenTask => true
                    end) (pending l).

Definition advance (d : Z) : M unit :=
  modify (with_loop (fun l => {| clock := clock l + d; next_id := next_id l;
                                 pending := pending l |})).

(** One step of a run; [None] when the event cannot happen in [w].  A task
    whose coroutine runs to its end, or is cancelled while it runs, leaves
    the loop: [cancel id] before its body. *)
Definition step (e : Event) (w : World) : option World :=
  match e with
  | EvAddListener cb => Some (exec (add_listener cb) w)
  | EvAddMessageListener cb => Some (exec (add_message_listener cb) w)
  | EvEnsureConnected dial api_key => Some (exec (ensure_connected dial api_key) w)
  | EvSendAudio chunk => Some (exec (send_audio chunk) w)
  | EvSendJson data => Some (exec (_send_json data) w)
  | EvDisconnect reason => Some (exec (disconnect reason) w)
  | EvRecv data =>
    if listening w then Some (exec (_handle_raw_message data) w) else None
  | EvClosed id =>
    match lookup_task id (loop w) with
    | Some ListenTask => Some (exec (cancel id ;; _listen_loop_closed id) w)
    | _ => None
    end
  | EvWake id =>
    match lookup_task id (loop w) with
    | Some (TimeoutTask at_) =>
      if at_ <=? clock (loop w)
      then Some (exec (cancel id ;; _timeout_coro_wakes) w) else None
    | Some (IdleTask at_) =>
      if at_ <=? clock (loop w)
      then Some (exec (cancel id ;; _timeout_wakes id) w) else None
    | _ => None
    end
  | EvElapse d =>
    if (0 <=? d) && none_due_before (clock (loop w) + d) (loop w)
    then Some (exec (advance d) w) else None
  end.

Fixpoint run (es : list Event) (w : World) : option World :=
  match es with
  | [] => Some w
  | e :: es' => match step e w with
                | Some w' => run es' w'
                | None => None
                end
  end.

(** *** Vocabulary of the idle-timer properties *)

(** The armed idle tasks: handle and wake-up time. *)
Definition idle_pending (w : World) : list (TaskId * Z) :=
flat_map (fun p => match snd p with
                   | IdleTask at_ => [(fst p, at_)]
                   | _ => []
                   end) (pending (loop w)).

Definition connected (w : World) : bool :=
match _ws (transport w) with Some _ => true | None => false end.

(** The event, happening in [w], hands a frame to [ws.send]: audio on an
    authenticated session, JSON on an open socket, the hello of a connect
    that goes through. *)
Definition sends (e : Event) (w : World) : bool :=
match e with
| EvSendAudio _ => state_eqb (_state (handshake (transport w))) AUTHENTICATED && connected w
| EvSendJson _ => connected w
| EvEnsureConnected (Dialled _) api_key =>
  negb (state_eqb (_state (handshake (transport w))) AUTHENTICATED)
  && negb (connected w) && negb (String.eqb api_key "")
| _ => false
end.

(** The event is the arrival of a text frame. *)
Definition text_received (e : Event) : bool :=
match e with
| EvRecv (DataStr _) => true
| _ => false
end.

(** The events that arm the idle timer anew. *)
Definition rearms (e : Event) (w : World) : bool := sends e w || text_received e.

(** The loop time of the last event of a run that satisfies [p], [acc] if
    there is none. *)
Fixpoint last_time (p : Event -> World -> bool) (es : list Event) (w : World)
  (acc : option Z) : option Z :=
match es with
| [] => acc
| e :: es' =>
  match step e w with
  | Some w' => last_time p es' w' (if p e w then Some (clock (loop w)) else acc)
  | None => acc
  end
end.

(** Handles are older than the next one the loop gives out, and the handle
    of the handshake timeout is not the handle of an idle task. *)
Definition tidy (w : World) : Prop :=
(forall id at_, In (id, at_) (idle_pending w) -> (id < next_id (loop w))%nat)
/\ (forall id, _timeout_task (handshake (transport w)) = Some id ->
      (id < next_id (loop w))%nat /\ forall at_, ~ In (id, at_) (idle_pending w)).

(** At most one idle task is armed; it is the one [_idle_timer] holds, and
    it wakes [IDLE_TIMEOUT] after loop time [la]. *)
Definition idle_inv (w : World) (la : option Z) : Prop :=
tidy w
/\ match idle_pending w with
   | [] => True
   | [(id, at_)] => _idle_timer (transport w) = Some id /\ la = Some (at_ - IDLE_TIMEOUT)
   | _ => False
   end.

(** A statement that, in a tidy world, leaves the idle timer and the clock
    as they are. *)
Definition gentle {A} (c : M A) : Prop :=
forall w, tidy w ->
  tidy (snd (c w))
  /\ idle_pending (snd (c w)) = idle_pending w
  /\ _idle_timer (transport (snd (c w))) = _idle_timer (transport w)
  /\ clock (loop (snd (c w))) = clock (loop w).

(** *** Vocabulary of the audio gate *)

(** The event is the arrival of a text frame whose JSON object carries the
    event [authenticated]. *)
Definition accepts (e : Event) : bool :=
match e with
| EvRecv (DataStr s) =>
  match json_loads s with
  | Some (PyDict msg) => py_eq_str (dict_get msg "event") "authenticated"
  | _ => false
  end
| _ => false
end.

(** The call hands an audio chunk to [ws.send]. *)
Definition is_audio (c : Call) : bool :=
match c with WsSend _ (Binary _) => true | _ => false end.

(** A statement that, run while the handshake is not [AUTHENTICATED],
    leaves it so and sends no audio. *)
Definition mute {A} (c : M A) : Prop :=
forall w, _state (handshake (transport w)) <> AUTHENTICATED ->
  _state (handshake (transport (snd (c w)))) <> AUTHENTICATED
  /\ filter is_audio (calls (snd (c w))) = filter is_audio (calls w).

(** The handles of the pending receivers. *)
Definition listen_pending (w : World) : list TaskId :=
flat_map (fun p => match snd p with
                   | ListenTask => [fst p]
                   | _ => []
                   end) (pending (loop w)).

(** A statement that keeps the socket and the handle of the receiver, and
    starts no receiver. *)
Definition steady {A} (c : M A) : Prop :=
forall w,
  _ws (transport (snd (c w))) = _ws (transport w)
  /\ _receive_task (transport (snd (c w))) = _receive_task (transport w)
  /\ incl (listen_pending (snd (c w))) (listen_pending w).

(** A receiver is pending only on a held socket, under the handle that
    [_receive_task] holds; and the handshake is [AUTHENTICATED] only on a
    held socket. *)
Definition held (w : World) : Prop :=
(forall id, In id (listen_pending w) ->
   _receive_task (transport w) = Some id /\ _ws (transport w) <> None)
/\ (_state (handshake (transport w)) = AUTHENTICATED -> _ws (transport w) <> None).

(** *** Vocabulary of the handshake timeout *)

(** The armed handshake timeouts: handle and wake-up time. *)
Definition timeout_pending (w : World) : list (TaskId * Z) :=
flat_map (fun p => match snd p with
                   | TimeoutTask at_ => [(fst p, at_)]
                   | _ => []
                   end) (pending (loop w)).

(** The handshake waits [d] seconds; a timeout is armed only in state
    [AUTHENTICATING], under the handle that [_timeout_task] holds, and it
    is due within [d] seconds. *)
Definition timed (d : Z) (w : World) : Prop :=
_timeout_duration (handshake (transport w)) = d
/\ 0 <= d
/\ forall id at_, In (id, at_) (timeout_pending w) ->
      _timeout_task (handshake (transport w)) = Some id
      /\ _state (handshake (transport w)) = AUTHENTICATING
      /\ clock (loop w) <= at_ <= clock (loop w) + d.

(** A statement that keeps a property of the world. *)
Definition keeps (I : World -> Prop) {A} (c : M A) : Prop :=
forall w, I w -> I (snd (c w)).

End Service.

(** The world once [connect] holds a socket and has started the receiver. *)
Definition dialled (c : Conn) (w : World) : World :=
  snd (set_receive_task (Some (next_id (loop (snd (reset w)))))
         (snd (create_task ListenTask (snd (set_ws (Some c) (snd (reset w))))))).

Definition is_notify (c : Call) : bool :=
  match c with Notify _ _ => true | _ => false end.

(** The calls made on the socket, among all calls. *)
Definition on_socket (c : Call) : bool :=
  match c with WsSend _ _ | WsClose _ _ _ => true | _ => false end.

Definition socket_calls (l : list Call) : list Call := filter on_socket l.

(** A statement that makes no call on the socket. *)
Definition offline {A} (c : M A) : Prop :=
  forall w, socket_calls (calls (snd (c w))) = socket_calls (calls w).

Definition is_ws_send (c : Call) : bool :=
  match c with WsSend _ _ => true | _ => false end.

(** *** Frames and codecs for the examples *)

Definition dq : string := String (Ascii.ascii_of_nat 34) EmptyString.

(** The JSON text of an object with string fields [event] and, when [code]
    is not empty, a number [code]. *)
Definition json_text (event code : string) : string :=
  ("{" ++ dq ++ "event" ++ dq ++ ":" ++ dq ++ event ++ dq
   ++ (if String.eqb code "" then "" else "," ++ dq ++ "code" ++ dq ++ ":" ++ code)
   ++ "}")%string.

(** [json.loads] on the frames of the examples. *)
Definition example_loads (s : string) : option pyval :=
  if String.eqb s (json_text "authenticated" "") then
    Some (PyDict [("event", PyStr "authenticated")])
  else if String.eqb s (json_text "status" "") then
    Some (PyDict [("event", PyStr "status")])
  else if String.eqb s (json_text "error" "401") then
    Some (PyDict [("event", PyStr "error"); ("code", PyInt 401)])
  else if String.eqb s (json_text "error" "1008") then
    Some (PyDict [("event", PyStr "error"); ("code", PyInt 1008)])
  else None.

(** A stand-in for [json.dumps] in the examples, not its output: of an
    object it writes the event alone, and no spaces.  The texts of the
    frames the client sends matter to no statement. *)
Definition example_dumps (v : pyval) : string :=
  match v with
  | PyDict (("event", PyStr e) :: _) => json_text e ""
  | _ => ""
  end.

(** A session that has sent its hello, and the same session once the server
    has answered. *)
Definition authenticating : World :=
  exec (ensure_connected 300 false example_dumps (Dialled 7%nat) "key") init.

Definition authenticated : World :=
  exec (_handle_raw_message 300 example_loads (DataStr (json_text "authenticated" "")))
       authenticating.

(** The start of a session: two message listeners and a handshake listener
    are registered, the client connects, and ten seconds later the server
    accepts it. *)
Definition session_start : list Event :=
  [EvAddMessageListener 5%nat; EvAddMessageListener 6%nat; EvAddListener 9%nat;
   EvEnsureConnected (Dialled 7%nat) "key";
   EvElapse 10;
   EvRecv (DataStr (json_text "authenticated" ""))].

Definition example_run : list Event -> World -> option World :=
  run 300 false example_loads example_dumps.

End Transport.

(* ===================================================================== *)
(** ** services/audio_service.py *)
(* ===================================================================== *)

Module AudioCapture.

(** NumPy [float32] and Python/NumPy [float64] values are IEEE 754 numbers
    of precision 24 and 53; a [float32] read as a [float64] keeps its
    sign, mantissa and exponent. *)
Definition mul32 : spec_float -> spec_float -> spec_float := SFmul 24 128.
Definition mul64 : spec_float -> spec_float -> spec_float := SFmul 53 1024.
Definition div64 : spec_float -> spec_float -> spec_float := SFdiv 53 1024.

(** [float(n)] for a Python [int], as a [float64] and as a [float32]. *)
Definition float64_of_int (n : Z) : spec_float := binary_normalize 53 1024 n 0 false.
Definition float32_of_int (n : Z) : spec_float := binary_normalize 24 128 n 0 false.

(** The integer part of a finite float: the digits after the point are
    dropped, which rounds toward zero.  [None] for infinities and NaN. *)
Definition truncate (f : spec_float) : option Z :=
  match f with
  | S754_zero _ => Some 0
  | S754_finite s m e =>
    let mag := if 0 <=? e then Z.pos m * 2 ^ e else Z.pos m / 2 ^ (- e) in
    Some (if s then - mag else mag)
  | _ => None
  end.

(** One [int16] as two bytes, least significant first, negative values in
    two's complement. *)
Definition byte_of_Z (z : Z) : byte :=
  match Byte.of_N (Z.to_N (z mod 256)) with
  | Some b => b
  | None => x00
  end.

Definition int16_tobytes (v : Z) : bytes :=
  [byte_of_Z (v mod 65536); byte_of_Z ((v mod 65536) / 256)].

(** Reading two bytes back as a little-endian signed 16-bit integer, as the
    receiver of the stream does. *)
Definition int16_frombytes (lo hi : byte) : Z :=
  let u := Z.of_N (Byte.to_N lo) + 256 * Z.of_N (Byte.to_N hi) in
  if u <? 32768 then u else u - 65536.

(** Reading a chunk back as little-endian [int16] values, two bytes each,
    as the receiver of the stream does. *)
Fixpoint frombytes (b : bytes) : list Z :=
  match b with
  | lo :: hi :: t => int16_frombytes lo hi :: frombytes t
  | _ => []
  end.

(** [ndarray.tobytes] for an [int16] array (native order of the x86 and ARM
    hosts of the client: little-endian). *)
Definition tobytes (a : list Z) : bytes := flat_map int16_tobytes a.

Record AudioService := {
  device_rate : Z;
  is_recording : bool
}.

(** [AudioService.__init__]; [start_capture] and [stop_capture]. *)
Definition init : AudioService := {| device_rate := 16000; is_recording := false |}.

Definition start_capture (a : AudioService) : AudioService :=
  {| device_rate := device_rate a; is_recording := true |}.

Definition stop_capture (a : AudioService) : AudioService :=
  {| device_rate := device_rate a; is_recording := false |}.

(** What one call of the callback does. *)
Inductive Outcome :=
| Enqueued (pcm_data : bytes)   (* audio_queue.put_nowait(pcm_data) is scheduled *)
| Skipped                       (* not recording *)
| Raised.                       (* an exception leaves the callback *)

Section Callback.

(** NumPy, which the callback calls: [np.linspace(start, stop, num)] and
    [np.interp(x, xp, fp)] on [float64] arrays.  [np.interp] is [None]
    where it raises [ValueError]: it refuses an empty array of sample
    points [xp], and an [fp] whose length is not that of [xp]. *)
Variable np_linspace : spec_float -> spec_float -> Z -> list spec_float.
Variable np_interp :
  list spec_float -> list spec_float -> list spec_float -> option (list spec_float).

(** What the C conversion behind [astype(np.int16)] yields on this platform
    for a value it does not define: one outside the [int16] range, or NaN. *)
Variable cast_overflow : spec_float -> Z.

(** [astype(np.int16)] on one element: the C conversion drops the
    fraction. *)
Definition astype_int16 (f : spec_float) : Z :=
  match truncate f with
  | Some t => if (-32768 <=? t) && (t <=? 32767) then t else cast_overflow f
  | None => cast_overflow f
  end.

(** [audio_callback(indata, frames, time, status)]; [indata] is the
    [float32] array of shape [(frames, 1)], given by its column. *)
Definition audio_callback (a : AudioService) (indata : list spec_float) : Outcome :=
  if is_recording a then
    if negb (device_rate a =? 16000) then
      if device_rate a =? 0 then Raised   (* ZeroDivisionError *)
      else
        let len := Z.of_nat (length indata) in
        let duration := div64 (float64_of_int len) (float64_of_int (device_rate a)) in
        match truncate (mul64 duration (float64_of_int 16000)) with
        | None => Raised                  (* int() of an infinity or NaN *)
        | Some new_len =>
          if new_len <? 0 then Raised     (* np.linspace refuses a negative num *)
          else
            match np_interp (np_linspace (float64_of_int 0) duration new_len)
                            (np_linspace (float64_of_int 0) duration len)
                            indata with
            | None => Raised              (* the ValueError of np.interp *)
            | Some audio =>
              Enqueued (tobytes (map (fun s => astype_int16 (mul64 s (float64_of_int 32767)))
                                     audio))
            end
        end
    else
      Enqueued (tobytes (map (fun s => astype_int16 (mul32 s (float32_of_int 32767))) indata))
  else Skipped.

End Callback.

(** *** What the specification asks of one sample *)

(** The value of a finite float as a fraction [n / 2^k]. *)
Definition as_fraction (f : spec_float) : option (Z * Z) :=
  match f with
  | S754_zero _ => Some (0, 0)
  | S754_finite s m e =>
    let sm := if s then Z.neg m else Z.pos m in
    Some (if 0 <=? e then (sm * 2 ^ e, 0) else (sm, - e))
  | _ => None
  end.

(** [round(sample * 32767)] with saturation, in exact arithmetic: the nearest
    integer (a tie goes up), clipped to the [int16] range. *)
Definition spec_int16 (sample : spec_float) : option Z :=
  match as_fraction sample with
  | Some (n, k) =>
    let r := (2 * (n * 32767) + 2 ^ k) / 2 ^ (k + 1) in
    Some (Z.max (-32768) (Z.min 32767 r))
  | None => None
  end.

(** [round(frames * 16000 / device_rate)] in exact arithmetic. *)
Definition spec_new_len (frames device_rate : Z) : Z :=
  (2 * frames * 16000 + device_rate) / (2 * device_rate).

(** The conversion of one sample, as far as the code fixes it: when the
    exact value [n / 2^k] of the scaled sample truncates into the [int16]
    range, [v] is that truncation (so not larger in magnitude than the
    value), and its two bytes read back as [v]. *)
Definition stored (scaled : spec_float) (v : Z) : Prop :=
  forall n k,
    as_fraction scaled = Some (n, k) ->
    -32768 <= Z.quot n (2 ^ k) <= 32767 ->
    v = Z.quot n (2 ^ k)
    /\ Z.abs v <= Z.abs n / 2 ^ k
    /\ exists lo hi, int16_tobytes v = [lo; hi] /\ int16_frombytes lo hi = v.

(** The conversion of one sample in full: [stored] where the exact value of
    the scaled sample truncates into the [int16] range; for every other
    scaled sample, an infinity or NaN included, [v] is what the conversion
    [cast] of the platform yields for it.  The code has no clipping step of
    its own. *)
Definition converted (cast : spec_float -> Z) (scaled : spec_float) (v : Z) : Prop :=
  stored scaled v
  /\ (forall n k,
        as_fraction scaled = Some (n, k) ->
        ~ (-32768 <= Z.quot n (2 ^ k) <= 32767) ->
        v = cast scaled)
  /\ (as_fraction scaled = None -> v = cast scaled).

(** *** A reference instance of the NumPy interface *)

Definition add64 : spec_float -> spec_float -> spec_float := SFadd 53 1024.
Definition sub64 : spec_float -> spec_float -> spec_float := SFsub 53 1024.
Definition leb64 : spec_float -> spec_float -> bool := SFleb.

(** [np.linspace] with its default [endpoint=True]: [num] points
    [start + i * step], the last one set to [stop]. *)
Definition linspace (start stop : spec_float) (num : Z) : list spec_float :=
  let div := num - 1 in
  let delta := sub64 stop start in
  let step := div64 delta (float64_of_int div) in
  let scaled (y : spec_float) :=
    if 0 <? div then
      if SFeqb step (float64_of_int 0)
      then mul64 (div64 y (float64_of_int div)) delta
      else mul64 y step
    else mul64 y delta in
  map (fun i => if (1 <? num) && (Z.of_nat i =? div) then stop
                else add64 (scaled (float64_of_int (Z.of_nat i))) start)
      (seq 0 (Z.to_nat num)).

(** [np.interp] at one point: piecewise linear between the sample points,
    constant outside them. *)
Fixpoint interp1 (x : spec_float) (xp fp : list spec_float) : spec_float :=
  match xp, fp with
  | x0 :: ((x1 :: _) as xp'), y0 :: ((y1 :: _) as fp') =>
    if leb64 x x0 then y0
    else if leb64 x1 x then interp1 x xp' fp'
    else add64 (mul64 (div64 (sub64 y1 y0) (sub64 x1 x0)) (sub64 x x0)) y0
  | _, y0 :: _ => y0
  | _, [] => S754_nan
  end.

Definition interp (x xp fp : list spec_float) : option (list spec_float) :=
  match xp with
  | [] => None                    (* array of sample points is empty *)
  | _ =>
    if Nat.eqb (length fp) (length xp)
    then Some (map (fun v => interp1 v xp fp) x)
    else None                     (* fp and xp are not of the same length *)
  end.

(** A conversion that wraps: it keeps the low 16 bits of the truncated
    value, as the C conversion commonly does for a value that fits 32
    bits; 0 for an infinity or NaN. *)
Definition cast_low16 (f : spec_float) : Z :=
  match truncate f with
  | Some t => (t + 32768) mod 65536 - 32768
  | None => 0
  end.

(** The [float32] samples 0.25 and 2.0, for the examples. *)
Definition quarter : spec_float := S754_finite false 8388608 (-25).
Definition two : spec_float := S754_finite false 8388608 (-22).

End AudioCapture.

(* ===================================================================== *)
(** ** controllers/recording_controller.py *)
(* ===================================================================== *)

Module Controller.
Import Transport.
Local Open Scope string_scope.
Local Open Scope list_scope.
Local Open Scope Z_scope.

(** The controller with the services and the logic it owns; [transport] is
    the transport service together with its loop and the calls made. *)
Record RecordingController := {
  audio : AudioCapture.AudioService;
  transport : World;
  buffer_manager : AudioBuffer.AudioBufferManager;
  is_recording : bool
}.

(** [self.transport.handshake.state]. *)
Definition handshake_state (rc : RecordingController) : HandshakeState :=
  _state (handshake (Transport.transport (transport rc))).

(** The controller once other tasks have taken the transport to [w]. *)
Definition set_transport (w : World) (rc : RecordingController) : RecordingController :=
  {| audio := audio rc; transport := w;
     buffer_manager := buffer_manager rc; is_recording := is_recording rc |}.

(** The coroutines [_start_recording_session] hands to
    [asyncio.create_task]. *)
Inductive Spawned :=
| SpawnEnsureConnected   (* self.transport.ensure_connected() *)
| SpawnPipe.             (* self._process_audio_pipe() *)

(** [_start_recording_session], with the tasks it creates. *)
Definition _start_recording_session (rc : RecordingController)
  : RecordingController * list Spawned :=
  if is_recording rc then (rc, [])
  else
    ({| audio := AudioCapture.start_capture (audio rc);
        transport := transport rc;
        buffer_manager := AudioBuffer.clear (buffer_manager rc);
        is_recording := true |},
     [SpawnEnsureConnected; SpawnPipe]).

(** [_on_handshake_state_changed]. *)
Definition _on_handshake_state_changed (state : HandshakeState) (rc : RecordingController)
  : RecordingController :=
  match state with
  | FAILED =>
    {| audio := audio rc; transport := transport rc;
       buffer_manager := AudioBuffer.clear (buffer_manager rc);
       is_recording := is_recording rc |}
  | _ => rc
  end.

(** [_paste_text]: the text that is copied to the clipboard and pasted with
    ctrl+v, [None] when the method returns before. *)
Definition _paste_text (text : Sanitizer.text) : option Sanitizer.text :=
  match text, Sanitizer.strip text with
  | [], _ | _, [] => None
  | _, _ =>
    match Sanitizer.sanitize text with
    | [] => None
    | safe_text => Some safe_text
    end
  end.

Section Session.

(** [cfg.IDLE_TIMEOUT] and [json.dumps], which the transport calls. *)
Variable IDLE_TIMEOUT : Z.
Variable json_dumps : pyval -> string.

(** [self.transport.send_audio], the send callback of the flush. *)
Definition send_callback (chunk : bytes) (m : AudioBuffer.AudioBufferManager) (w : World)
  : World :=
  exec (send_audio IDLE_TIMEOUT chunk) w.

(** One turn of the loop of [_process_audio_pipe], for the chunk that
    [audio_queue.get()] returns; no other task runs while the turn awaits
    its sends. *)
Definition _process_audio_pipe (chunk : bytes) (rc : RecordingController)
  : RecordingController :=
  if state_eqb (handshake_state rc) AUTHENTICATED then
    let flushed :=
      if negb (AudioBuffer.is_empty (buffer_manager rc))
      then AudioBuffer.flush World send_callback (buffer_manager rc) (transport rc)
      else (buffer_manager rc, transport rc) in
    {| audio := audio rc;
       transport := exec (send_audio IDLE_TIMEOUT chunk) (snd flushed);
       buffer_manager := fst flushed;
       is_recording := is_recording rc |}
  else
    {| audio := audio rc; transport := transport rc;
       buffer_manager := AudioBuffer.add chunk (buffer_manager rc);
       is_recording := is_recording rc |}.

(** The turns of the loop for the chunks of a list, first to last. *)
Definition pipe_all (chunks : list bytes) (rc : RecordingController) : RecordingController :=
  fold_left (fun rc chunk => _process_audio_pipe chunk rc) chunks rc.

(** [_stop_recording_session]. *)
Definition _stop_recording_session (rc : RecordingController) : RecordingController :=
  if negb (is_recording rc) then rc
  else
    {| audio := AudioCapture.stop_capture (audio rc);
       transport :=
         if state_eqb (handshake_state rc) AUTHENTICATED
         then exec (_send_json IDLE_TIMEOUT json_dumps
                      (PyDict [("event", PyStr "end-of-stream")])) (transport rc)
         else transport rc;
       buffer_manager := buffer_manager rc;
       is_recording := false |}.

(** [toggle_recording]. *)
Definition toggle_recording (rc : RecordingController)
  : RecordingController * list Spawned :=
  if negb (is_recording rc) then _start_recording_session rc
  else (_stop_recording_session rc, []).

End Session.

(** A controller that is not recording, on a transport in state [w]; and
    two chunks, for the examples. *)
Definition idle_on (w : World) : RecordingController :=
  {| audio := AudioCapture.init; transport := w;
     buffer_manager := AudioBuffer.init; is_recording := false |}.

Definition chunk1 : bytes := [x01; x02].
Definition chunk2 : bytes := [x03; x04].

End Controller.

(* ===================================================================== *)
(** * Properties *)
(* ===================================================================== *)

(** ** The sanitizer *)

Module SanitizerFacts.
Import Sanitizer.

(** The substitution, one step at a time. *)
Lemma ANSI_sub_cons c t :
  ANSI_sub (c :: t) =
  match ANSI_match (c :: t) with
  | Some r => ANSI_sub r
  | None => c :: ANSI_sub t
  end.
Proof.
  rewrite ANSI_sub_equation_2.
  destruct (Logic.inspect (ANSI_match (c :: t))) as [o e].
  destruct o as [r|]; simp ANSI_sub; symmetry in e;
    pattern (ANSI_match (c :: t)); rewrite <- e; reflexivity.
Qed.

(** A match starts with ESC. *)
Lemma ANSI_match_needs_esc c t : c <> ESC -> ANSI_match (c :: t) = None.
Proof.
  unfold ANSI_match, ESC. intros Hc.
  destruct c as [|p|p]; try reflexivity.
  repeat (destruct p as [p|p|]; try reflexivity).
  exfalso; apply Hc; reflexivity.
Qed.

(** Text without ESC holds no escape sequence. *)
Lemma ANSI_sub_without_esc s : ~ In ESC s -> ANSI_sub s = s.
Proof.
  induction s as [|c t IH]; intros Hs.
  - reflexivity.
  - rewrite ANSI_sub_cons, ANSI_match_needs_esc.
    + rewrite IH; [reflexivity|]. intros H; apply Hs; right; exact H.
    + intros ->; apply Hs; left; reflexivity.
Qed.

Lemma whitelisted_range c :
  whitelisted c = true <->
  (0x20 <= c <= 0x7E \/ c = 0x0a \/ c = 0x0d \/ c = 0x09).
Proof. unfold whitelisted. lia. Qed.

Lemma ESC_not_whitelisted : whitelisted ESC = false.
Proof. reflexivity. Qed.

Lemma WHITELIST_sub_fixed s : Forall (fun c => whitelisted c = true) s -> WHITELIST_sub s = s.
Proof.
  unfold WHITELIST_sub.
  induction 1 as [|c t Hc _ IH]; simpl; [reflexivity|].
  rewrite Hc, IH; reflexivity.
Qed.

(** *** Stripping *)

Lemma lstrip_starts_clean s : starts_clean (lstrip s) = true.
Proof.
  induction s as [|c t IH]; simpl; [reflexivity|].
  destruct (py_isspace c) eqn:E; [exact IH|]. simpl. rewrite E. reflexivity.
Qed.

Lemma lstrip_fixed s : starts_clean s = true -> lstrip s = s.
Proof.
  destruct s as [|c t]; simpl; [reflexivity|].
  destruct (py_isspace c); [discriminate | reflexivity].
Qed.

(** [lstrip] removes a prefix of white space. *)
Lemma lstrip_suffix s :
  exists p, s = p ++ lstrip s /\ forallb py_isspace p = true.
Proof.
  induction s as [|c t (p & Hp & Hsp)]; simpl.
  - exists []. split; reflexivity.
  - destruct (py_isspace c) eqn:E.
    + exists (c :: p). simpl. rewrite E, Hsp. split; [congruence | reflexivity].
    + exists []. split; reflexivity.
Qed.

(** [rstrip] removes a suffix of white space. *)
Lemma rstrip_prefix s :
  exists p, s = rstrip s ++ p /\ forallb py_isspace p = true.
Proof.
  unfold rstrip.
  destruct (lstrip_suffix (rev s)) as (p & Hp & Hsp).
  exists (rev p). split.
  - rewrite <- rev_app_distr, <- Hp, rev_involutive. reflexivity.
  - rewrite forallb_forall in *. intros x Hx. apply Hsp, in_rev, Hx.
Qed.

Lemma rstrip_keeps_start s : starts_clean s = true -> starts_clean (rstrip s) = true.
Proof.
  intros Hs. destruct (rstrip_prefix s) as (p & Hp & _).
  destruct (rstrip s) as [|c t]; [reflexivity|].
  rewrite Hp in Hs. exact Hs.
Qed.

Lemma rstrip_ends_clean s : starts_clean (rev (rstrip s)) = true.
Proof. unfold rstrip. rewrite rev_involutive. apply lstrip_starts_clean. Qed.

Lemma rstrip_fixed s : starts_clean (rev s) = true -> rstrip s = s.
Proof. unfold rstrip. intros H. rewrite lstrip_fixed by exact H. apply rev_involutive. Qed.

Lemma strip_starts_clean s : starts_clean (strip s) = true.
Proof. apply rstrip_keeps_start, lstrip_starts_clean. Qed.

Lemma strip_ends_clean s : starts_clean (rev (strip s)) = true.
Proof. apply rstrip_ends_clean. Qed.

Lemma strip_fixed s :
  starts_clean s = true -> starts_clean (rev s) = true -> strip s = s.
Proof.
  intros H1 H2. unfold strip. rewrite (lstrip_fixed s H1). apply rstrip_fixed, H2.
Qed.

(** Stripping only drops code points. *)
Lemma lstrip_incl s c : In c (lstrip s) -> In c s.
Proof.
  destruct (lstrip_suffix s) as (p & Hp & _). intros H.
  rewrite Hp. apply in_or_app. right. exact H.
Qed.

Lemma rstrip_incl s c : In c (rstrip s) -> In c s.
Proof.
  destruct (rstrip_prefix s) as (p & Hp & _). intros H.
  rewrite Hp. apply in_or_app. left. exact H.
Qed.

Lemma strip_incl s c : In c (strip s) -> In c s.
Proof. intros H. apply lstrip_incl, rstrip_incl, H. Qed.

Lemma lstrip_all_space s : forallb py_isspace s = true -> lstrip s = [].
Proof.
  induction s as [|c t IH]; simpl; [reflexivity|].
  intros H. apply andb_true_iff in H as [-> Ht]. apply IH, Ht.
Qed.

(** *** The result of [sanitize] *)

Lemma sanitize_whitelisted x : Forall (fun c => whitelisted c = true) (sanitize x).
Proof.
  apply Forall_forall. intros c Hc.
  destruct x as [|a x]; [destruct Hc|].
  unfold sanitize in Hc. apply strip_incl in Hc.
  unfold WHITELIST_sub in Hc. apply filter_In in Hc. apply Hc.
Qed.

Lemma sanitize_starts_clean x : starts_clean (sanitize x) = true.
Proof. destruct x; [reflexivity | apply strip_starts_clean]. Qed.

Lemma sanitize_ends_clean x : starts_clean (rev (sanitize x)) = true.
Proof. destruct x; [reflexivity | apply strip_ends_clean]. Qed.

(** C6: [Sanitizer.sanitize] is idempotent: for every string [x],
    [sanitize (sanitize x)] equals [sanitize x]. *)
Theorem sanitize_idempotent (x : text) : sanitize (sanitize x) = sanitize x.
Proof.
  pose proof (sanitize_whitelisted x) as Hw.
  pose proof (sanitize_starts_clean x) as Hs.
  pose proof (sanitize_ends_clean x) as He.
  destruct (sanitize x) as [|c y] eqn:E; [reflexivity|].
  unfold sanitize at 1.
  rewrite ANSI_sub_without_esc.
  - rewrite (WHITELIST_sub_fixed _ Hw). apply strip_fixed; assumption.
  - intros Hin. rewrite Forall_forall in Hw. apply Hw in Hin.
    rewrite ESC_not_whitelisted in Hin. discriminate.
Qed.

(** C7: for every input string [x], every code point of [sanitize x] lies in
    0x20..0x7E or is one of line feed, carriage return and tab; the result
    neither starts nor ends with white space; and the empty input, like
    every input whose cleaned text is only white space, yields the empty
    string. *)
Theorem sanitize_whitelist_trimmed (x : text) :
  Forall (fun c => 0x20 <= c <= 0x7E \/ c = 0x0a \/ c = 0x0d \/ c = 0x09) (sanitize x)
  /\ starts_clean (sanitize x) = true
  /\ starts_clean (rev (sanitize x)) = true
  /\ sanitize [] = []
  /\ (forallb py_isspace (WHITELIST_sub (ANSI_sub x)) = true -> sanitize x = []).
Proof.
  split; [|split; [|split; [|split]]].
  - eapply Forall_impl; [|apply sanitize_whitelisted].
    intros c. apply whitelisted_range.
  - apply sanitize_starts_clean.
  - apply sanitize_ends_clean.
  - reflexivity.
  - intros H. destruct x as [|a x]; [reflexivity|].
    unfold sanitize, strip. rewrite (lstrip_all_space _ H). reflexivity.
Qed.

(** The escape sequences of the security tests, cleaned; the last input
    cleans to nothing. *)
Lemma sanitize_whitelist_trimmed_witness :
  sanitize [0x1b; 0x5b; 0x33; 0x31; 0x6d; 0x45; 0x78; 0x1b; 0x5b; 0x30; 0x6d] = [0x45; 0x78]
  /\ sanitize [0x20; 0x07; 0x09; 0x1b; 0x5b; 0x6d; 0x0a] = [].
Proof.
  split; [reflexivity|].
  apply (sanitize_whitelist_trimmed [0x20; 0x07; 0x09; 0x1b; 0x5b; 0x6d; 0x0a]).
  reflexivity.
Defined.

End SanitizerFacts.

(** ** The audio buffer *)

Module AudioBufferFacts.
Import AudioBuffer.

Lemma count_nonneg m : 0 <= count m.
Proof. unfold count. lia. Qed.

Lemma count_add_bounded chunk m : count m <= MAX_CHUNKS -> count (add chunk m) <= MAX_CHUNKS.
Proof.
  unfold add, count, pop0, MAX_CHUNKS. intros H.
  destruct (_is_buffering m); [|exact H]. simpl.
  destruct (20000 <=? Z.of_nat (length (_buffer m))) eqn:E.
  - destruct (_buffer m) as [|c0 b]; simpl in *; rewrite ?length_app in *; simpl in *; lia.
  - rewrite length_app. simpl. lia.
Qed.

Lemma flush_manager W (send : bytes -> AudioBufferManager -> W -> W) m w :
  fst (flush W send m w) = {| _buffer := []; _is_buffering := false |}.
Proof. unfold flush. destruct (_buffer m) eqn:E; simpl; reflexivity. Qed.

Lemma count_exec_bounded W (send : bytes -> AudioBufferManager -> W -> W) o s :
  count (fst s) <= MAX_CHUNKS -> count (fst (exec W send o s)) <= MAX_CHUNKS.
Proof.
  destruct o; simpl; intros H.
  - apply count_add_bounded, H.
  - rewrite flush_manager. unfold count, MAX_CHUNKS. simpl. lia.
  - unfold count, MAX_CHUNKS. simpl. lia.
Qed.

Lemma count_run_bounded W (send : bytes -> AudioBufferManager -> W -> W) ops s :
  count (fst s) <= MAX_CHUNKS -> count (fst (run W send ops s)) <= MAX_CHUNKS.
Proof.
  unfold run. revert s. induction ops as [|o ops IH]; simpl; intros s H.
  - exact H.
  - apply IH, count_exec_bounded, H.
Qed.

(** C8: [AudioBufferManager.count] never exceeds 20000: it holds after every
    run of [add], [flush] and [clear] on a fresh manager, every operation
    preserves it, and [add] on a full buffer in buffering mode drops the
    oldest chunk and appends the new one behind the others. *)
Theorem count_never_exceeds_cap
  (W : Type) (send : bytes -> AudioBufferManager -> W -> W)
  (ops : list Op) (w : W) (o : Op) (m : AudioBufferManager) (chunk : bytes) :
  count (fst (run W send ops (init, w))) <= 20000
  /\ (count m <= 20000 -> count (fst (exec W send o (m, w))) <= 20000)
  /\ (_is_buffering m = true -> count m = 20000 ->
      exists oldest rest,
        _buffer m = oldest :: rest
        /\ _buffer (add chunk m) = rest ++ [chunk]
        /\ count (add chunk m) = 20000).
Proof.
  split; [|split].
  - apply (count_run_bounded W send ops (init, w)). unfold count, MAX_CHUNKS. simpl. lia.
  - apply (count_exec_bounded W send o (m, w)).
  - intros Hb Hc. unfold add, count in *. rewrite Hb. unfold MAX_CHUNKS, count. rewrite Hc. simpl.
    destruct (_buffer m) as [|oldest rest]; [simpl in Hc; lia|].
    exists oldest, rest. simpl. split; [reflexivity|]. split; [reflexivity|].
    rewrite length_app. simpl in *. lia.
Qed.

Lemma count_never_exceeds_cap_witness :
  exists oldest rest,
    _buffer full = oldest :: rest
    /\ _buffer (add [x02] full) = rest ++ [[x02]]
    /\ count (add [x02] full) = 20000.
Proof.
  apply (count_never_exceeds_cap unit (fun _ _ u => u) [] tt OpClear full [x02]).
  - reflexivity.
  - vm_compute. reflexivity.
Defined.

(** C9: [flush send_fn] hands every buffered chunk to [send_fn] exactly
    once, in insertion order; the buffer is already empty and [buffering]
    false when the first send is awaited; and the manager is left empty with
    [buffering] false, also when there was nothing to flush. *)
Theorem flush_sends_buffer_in_order
  (W : Type) (send : bytes -> AudioBufferManager -> W -> W)
  (m : AudioBufferManager) (w : W) :
  let flushed := {| _buffer := []; _is_buffering := false |} in
  flush W send m w
  = (flushed, fold_left (fun w chunk => send chunk flushed w) (_buffer m) w)
  /\ flush _ recorder m [] = (flushed, map (fun chunk => (chunk, flushed)) (_buffer m))
  /\ is_empty (fst (flush W send m w)) = true
  /\ _is_buffering (fst (flush W send m w)) = false.
Proof.
  assert (Hrec : forall l log,
    fold_left (fun lg chunk => recorder chunk {| _buffer := []; _is_buffering := false |} lg) l log
    = log ++ map (fun chunk => (chunk, {| _buffer := []; _is_buffering := false |})) l).
  { induction l as [|c l IH]; intros log; simpl.
    - rewrite app_nil_r. reflexivity.
    - rewrite IH. unfold recorder. rewrite <- app_assoc. reflexivity. }
  simpl. repeat split.
  - unfold flush. destruct (_buffer m) eqn:E; reflexivity.
  - unfold flush. destruct (_buffer m) eqn:E; [reflexivity|].
    rewrite Hrec. reflexivity.
  - rewrite flush_manager. reflexivity.
  - rewrite flush_manager. reflexivity.
Qed.

(** C10: for every chunk [c], [add c] while [buffering] is false leaves the
    manager as it was: same contents, same count, same mode. *)
Theorem add_when_not_buffering (c : bytes) (m : AudioBufferManager) :
  _is_buffering m = false ->
  add c m = m
  /\ _buffer (add c m) = _buffer m
  /\ count (add c m) = count m
  /\ _is_buffering (add c m) = false.
Proof.
  intros H. unfold add. rewrite H. repeat split. exact H.
Qed.

(** After a flush, and before the next clear, a chunk is discarded. *)
Lemma add_when_not_buffering_witness :
  let m := fst (flush _ recorder (add [x01] init) []) in
  add [x02] m = m
  /\ _buffer (add [x02] m) = _buffer m
  /\ count (add [x02] m) = count m
  /\ _is_buffering (add [x02] m) = false.
Proof.
  apply (add_when_not_buffering [x02] (fst (flush _ recorder (add [x01] init) []))).
  reflexivity.
Defined.

End AudioBufferFacts.

(** ** The handshake and the transport *)

Module TransportFacts.
Import Transport.
Local Open Scope string_scope.
Local Open Scope list_scope.
Local Open Scope Z_scope.

Lemma state_eqb_eq a b : state_eqb a b = true <-> a = b.
Proof. destruct a, b; simpl; split; congruence. Qed.

(** Notifying a list of callbacks appends one call per callback. *)
Lemma for_each_call {A} (f : A -> Call) (l : list A) (w : World) :
  for_each l (fun x => call (f x)) w
  = (tt, {| loop := loop w; transport := transport w; calls := calls w ++ map f l |}).
Proof.
  revert w. induction l as [|x l IH]; intros w; simpl.
  - unfold ret. rewrite app_nil_r. destruct w; reflexivity.
  - unfold bind, call, modify. simpl. rewrite IH. simpl.
    rewrite <- app_assoc. reflexivity.
Qed.

Lemma for_each_notify ls s w :
  for_each ls (fun listener => call (Notify listener s)) w
  = (tt, {| loop := loop w; transport := transport w;
            calls := calls w ++ map (fun l => Notify l s) ls |}).
Proof. apply (for_each_call (fun l => Notify l s)). Qed.

Lemma for_each_deliver ls msg w :
  for_each ls (fun cb => call (Deliver cb msg)) w
  = (tt, {| loop := loop w; transport := transport w;
            calls := calls w ++ map (fun cb => Deliver cb msg) ls |}).
Proof. apply (for_each_call (fun cb => Deliver cb msg)). Qed.

Ltac run_monad :=
  unfold exec, bind, gets, modify, ret, now, state, cancel, create_task,
    set_state, set_timeout_task, set_ws, set_receive_task, set_idle_timer,
    with_handshake, with_transport, with_loop in *; simpl in *;
  repeat (first [rewrite for_each_notify in * | rewrite for_each_deliver in *]; simpl in * ).

Ltac run_calls := run_monad; unfold call, modify in *; simpl in *.

Section Facts.
Variable IDLE_TIMEOUT : Z.
Variable incognito : bool.
Variable json_loads : string -> option pyval.
Variable json_dumps : pyval -> string.

(** C1: [send_audio chunk] hands the chunk to the socket as a binary frame
    if and only if the handshake state is [AUTHENTICATED] and the socket
    handle is present when it is called; otherwise nothing is sent and the
    service is left exactly as it was. *)
Theorem send_audio_only_when_authenticated (chunk : bytes) (w : World) :
  let w' := exec (send_audio IDLE_TIMEOUT chunk) w in
  (calls w' <> calls w <->
     _state (handshake (transport w)) = AUTHENTICATED /\ _ws (transport w) <> None)
  /\ (forall c, _state (handshake (transport w)) = AUTHENTICATED ->
                _ws (transport w) = Some c ->
                calls w' = calls w ++ [WsSend c (Binary chunk)])
  /\ (~ (_state (handshake (transport w)) = AUTHENTICATED /\ _ws (transport w) <> None) ->
      w' = w).
Proof.
  assert (Hneq : forall (l : list Call) x, l ++ [x] <> l).
  { intros l x H. apply (f_equal (@length _)) in H. rewrite length_app in H. simpl in H. lia. }
  unfold send_audio, can_send_audio, _reset_idle_timer. run_calls.
  destruct (_state (handshake (transport w))) eqn:Es; simpl;
    destruct (_ws (transport w)) as [c|] eqn:Ew; simpl;
    try (split; [split; [intros H; exfalso; apply H; reflexivity | intros [H1 H2]; congruence]
                | split; [intros c0 H1 H2; congruence | reflexivity]]).
  destruct (_idle_timer (transport w)); simpl.
  all: split; [split; [intros _; split; congruence | intros _; apply Hneq]
              | split; [intros c0 _ H; injection H as <-; reflexivity
                       | intros H; exfalso; apply H; split; congruence]].
Qed.


Lemma transition_to_effect new_state w :
  let s := _state (handshake (transport w)) in
  let w' := exec (transition_to new_state) w in
  _state (handshake (transport w')) = (if moves s new_state then new_state else s)
  /\ calls w' = calls w ++ (if moves s new_state
                            then map (fun l => Notify l new_state) (_listeners (handshake (transport w)))
                            else [])
  /\ _ws (transport w') = _ws (transport w)
  /\ _message_listeners (transport w') = _message_listeners (transport w)
  /\ _idle_timer (transport w') = _idle_timer (transport w)
  /\ _receive_task (transport w') = _receive_task (transport w)
  /\ _listeners (handshake (transport w')) = _listeners (handshake (transport w)).
Proof.
  unfold transition_to, _start_timeout, _cancel_timeout, moves. run_monad.
  destruct (state_eqb (_state (handshake (transport w))) new_state) eqn:E1; simpl.
  { rewrite app_nil_r. repeat split. }
  destruct (_is_valid_transition (_state (handshake (transport w))) new_state) eqn:E2; simpl.
  2:{ rewrite app_nil_r. repeat split. }
  destruct (state_eqb new_state AUTHENTICATING); run_monad;
    destruct (_timeout_task (handshake (transport w))); run_calls; repeat split.
Qed.


Lemma lookup_cancelled id l :
  find (fun p : TaskId * Task => Nat.eqb (fst p) id)
       (filter (fun p => negb (Nat.eqb (fst p) id)) l) = None.
Proof.
  induction l as [|[i t] l IH]; simpl; [reflexivity|].
  destruct (Nat.eqb i id) eqn:E; simpl; [exact IH|].
  rewrite E. exact IH.
Qed.

(** C2, amended: from every state other than [AUTHENTICATING], [reset]
    leaves the state machine in [LOCKED]; and from every state,
    [AUTHENTICATING] included, the handshake-timeout handle is cleared and
    the task it held is no longer scheduled. *)
Theorem reset_locks_unless_authenticating (w : World) :
  let w' := exec reset w in
  (_state (handshake (transport w)) <> AUTHENTICATING ->
   _state (handshake (transport w')) = LOCKED)
  /\ _timeout_task (handshake (transport w')) = None
  /\ (forall id, _timeout_task (handshake (transport w)) = Some id ->
                 lookup_task id (loop w') = None).
Proof.
  unfold reset, transition_to, _cancel_timeout, lookup_task. run_monad.
  destruct (_timeout_task (handshake (transport w))) as [t|] eqn:Et; run_monad;
    destruct (_state (handshake (transport w))) eqn:Es; run_calls;
    rewrite ?Et; simpl;
    (split; [congruence | split; [reflexivity | intros id Hid; try discriminate]]).
  all: injection Hid as <-; rewrite lookup_cancelled; reflexivity.
Qed.


(** *** Sequencing *)

Lemma exec_bind {A B} (c : M A) (k : A -> M B) w :
  exec (bind c k) w = exec (k (fst (c w))) (snd (c w)).
Proof. reflexivity. Qed.

Lemma exec_bind' {A B} (c : M A) (k : A -> M B) w :
  snd (bind c k w) = snd (k (fst (c w)) (snd (c w))).
Proof. reflexivity. Qed.

(** *** Error frames *)

Lemma float_eq_int_inj f a b : float_eq_int f a = true -> float_eq_int f b = true -> a = b.
Proof.
  unfold float_eq_int. destruct f as [s| | |s m e]; try discriminate.
  - lia.
  - destruct (0 <=? e) eqn:E.
    + lia.
    + intros Ha Hb. apply Z.eqb_eq in Ha, Hb. apply Z.leb_gt in E.
      assert (0 < 2 ^ (- e)) by (apply Z.pow_pos_nonneg; lia).
      nia.
Qed.

(** A value equals at most one integer. *)
Lemma py_eq_int_inj v a b : py_eq_int v a = true -> py_eq_int v b = true -> a = b.
Proof.
  destruct v; simpl; try discriminate.
  - lia.
  - lia.
  - apply float_eq_int_inj.
Qed.

Lemma py_eq_str_eq v s : py_eq_str v s = true -> v = PyStr s.
Proof.
  destruct v; simpl; try discriminate.
  intros H. apply String.eqb_eq in H. congruence.
Qed.

Lemma reset_idle_timer_frame w :
  let w' := snd (_reset_idle_timer IDLE_TIMEOUT w) in
  handshake (transport w') = handshake (transport w)
  /\ _message_listeners (transport w') = _message_listeners (transport w)
  /\ _ws (transport w') = _ws (transport w)
  /\ calls w' = calls w.
Proof.
  unfold _reset_idle_timer. run_calls.
  destruct (_idle_timer (transport w)); simpl; repeat split; destruct (handshake (transport w)); reflexivity.
Qed.

Lemma notify_message_listeners_effect msg w :
  let w' := snd (notify_message_listeners msg w) in
  handshake (transport w') = handshake (transport w)
  /\ calls w' = calls w
               ++ map (fun cb => Deliver cb msg) (_message_listeners (transport w)).
Proof. unfold notify_message_listeners. run_calls. split; reflexivity. Qed.

(** C4, amended: for a text frame that parses to an object with event
    ["error"]: if its code is 401 or 403 and the state is [LOCKED],
    [AUTHENTICATING] or [FAILED], the state becomes [FAILED]; if its code is
    1008 the state becomes [BANNED]; and in every case the message is
    delivered to every registered message listener, in registration order,
    after the notifications of the handshake listeners. *)
Theorem error_frame_sets_state_and_reaches_listeners
  (s : string) (msg : list (string * pyval)) (w : World) :
  json_loads s = Some (PyDict msg) ->
  py_eq_str (dict_get msg "event") "error" = true ->
  let code := dict_get msg "code" in
  let st := _state (handshake (transport w)) in
  let w' := exec (_handle_raw_message IDLE_TIMEOUT json_loads (DataStr s)) w in
  (py_eq_int code 401 = true \/ py_eq_int code 403 = true ->
   st = LOCKED \/ st = AUTHENTICATING \/ st = FAILED ->
   _state (handshake (transport w')) = FAILED)
  /\ (py_eq_int code 1008 = true -> _state (handshake (transport w')) = BANNED)
  /\ exists notes,
       forallb is_notify notes = true
       /\ calls w' = calls w ++ notes
                     ++ map (fun cb => Deliver cb (PyDict msg))
                            (_message_listeners (transport w)).
Proof.
  intros Hloads Hev code st w'.
  apply py_eq_str_eq in Hev.
  subst w'. unfold exec, _handle_raw_message. rewrite Hloads. cbv zeta. rewrite Hev.
  change (py_eq_str (PyStr "error") "hello") with false.
  change (py_eq_str (PyStr "error") "authenticated") with false.
  change (py_eq_str (PyStr "error") "error") with true. cbv iota.
  fold code.
  destruct (reset_idle_timer_frame w) as (Fh & Fm & _ & Fc).
  assert (Fs : _state (handshake (transport (snd (_reset_idle_timer IDLE_TIMEOUT w)))) = st)
    by (unfold st; rewrite Fh; reflexivity).
  assert (Notes : forall l new_state,
            forallb is_notify (map (fun l0 : Callback => Notify l0 new_state) l) = true).
  { induction l; simpl; auto. }
  destruct (py_in_ints code [401; 403; 1008]) eqn:Hin;
    [destruct (py_eq_int code 1008) eqn:H1008|];
    unfold bind; cbn [fst snd];
    set (w1 := snd (_reset_idle_timer IDLE_TIMEOUT w)) in *.
  - (* 1008: the state machine is asked for FAILED, then for BANNED *)
    destruct (transition_to_effect FAILED w1) as (S2 & C2 & _ & M2 & _ & _ & L2).
    unfold exec in S2, C2, M2, L2.
    set (w2 := snd (transition_to FAILED w1)) in *.
    destruct (transition_to_effect BANNED w2) as (S3 & C3 & _ & M3 & _).
    unfold exec in S3, C3, M3.
    set (w3 := snd (transition_to BANNED w2)) in *.
    destruct (notify_message_listeners_effect (PyDict msg) w3) as (Nh & Nc).
    rewrite Nh, Nc, S3, C3, M3, M2, C2, Fm, Fc. rewrite Fs in *.
    split; [|split].
    + intros [H|H]; pose proof (py_eq_int_inj _ _ _ H H1008); discriminate.
    + intros _. destruct (_state (handshake (transport w2))); reflexivity.
    + exists ((if moves st FAILED
               then map (fun l => Notify l FAILED) (_listeners (handshake (transport w1)))
               else [])
              ++ (if moves (_state (handshake (transport w2))) BANNED
                  then map (fun l => Notify l BANNED) (_listeners (handshake (transport w2)))
                  else [])).
      split; [|rewrite <- !app_assoc; reflexivity].
      rewrite forallb_app.
      destruct (moves st FAILED), (moves (_state (handshake (transport w2))) BANNED);
        simpl; rewrite ?Notes; reflexivity.
  - (* 401 or 403: the state machine is asked for FAILED *)
    destruct (transition_to_effect FAILED w1) as (S2 & C2 & _ & M2 & _ & _ & L2).
    unfold exec in S2, C2, M2, L2.
    set (w2 := snd (transition_to FAILED w1)) in *.
    destruct (notify_message_listeners_effect (PyDict msg) (snd (ret tt w2))) as (Nh & Nc).
    rewrite Nh, Nc. unfold ret; cbn [fst snd].
    rewrite S2, C2, M2, Fm, Fc. rewrite Fs in *.
    split; [|split].
    + intros _ [H | [H | H]]; rewrite H; reflexivity.
    + discriminate.
    + exists (if moves st FAILED
              then map (fun l => Notify l FAILED) (_listeners (handshake (transport w1)))
              else []).
      split; [|rewrite <- !app_assoc; reflexivity].
      destruct (moves st FAILED); simpl; rewrite ?Notes; reflexivity.
  - (* some other code *)
    destruct (notify_message_listeners_effect (PyDict msg) (snd (ret tt w1))) as (Nh & Nc).
    rewrite Nh, Nc. unfold ret; cbn [fst snd].
    unfold py_in_ints in Hin. simpl in Hin.
    apply orb_false_iff in Hin as [H401 Hin].
    apply orb_false_iff in Hin as [H403 Hin].
    apply orb_false_iff in Hin as [H1008 _].
    rewrite Fm, Fc.
    split; [|split].
    + intros [H|H]; congruence.
    + congruence.
    + exists []. split; reflexivity.
Qed.

(** *** Statements that leave the idle timer alone *)

Lemma gentle_same {A} (c : M A) :
  (forall w, next_id (loop (snd (c w))) = next_id (loop w)
             /\ _timeout_task (handshake (transport (snd (c w))))
                = _timeout_task (handshake (transport w))
             /\ idle_pending (snd (c w)) = idle_pending w
             /\ _idle_timer (transport (snd (c w))) = _idle_timer (transport w)
             /\ clock (loop (snd (c w))) = clock (loop w)) ->
  gentle c.
Proof.
  intros H w Hw. destruct (H w) as (H1 & H2 & H3 & H4 & H5).
  split; [|auto]. unfold tidy in *. rewrite H1, H2, H3. exact Hw.
Qed.

Lemma gentle_ret {A} (a : A) : gentle (ret a).
Proof. apply gentle_same; intros w; repeat split. Qed.

Lemma gentle_gets {A} (f : World -> A) : gentle (gets f).
Proof. apply gentle_same; intros w; repeat split. Qed.

Lemma gentle_bind {A B} (c : M A) (k : A -> M B) :
  gentle c -> (forall a, gentle (k a)) -> gentle (bind c k).
Proof.
  intros Hc Hk w Hw. unfold bind.
  destruct (Hc w Hw) as (T1 & I1 & H1 & C1).
  destruct (Hk (fst (c w)) (snd (c w)) T1) as (T2 & I2 & H2 & C2).
  split; [exact T2|]. split; [congruence|]. split; congruence.
Qed.

Lemma gentle_if {A} (b : bool) (c d : M A) : gentle c -> gentle d -> gentle (if b then c else d).
Proof. destruct b; auto. Qed.

Lemma gentle_for_each {A} (l : list A) (body : A -> M unit) :
  (forall x, gentle (body x)) -> gentle (for_each l body).
Proof.
  intros H. induction l as [|x l IH]; simpl.
  - apply gentle_ret.
  - apply gentle_bind; [apply H | intros _; exact IH].
Qed.

Lemma gentle_call c : gentle (call c).
Proof. apply gentle_same; intros w; repeat split. Qed.

Lemma gentle_set_state s : gentle (set_state s).
Proof. apply gentle_same; intros w; repeat split. Qed.

Lemma gentle_set_ws c : gentle (set_ws c).
Proof. apply gentle_same; intros w; repeat split. Qed.

Lemma gentle_set_receive_task r : gentle (set_receive_task r).
Proof. apply gentle_same; intros w; repeat split. Qed.

Lemma gentle_add_listener cb : gentle (add_listener cb).
Proof. apply gentle_same; intros w; repeat split. Qed.

Lemma gentle_add_message_listener cb : gentle (add_message_listener cb).
Proof. apply gentle_same; intros w; repeat split. Qed.

Lemma idle_pending_create t w :
  idle_pending (snd (create_task t w))
  = idle_pending w ++ match t with
                      | IdleTask at_ => [(next_id (loop w), at_)]
                      | _ => []
                      end.
Proof.
  unfold idle_pending; simpl. rewrite flat_map_app. simpl.
  destruct t; simpl; reflexivity.
Qed.

Lemma gentle_create_listen : gentle (create_task ListenTask).
Proof.
  intros w [Hi Ht]. unfold tidy. rewrite idle_pending_create, app_nil_r.
  repeat split; simpl.
  - intros id at_ H. apply Hi in H. lia.
  - apply Ht in H. lia.
  - apply Ht, H.
Qed.

Lemma idle_pending_cancel id w :
  idle_pending (snd (cancel id w))
  = filter (fun p => negb (Nat.eqb (fst p) id)) (idle_pending w).
Proof.
  unfold idle_pending, cancel, modify, with_loop. simpl.
  induction (pending (loop w)) as [|[i t] l IH]; simpl; [reflexivity|].
  destruct (Nat.eqb i id) eqn:E; simpl;
    rewrite IH; destruct t; simpl; rewrite ?E; reflexivity.
Qed.

Lemma filter_not_in id (l : list (TaskId * Z)) :
  (forall at_, ~ In (id, at_) l) ->
  filter (fun p => negb (Nat.eqb (fst p) id)) l = l.
Proof.
  induction l as [|[i t] l IH]; simpl; intros H; [reflexivity|].
  destruct (Nat.eqb i id) eqn:E; simpl.
  - apply Nat.eqb_eq in E. subst i. exfalso. apply (H t). left. reflexivity.
  - rewrite IH; [reflexivity|]. intros at_ Hin. apply (H at_). right. exact Hin.
Qed.

(** Cancelling keeps a world tidy, whatever the task. *)
Lemma tidy_cancel id w : tidy w -> tidy (snd (cancel id w)).
Proof.
  intros [Hi Ht]. unfold tidy. rewrite idle_pending_cancel. simpl. split.
  - intros i at_ H. apply filter_In in H. apply (Hi i at_), H.
  - intros i H. destruct (Ht i H) as [H1 H2]. split; [exact H1|].
    intros at_ Hin. apply filter_In in Hin. apply (H2 at_), Hin.
Qed.

Lemma gentle_cancel_timeout : gentle _cancel_timeout.
Proof.
  intros w Hw. unfold _cancel_timeout, bind, gets. simpl.
  destruct (_timeout_task (handshake (transport w))) as [id|] eqn:E.
  - destruct Hw as [Hi Ht]. destruct (Ht id E) as [Hlt Hnot].
    assert (Hsame : idle_pending (snd (cancel id w)) = idle_pending w)
      by (rewrite idle_pending_cancel; apply filter_not_in, Hnot).
    unfold tidy. simpl. unfold idle_pending in *. simpl in *. rewrite Hsame.
    repeat split; try discriminate. exact Hi.
  - simpl. auto.
Qed.

Lemma gentle_start_timeout : gentle _start_timeout.
Proof.
  intros w Hw. unfold _start_timeout.
  destruct (gentle_cancel_timeout w Hw) as ([Hi Ht] & I1 & H1 & C1).
  set (w1 := snd (_cancel_timeout w)) in *.
  unfold bind, now, gets. fold w1. simpl.
  unfold tidy, idle_pending in *. simpl in *.
  rewrite flat_map_app. simpl. rewrite app_nil_r.
  repeat split; try assumption.
  - intros id at_ H. apply Hi in H. lia.
  - injection H as <-. lia.
  - injection H as <-. intros at_ Hin. apply Hi in Hin. lia.
Qed.

Create HintDb gentle.
#[local] Hint Resolve gentle_ret gentle_gets gentle_call gentle_set_state
  gentle_set_ws gentle_set_receive_task gentle_create_listen
  gentle_add_listener gentle_add_message_listener
  gentle_cancel_timeout gentle_start_timeout : gentle.

Ltac gentle_tac :=
  repeat first
    [ progress (intros)
    | solve [auto with gentle]
    | apply gentle_bind
    | apply gentle_for_each
    | apply gentle_if
    | match goal with
      | |- gentle (match ?x with _ => _ end) => destruct x
      end ].

Lemma gentle_transition_to s : gentle (transition_to s).
Proof. unfold transition_to, state. gentle_tac. Qed.
#[local] Hint Resolve gentle_transition_to : gentle.

Lemma gentle_reset : gentle reset.
Proof. unfold reset. gentle_tac. Qed.
#[local] Hint Resolve gentle_reset : gentle.

Lemma gentle_timeout_coro_wakes : gentle _timeout_coro_wakes.
Proof. unfold _timeout_coro_wakes, state. gentle_tac. Qed.
#[local] Hint Resolve gentle_timeout_coro_wakes : gentle.

Lemma gentle_notify_message_listeners msg : gentle (notify_message_listeners msg).
Proof. unfold notify_message_listeners. gentle_tac. Qed.
#[local] Hint Resolve gentle_notify_message_listeners : gentle.


(** *** Arming and disarming the idle timer *)

Lemma idle_inv_filter w w' la f :
  tidy w' ->
  idle_pending w' = filter f (idle_pending w) ->
  _idle_timer (transport w') = _idle_timer (transport w) ->
  idle_inv IDLE_TIMEOUT w la -> idle_inv IDLE_TIMEOUT w' la.
Proof.
  intros Ht Hf Hh [_ Hinv]. split; [exact Ht|].
  rewrite Hf, Hh.
  destruct (idle_pending w) as [|[id at_] [|q l]]; simpl in *; try contradiction.
  - exact I.
  - destruct (f (id, at_)); [exact Hinv | exact I].
Qed.

Lemma gentle_calm {A} (c : M A) w la :
  gentle c -> idle_inv IDLE_TIMEOUT w la ->
  idle_inv IDLE_TIMEOUT (snd (c w)) la
  /\ idle_pending (snd (c w)) = idle_pending w
  /\ _idle_timer (transport (snd (c w))) = _idle_timer (transport w)
  /\ clock (loop (snd (c w))) = clock (loop w).
Proof.
  intros Hc Hinv. destruct (Hc w (proj1 Hinv)) as (T & I1 & H1 & C1).
  split; [|auto].
  apply (idle_inv_filter w _ la (fun _ => true)); auto.
  rewrite I1. clear. induction (idle_pending w); simpl; congruence.
Qed.

Lemma reset_idle_timer_arms w la :
  idle_inv IDLE_TIMEOUT w la ->
  let w' := snd (_reset_idle_timer IDLE_TIMEOUT w) in
  tidy w'
  /\ _idle_timer (transport w') = Some (next_id (loop w))
  /\ idle_pending w' = [(next_id (loop w), clock (loop w) + IDLE_TIMEOUT)]
  /\ clock (loop w') = clock (loop w).
Proof.
  intros [[Hi Ht] Hinv]. unfold _reset_idle_timer, now. unfold bind, gets.
  cbn [fst snd].
  set (w1 := snd (match _idle_timer (transport w) with
                  | Some id => cancel id
                  | None => ret tt
                  end w)).
  assert (H1 : idle_pending w1 = []
               /\ next_id (loop w1) = next_id (loop w)
               /\ clock (loop w1) = clock (loop w)
               /\ _timeout_task (handshake (transport w1))
                  = _timeout_task (handshake (transport w))).
  { subst w1. simpl. destruct (_idle_timer (transport w)) as [id|] eqn:E.
    - rewrite idle_pending_cancel. simpl. repeat split.
      destruct (idle_pending w) as [|[i at_] [|q l]]; simpl in *; try contradiction.
      + reflexivity.
      + destruct Hinv as [Hid _]. injection Hid as ->. rewrite Nat.eqb_refl. reflexivity.
    - simpl. repeat split.
      destruct (idle_pending w) as [|[i at_] [|q l]]; simpl in *; try contradiction.
      + reflexivity.
      + destruct Hinv as [Hid _]. discriminate. }
  destruct H1 as (I1 & N1 & C1 & T1).
  cbn [fst snd].
  set (t := IdleTask _).
  assert (I2 : idle_pending (snd (create_task t w1))
               = [(next_id (loop w), clock (loop w) + IDLE_TIMEOUT)]).
  { rewrite idle_pending_create, I1. subst t. simpl. rewrite N1, C1. reflexivity. }
  unfold tidy.
  change (idle_pending (snd (set_idle_timer _ (snd (create_task t w1)))))
    with (idle_pending (snd (create_task t w1))).
  rewrite I2. simpl. rewrite N1, C1, T1.
  repeat split.
  - intros id at_ [H|[]]. injection H as <- _. lia.
  - apply Ht in H. lia.
  - intros at_ [Hin|[]]. injection Hin as Hin _. apply Ht in H. lia.
Qed.

Lemma idle_inv_armed w id t :
  tidy w -> _idle_timer (transport w) = Some id ->
  idle_pending w = [(id, t + IDLE_TIMEOUT)] ->
  idle_inv IDLE_TIMEOUT w (Some t).
Proof.
  intros Ht Hh Hi. split; [exact Ht|]. rewrite Hi. split; [exact Hh|].
  f_equal. lia.
Qed.

Lemma idle_inv_disarmed w la :
  tidy w -> idle_pending w = [] -> idle_inv IDLE_TIMEOUT w la.
Proof. intros Ht Hi. split; [exact Ht|]. rewrite Hi. exact I. Qed.

(** With no idle task armed, cancelling any task leaves none armed. *)
Lemma cancel_disarmed id w :
  tidy w -> idle_pending w = [] ->
  tidy (snd (cancel id w)) /\ idle_pending (snd (cancel id w)) = []
  /\ clock (loop (snd (cancel id w))) = clock (loop w).
Proof.
  intros Ht Hi. split; [apply tidy_cancel, Ht|].
  rewrite idle_pending_cancel, Hi. split; reflexivity.
Qed.

Lemma disconnect_disarms reason w la :
  idle_inv IDLE_TIMEOUT w la ->
  let w' := snd (disconnect reason w) in
  tidy w' /\ idle_pending w' = [] /\ clock (loop w') = clock (loop w).
Proof.
  intros Hinv.
  destruct (gentle_calm reset w la gentle_reset Hinv) as ([T1 Hinv1] & I1 & H1 & C1).
  unfold disconnect, bind, gets. cbn [fst snd].
  set (w1 := snd (reset w)) in *.
  (* the idle task goes *)
  set (w2 := snd (match _idle_timer (transport w1) with
                  | Some id => _
                  | None => ret tt
                  end w1)).
  assert (H2 : tidy w2 /\ idle_pending w2 = [] /\ clock (loop w2) = clock (loop w1)).
  { subst w2. destruct (_idle_timer (transport w1)) as [id|] eqn:E; cbn [fst snd].
    - change (idle_pending (snd (set_idle_timer None (snd (cancel id w1)))))
        with (idle_pending (snd (cancel id w1))).
      split; [exact (tidy_cancel id w1 T1)|]. split; [|reflexivity].
      rewrite idle_pending_cancel.
      destruct (idle_pending w1) as [|[i at_] [|q l]]; simpl in *; try contradiction.
      + reflexivity.
      + destruct Hinv1 as [Hid _]. injection Hid as ->. rewrite Nat.eqb_refl. reflexivity.
    - unfold ret; cbn [fst snd].
      split; [exact T1|]. split; [|reflexivity].
      destruct (idle_pending w1) as [|[i at_] [|q l]]; simpl in *; try contradiction.
      + reflexivity.
      + destruct Hinv1 as [Hid _]. discriminate. }
  destruct H2 as (T2 & I2 & C2).
  (* the receiver goes *)
  set (w3 := snd (match _receive_task (transport w2) with
                  | Some id => _
                  | None => ret tt
                  end w2)).
  assert (H3 : tidy w3 /\ idle_pending w3 = [] /\ clock (loop w3) = clock (loop w2)).
  { subst w3. destruct (_receive_task (transport w2)) as [id|]; cbn [fst snd].
    - exact (cancel_disarmed id w2 T2 I2).
    - unfold ret; cbn [fst snd]. auto. }
  destruct H3 as (T3 & I3 & C3).
  (* the socket goes *)
  destruct (_ws (transport w3)) as [c|]; cbn [fst snd].
  - split; [exact T3|]. split; [exact I3|]. simpl. congruence.
  - split; [exact T3|]. split; [exact I3|]. simpl. congruence.
Qed.

(** The same when [disconnect] runs inside a task: interrupted or not, it
    has cancelled the idle task by then. *)
Lemma disconnect_inside_disarms self reason w la :
  idle_inv IDLE_TIMEOUT w la ->
  let w' := snd (disconnect_inside self reason w) in
  tidy w' /\ idle_pending w' = [] /\ clock (loop w') = clock (loop w).
Proof.
  intros Hinv.
  destruct (gentle_calm reset w la gentle_reset Hinv) as ([T1 Hinv1] & I1 & H1 & C1).
  unfold disconnect_inside, bind, gets. cbn [fst snd].
  set (w1 := snd (reset w)) in *.
  set (w2 := snd (match _idle_timer (transport w1) with
                  | Some id => _
                  | None => ret tt
                  end w1)).
  assert (H2 : tidy w2 /\ idle_pending w2 = [] /\ clock (loop w2) = clock (loop w1)).
  { subst w2. destruct (_idle_timer (transport w1)) as [id|] eqn:E; cbn [fst snd].
    - change (idle_pending (snd (set_idle_timer None (snd (cancel id w1)))))
        with (idle_pending (snd (cancel id w1))).
      split; [exact (tidy_cancel id w1 T1)|]. split; [|reflexivity].
      rewrite idle_pending_cancel.
      destruct (idle_pending w1) as [|[i at_] [|q l]]; simpl in *; try contradiction.
      + reflexivity.
      + destruct Hinv1 as [Hid _]. injection Hid as ->. rewrite Nat.eqb_refl. reflexivity.
    - unfold ret; cbn [fst snd].
      split; [exact T1|]. split; [|reflexivity].
      destruct (idle_pending w1) as [|[i at_] [|q l]]; simpl in *; try contradiction.
      + reflexivity.
      + destruct Hinv1 as [Hid _]. discriminate. }
  destruct H2 as (T2 & I2 & C2).
  set (w3 := snd (match _receive_task (transport w2) with
                  | Some id => _
                  | None => ret tt
                  end w2)).
  assert (H3 : tidy w3 /\ idle_pending w3 = [] /\ clock (loop w3) = clock (loop w2)).
  { subst w3. destruct (_receive_task (transport w2)) as [id|]; cbn [fst snd].
    - exact (cancel_disarmed id w2 T2 I2).
    - unfold ret; cbn [fst snd]. auto. }
  destruct H3 as (T3 & I3 & C3).
  destruct (_ws (transport w3)) as [c|]; cbn [fst snd].
  - destruct (handle_is self (_idle_timer (transport w1))
              || handle_is self (_receive_task (transport w2)));
      (split; [exact T3|]; split; [exact I3|]; simpl; congruence).
  - split; [exact T3|]. split; [exact I3|]. simpl. congruence.
Qed.


Lemma arms_then_gentle {A} (k : M A) w la :
  gentle k -> idle_inv IDLE_TIMEOUT w la ->
  let w' := snd (k (snd (_reset_idle_timer IDLE_TIMEOUT w))) in
  tidy w'
  /\ (exists id, _idle_timer (transport w') = Some id
                 /\ idle_pending w' = [(id, clock (loop w) + IDLE_TIMEOUT)])
  /\ clock (loop w') = clock (loop w).
Proof.
  intros Hk Hinv.
  destruct (reset_idle_timer_arms w la Hinv) as (T1 & H1 & I1 & C1).
  destruct (Hk _ T1) as (T2 & I2 & H2 & C2).
  split; [exact T2|]. split; [|congruence].
  exists (next_id (loop w)). split; congruence.
Qed.

Lemma filter_false {A} (l : list A) : filter (fun _ => false) l = [].
Proof. induction l; simpl; auto. Qed.

Lemma filter_true {A} (l : list A) : filter (fun _ => true) l = l.
Proof. induction l; simpl; congruence. Qed.

(** What one event does to the idle timer. *)
Lemma step_idle e w w' la :
  idle_inv IDLE_TIMEOUT w la ->
  step IDLE_TIMEOUT incognito json_loads json_dumps e w = Some w' ->
  (rearms e w = true ->
     tidy w'
     /\ exists id, _idle_timer (transport w') = Some id
                   /\ idle_pending w' = [(id, clock (loop w) + IDLE_TIMEOUT)])
  /\ (rearms e w = false ->
     idle_inv IDLE_TIMEOUT w' la
     /\ exists f, idle_pending w' = filter f (idle_pending w)).
Proof.
  intros Hinv Hs.
  assert (Hgentle : forall A (c : M A) w', gentle c -> w' = snd (c w) ->
            idle_inv IDLE_TIMEOUT w' la
            /\ exists f, idle_pending w' = filter f (idle_pending w)).
  { intros A c w'' Hc ->. destruct (gentle_calm c w la Hc Hinv) as (Hi & I1 & _).
    split; [exact Hi|]. exists (fun _ => true). rewrite filter_true. exact I1. }
  assert (Hdisc : forall w1 reason w', idle_inv IDLE_TIMEOUT w1 la ->
            idle_pending w1 = idle_pending w ->
            w' = snd (disconnect reason w1) ->
            idle_inv IDLE_TIMEOUT w' la
            /\ exists f, idle_pending w' = filter f (idle_pending w)).
  { intros w1 reason w'' Hi1 _ ->.
    destruct (disconnect_disarms reason w1 la Hi1) as (T & I0 & _).
    split; [apply idle_inv_disarmed; assumption|].
    exists (fun _ => false). rewrite filter_false. exact I0. }
  assert (Hcancel : forall id,
            idle_inv IDLE_TIMEOUT (snd (cancel id w)) la
            /\ idle_pending (snd (cancel id w))
               = filter (fun p => negb (Nat.eqb (fst p) id)) (idle_pending w)).
  { intros id. split; [|apply idle_pending_cancel].
    apply (idle_inv_filter w _ la (fun p => negb (Nat.eqb (fst p) id)));
      [apply tidy_cancel, Hinv | apply idle_pending_cancel | reflexivity | exact Hinv]. }
  destruct e as [cb|cb|dial api_key|chunk|data|reason|data|rid|id|d];
    unfold rearms, sends, text_received, connected; simpl in Hs.
  - (* EvAddListener *)
    injection Hs as <-. split; [discriminate|]. intros _.
    apply (Hgentle _ (add_listener cb)); [auto with gentle | reflexivity].
  - (* EvAddMessageListener *)
    injection Hs as <-. split; [discriminate|]. intros _.
    apply (Hgentle _ (add_message_listener cb)); [auto with gentle | reflexivity].
  - (* EvEnsureConnected *)
    injection Hs as <-.
    unfold exec, ensure_connected, state, bind, gets. cbn [fst snd].
    destruct (state_eqb (_state (handshake (transport w))) AUTHENTICATED) eqn:Es.
    { split; [destruct dial; discriminate|]. intros _.
      apply (Hgentle _ (ret true)); [auto with gentle | reflexivity]. }
    unfold connect, bind, gets. cbn [fst snd].
    destruct (_ws (transport w)) as [c0|] eqn:Ew.
    { split; [destruct dial; discriminate|]. intros _.
      apply (Hgentle _ (ret true)); [auto with gentle | reflexivity]. }
    destruct (gentle_calm reset w la gentle_reset Hinv) as (Hinv1 & I1 & H1 & C1).
    set (w1 := snd (reset w)) in *.
    destruct dial as [c|err].
    2:{ split; [discriminate|]. intros _. apply (Hdisc w1 err); auto. }
    pose (prefix := bind (set_ws (Some c))
                      (fun _ => bind (create_task ListenTask)
                                  (fun r => set_receive_task (Some r)))).
    assert (Hp : gentle prefix) by (unfold prefix; gentle_tac).
    destruct (gentle_calm prefix w1 la Hp Hinv1) as (Hinv2 & I2 & H2 & C2).
    destruct (String.eqb api_key "") eqn:Ek; cbn [negb andb orb].
    { split; [discriminate|]. intros _.
      apply (Hdisc (snd (prefix w1)) "No API Key available for authentication.");
        [exact Hinv2 | congruence | reflexivity]. }
    split; [|discriminate]. intros _.
    pose (k := bind (call (WsSend c (Text (json_dumps (build_hello api_key "api_key" incognito)))))
                 (fun _ => bind (transition_to AUTHENTICATING) (fun _ => ret true))).
    assert (Hk : gentle k) by (unfold k; gentle_tac).
    destruct (arms_then_gentle k (snd (prefix w1)) la Hk Hinv2) as (T3 & (id & H3 & I3) & C3).
    split; [exact T3|]. exists id. split; [exact H3|].
    rewrite <- C1, <- C2. exact I3.
  - (* EvSendAudio *)
    injection Hs as <-.
    unfold exec, send_audio, can_send_audio, state, bind, gets, ret. cbn [fst snd].
    destruct (state_eqb (_state (handshake (transport w))) AUTHENTICATED) eqn:Es;
      destruct (_ws (transport w)) as [c|] eqn:Ew; cbn [negb andb orb].
    2,3,4: split; [discriminate|]; intros _;
      apply (Hgentle _ (ret tt)); [auto with gentle | reflexivity].
    split; [|discriminate]. intros _.
    destruct (arms_then_gentle (call (WsSend c (Binary chunk))) w la) as (T & E & _);
      auto with gentle.
  - (* EvSendJson *)
    injection Hs as <-.
    unfold exec, _send_json, bind, gets, ret. cbn [fst snd].
    destruct (_ws (transport w)) as [c|] eqn:Ew; cbn [negb andb orb].
    2: split; [discriminate|]; intros _;
      apply (Hgentle _ (ret tt)); [auto with gentle | reflexivity].
    split; [|discriminate]. intros _.
    destruct (arms_then_gentle (call (WsSend c (Text (json_dumps data)))) w la) as (T & E & _);
      auto with gentle.
  - (* EvDisconnect *)
    injection Hs as <-. split; [discriminate|]. intros _.
    apply (Hdisc w reason); auto.
  - (* EvRecv *)
    destruct (listening w); [|discriminate]. injection Hs as <-.
    destruct data as [s|b]; cbn [negb andb orb].
    2:{ split; [discriminate|]. intros _.
        apply (Hgentle _ (ret tt)); [auto with gentle | reflexivity]. }
    split; [|discriminate]. intros _.
    unfold exec, _handle_raw_message. rewrite exec_bind'.
    match goal with
    | |- context [snd (?k0 (snd (_reset_idle_timer _ w)))] =>
      destruct (arms_then_gentle k0 w la) as (T & E & _); auto
    end.
    cbv zeta. gentle_tac.
  - (* EvClosed *)
    split; [discriminate|]. intros _.
    destruct (Hcancel rid) as [Hinvc _].
    destruct (lookup_task rid (loop w)) as [[at_|at_|]|]; try discriminate.
    injection Hs as <-. unfold exec; rewrite exec_bind'; cbn [fst].
    destruct (disconnect_inside_disarms rid "Closed by server" _ la Hinvc) as (T & I0 & _).
    split; [apply idle_inv_disarmed; assumption|].
    exists (fun _ => false). rewrite filter_false. exact I0.
  - (* EvWake *)
    split; [discriminate|]. intros _.
    destruct (Hcancel id) as [Hinvc Hfc].
    destruct (lookup_task id (loop w)) as [[at_|at_|]|]; try discriminate;
      destruct (at_ <=? clock (loop w)); try discriminate; injection Hs as <-;
      unfold exec; rewrite exec_bind'; cbn [fst].
    + destruct (gentle_calm _timeout_coro_wakes _ la gentle_timeout_coro_wakes Hinvc)
        as (Hi & I1 & _).
      split; [exact Hi|]. eexists. rewrite I1. exact Hfc.
    + unfold _timeout_wakes, bind, gets. cbn [fst snd].
      destruct (_ws (transport (snd (cancel id w)))) as [c|].
      * destruct (disconnect_inside_disarms id "Idle Timeout" _ la Hinvc) as (T & I0 & _).
        split; [apply idle_inv_disarmed; assumption|].
        exists (fun _ => false). rewrite filter_false. exact I0.
      * split; [exact Hinvc|]. eexists. exact Hfc.
  - (* EvElapse *)
    destruct ((0 <=? d) && none_due_before (clock (loop w) + d) (loop w)); [|discriminate].
    injection Hs as <-. split; [discriminate|]. intros _.
    split; [exact Hinv|]. exists (fun _ => true). rewrite filter_true. reflexivity.
Qed.


(** The invariant holds along every run, with the time of the last event
    that arms the timer. *)
Lemma run_idle es w w' la :
  idle_inv IDLE_TIMEOUT w la ->
  run IDLE_TIMEOUT incognito json_loads json_dumps es w = Some w' ->
  idle_inv IDLE_TIMEOUT w'
    (last_time IDLE_TIMEOUT incognito json_loads json_dumps rearms es w la).
Proof.
  revert w la. induction es as [|e es IH]; simpl; intros w la Hinv Hr.
  - injection Hr as <-. exact Hinv.
  - destruct (step IDLE_TIMEOUT incognito json_loads json_dumps e w) as [w1|] eqn:Hs;
      [|discriminate].
    apply (IH w1); [|exact Hr].
    destruct (step_idle e w w1 la Hinv Hs) as [Ha Hq].
    destruct (rearms e w).
    + destruct (Ha eq_refl) as (T & id & Hh & Hi).
      apply (idle_inv_armed w1 id); assumption.
    + apply Hq. reflexivity.
Qed.

Lemma init_idle_inv : idle_inv IDLE_TIMEOUT init None.
Proof.
  split; [|exact I]. split.
  - intros id at_ [].
  - discriminate.
Qed.

Lemma lookup_idle id at_ w :
  lookup_task id (loop w) = Some (IdleTask at_) -> In (id, at_) (idle_pending w).
Proof.
  unfold lookup_task, idle_pending.
  induction (pending (loop w)) as [|[i t] l IH]; simpl; [discriminate|].
  destruct (Nat.eqb i id) eqn:E; simpl.
  - intros H. injection H as ->. apply Nat.eqb_eq in E. subst i. left. reflexivity.
  - intros H. apply in_or_app. right. apply IH, H.
Qed.


(** [reset] keeps the socket, the handles of the transport and the calls
    made on the socket. *)
Lemma reset_keeps_transport w :
  _ws (transport (snd (reset w))) = _ws (transport w)
  /\ _idle_timer (transport (snd (reset w))) = _idle_timer (transport w)
  /\ _receive_task (transport (snd (reset w))) = _receive_task (transport w)
  /\ socket_calls (calls (snd (reset w))) = socket_calls (calls w).
Proof.
  assert (Hn : forall ls s, socket_calls (map (fun l => Notify l s) ls) = []).
  { induction ls; simpl; auto. }
  assert (Hc : _ws (transport (snd (_cancel_timeout w))) = _ws (transport w)
               /\ _idle_timer (transport (snd (_cancel_timeout w))) = _idle_timer (transport w)
               /\ _receive_task (transport (snd (_cancel_timeout w)))
                  = _receive_task (transport w)
               /\ calls (snd (_cancel_timeout w)) = calls w).
  { unfold _cancel_timeout, bind, gets. cbn [fst snd].
    destruct (_timeout_task (handshake (transport w))); repeat split. }
  destruct Hc as (W0 & I0 & R0 & C0).
  unfold reset, bind. cbn [fst snd].
  destruct (transition_to_effect LOCKED (snd (_cancel_timeout w)))
    as (_ & C1 & W1 & _ & I1 & R1 & _).
  unfold exec in *. rewrite W1, I1, R1, C1, W0, I0, R0, C0.
  repeat split. unfold socket_calls at 1. rewrite filter_app.
  fold (socket_calls (calls w)).
  destruct (moves _ LOCKED); [|apply app_nil_r].
  match goal with
  | |- _ ++ filter on_socket ?L = _ => change (filter on_socket L) with (socket_calls L)
  end.
  rewrite Hn. apply app_nil_r.
Qed.

(** [disconnect] run inside the task that it cancels, with a socket
    present: the handles are cleared and [ws.close] is called, but the
    socket is kept. *)
Lemma disconnect_inside_interrupted self reason c w :
  _ws (transport w) = Some c ->
  handle_is self (_idle_timer (transport w))
  || handle_is self (_receive_task (transport w)) = true ->
  let w' := exec (disconnect_inside self reason) w in
  _ws (transport w') = Some c
  /\ _idle_timer (transport w') = None
  /\ _receive_task (transport w') = None
  /\ socket_calls (calls w') = socket_calls (calls w) ++ [WsClose c 1000 reason].
Proof.
  intros Hc Hself. cbv zeta.
  destruct (reset_keeps_transport w) as (W1 & I1 & R1 & C1).
  unfold exec, disconnect_inside, bind, gets. cbn [fst snd].
  set (w1 := snd (reset w)) in *.
  set (w2 := snd (match _idle_timer (transport w1) with
                  | Some id => _
                  | None => ret tt
                  end w1)).
  assert (H2 : _idle_timer (transport w2) = None
               /\ _ws (transport w2) = _ws (transport w1)
               /\ _receive_task (transport w2) = _receive_task (transport w1)
               /\ calls w2 = calls w1).
  { subst w2. destruct (_idle_timer (transport w1)) eqn:E; cbn; repeat split; assumption. }
  destruct H2 as (I2 & W2 & R2 & C2).
  set (w3 := snd (match _receive_task (transport w2) with
                  | Some id => _
                  | None => ret tt
                  end w2)).
  assert (H3 : _idle_timer (transport w3) = _idle_timer (transport w2)
               /\ _ws (transport w3) = _ws (transport w2)
               /\ _receive_task (transport w3) = None
               /\ calls w3 = calls w2).
  { subst w3. destruct (_receive_task (transport w2)) eqn:E; cbn; repeat split; assumption. }
  destruct H3 as (I3 & W3 & R3 & C3).
  assert (Hws : _ws (transport w3) = Some c) by congruence.
  rewrite Hws, I1, R2, R1, Hself. cbn [fst snd].
  unfold call, modify, ret. cbn [fst snd transport calls].
  rewrite Hws, I3, I2, R3. repeat split.
  unfold socket_calls in *. rewrite filter_app, C3, C2, C1. reflexivity.
Qed.


End Facts.


(** On the session that has only sent its hello, [reset] leaves the state
    machine in [AUTHENTICATING]: the edge to [LOCKED] is not among the valid
    ones. *)
Lemma reset_leaves_authenticating :
  _state (handshake (transport authenticating)) = AUTHENTICATING
  /\ _state (handshake (transport (exec reset authenticating))) = AUTHENTICATING
  /\ _state (handshake (transport (exec reset authenticating))) <> LOCKED.
Proof. repeat split. discriminate. Qed.

Lemma reset_locks_witness :
  _state (handshake (transport (exec reset authenticated))) = LOCKED.
Proof.
  apply (reset_locks_unless_authenticating authenticated).
  discriminate.
Defined.

(** On an authenticated session an error frame with code 401 is delivered,
    but the state stays [AUTHENTICATED]: the edge to [FAILED] is not among
    the valid ones. *)
Lemma error_401_leaves_authenticated :
  example_loads (json_text "error" "401")
  = Some (PyDict [("event", PyStr "error"); ("code", PyInt 401)])
  /\ _state (handshake (transport authenticated)) = AUTHENTICATED
  /\ _state (handshake (transport
       (exec (_handle_raw_message 300 example_loads (DataStr (json_text "error" "401")))
             authenticated))) = AUTHENTICATED
  /\ _state (handshake (transport
       (exec (_handle_raw_message 300 example_loads (DataStr (json_text "error" "401")))
             authenticated))) <> FAILED.
Proof. vm_compute. repeat split. discriminate. Qed.

Lemma error_frame_witness :
  _state (handshake (transport
    (exec (_handle_raw_message 300 example_loads (DataStr (json_text "error" "401")))
          authenticating))) = FAILED
  /\ _state (handshake (transport
    (exec (_handle_raw_message 300 example_loads (DataStr (json_text "error" "1008")))
          authenticated))) = BANNED.
Proof.
  split.
  - apply (error_frame_sets_state_and_reaches_listeners 300 example_loads
             (json_text "error" "401")
             [("event", PyStr "error"); ("code", PyInt 401)] authenticating).
    + vm_compute. reflexivity.
    + reflexivity.
    + left. reflexivity.
    + right. left. reflexivity.
  - apply (error_frame_sets_state_and_reaches_listeners 300 example_loads
             (json_text "error" "1008")
             [("event", PyStr "error"); ("code", PyInt 1008)] authenticated).
    + vm_compute. reflexivity.
    + reflexivity.
    + reflexivity.
Defined.


Lemma send_audio_witness :
  calls (exec (send_audio 300 [x01; x02]) authenticated)
  = calls authenticated ++ [WsSend 7%nat (Binary [x01; x02])]
  /\ exec (send_audio 300 [x01; x02]) authenticating = authenticating.
Proof.
  split.
  - apply (send_audio_only_when_authenticated 300 [x01; x02] authenticated); reflexivity.
  - apply (send_audio_only_when_authenticated 300 [x01; x02] authenticating).
    intros [H _]. discriminate.
Defined.

End TransportFacts.

(** ** The audio callback *)

Module AudioCaptureFacts.
Import AudioCapture.

(** *** Bytes *)

Lemma to_N_byte_of_Z z : Z.of_N (Byte.to_N (byte_of_Z z)) = z mod 256.
Proof.
  unfold byte_of_Z.
  assert (Hr : 0 <= z mod 256 < 256) by (apply Z.mod_pos_bound; lia).
  destruct (Byte.of_N (Z.to_N (z mod 256))) as [b|] eqn:E.
  - apply Byte.to_of_N in E. rewrite E. lia.
  - apply Byte.of_N_None_iff in E. lia.
Qed.

(** Two bytes hold any [int16]. *)
Lemma int16_roundtrip v :
  -32768 <= v <= 32767 ->
  exists lo hi, int16_tobytes v = [lo; hi] /\ int16_frombytes lo hi = v.
Proof.
  intros Hv. unfold int16_tobytes. eexists _, _. split; [reflexivity|].
  unfold int16_frombytes. rewrite !to_N_byte_of_Z.
  assert (Hu : 0 <= v mod 65536 < 65536) by (apply Z.mod_pos_bound; lia).
  set (u := v mod 65536) in *.
  assert (Hhi : (u / 256) mod 256 = u / 256).
  { apply Z.mod_small. split; [apply Z.div_pos; lia|].
    apply Z.div_lt_upper_bound; lia. }
  rewrite Hhi.
  assert (Hsum : u mod 256 + 256 * (u / 256) = u).
  { pose proof (Z.div_mod u 256). lia. }
  rewrite Hsum.
  destruct (Z.ltb_spec u 32768) as [H|H].
  - subst u. destruct (Z_le_gt_dec 0 v).
    + rewrite Z.mod_small in * by lia. reflexivity.
    + assert (Hm : v mod 65536 = v + 65536).
      { symmetry. apply (Z.mod_unique v 65536 (-1)); lia. }
      lia.
  - subst u. destruct (Z_le_gt_dec 0 v).
    + rewrite Z.mod_small in * by lia. lia.
    + assert (Hm : v mod 65536 = v + 65536).
      { symmetry. apply (Z.mod_unique v 65536 (-1)); lia. }
      lia.
Qed.

Lemma tobytes_length a : length (tobytes a) = (2 * length a)%nat.
Proof.
  unfold tobytes. induction a as [|v a IH]; simpl; [reflexivity|].
  rewrite IH. lia.
Qed.

(** *** Truncation *)

(** [truncate] is the quotient of the exact value, rounded toward zero. *)
Lemma truncate_quot f n k :
  as_fraction f = Some (n, k) -> truncate f = Some (Z.quot n (2 ^ k)).
Proof.
  unfold as_fraction, truncate.
  destruct f as [s| | |s m e]; try discriminate.
  - intros H. injection H as <- <-. reflexivity.
  - destruct (0 <=? e) eqn:E; intros H; injection H as <- <-.
    + rewrite Z.pow_0_r, Z.quot_1_r.
      destruct s; f_equal. change (Z.neg m) with (- Z.pos m). ring.
    + apply Z.leb_gt in E.
      assert (0 < 2 ^ (- e)) by (apply Z.pow_pos_nonneg; lia).
      destruct s; f_equal.
      * change (Z.neg m) with (- Z.pos m). rewrite Z.quot_opp_l by lia.
        rewrite Z.quot_div_nonneg by lia. reflexivity.
      * rewrite Z.quot_div_nonneg by lia. reflexivity.
Qed.

(** Where the products stay in range, [astype] stores the truncation toward
    zero of the exact value. *)
Lemma astype_int16_in_range cast f n k :
  as_fraction f = Some (n, k) ->
  -32768 <= Z.quot n (2 ^ k) <= 32767 ->
  astype_int16 cast f = Z.quot n (2 ^ k).
Proof.
  intros Hf Hr. unfold astype_int16. rewrite (truncate_quot f n k Hf).
  destruct (Z.leb_spec (-32768) (Z.quot n (2 ^ k))); [|lia].
  destruct (Z.leb_spec (Z.quot n (2 ^ k)) 32767); [|lia].
  reflexivity.
Qed.

Lemma stored_astype cast f : stored f (astype_int16 cast f).
Proof.
  intros n k Hf Hr. rewrite (astype_int16_in_range cast f n k Hf Hr).
  split; [reflexivity|]. split.
  - assert (0 < 2 ^ k).
    { apply Z.pow_pos_nonneg; [lia|].
      destruct f as [s| | |s m e]; simpl in Hf; try discriminate.
      - injection Hf as _ <-. lia.
      - destruct (0 <=? e) eqn:E; injection Hf as _ <-; lia. }
    rewrite <- Z.quot_abs by lia. rewrite (Z.abs_eq (2 ^ k)) by lia.
    rewrite Z.quot_div_nonneg by lia. lia.
  - apply int16_roundtrip, Hr.
Qed.

Lemma Forall2_map_r {A B} (P : A -> B -> Prop) (g : A -> B) l :
  (forall x, P x (g x)) -> Forall2 P l (map g l).
Proof. intros H. induction l; simpl; constructor; auto. Qed.

Lemma converted_astype cast f : converted cast f (astype_int16 cast f).
Proof.
  split; [apply stored_astype|]. split.
  - intros n k Hf Hr. unfold astype_int16. rewrite (truncate_quot f n k Hf).
    destruct ((-32768 <=? Z.quot n (2 ^ k)) && (Z.quot n (2 ^ k) <=? 32767)) eqn:E;
      [|reflexivity].
    apply andb_true_iff in E as [E1 E2]. apply Z.leb_le in E1, E2. exfalso. apply Hr. lia.
  - intros Hf. unfold astype_int16.
    destruct f as [s| | |s m e]; try reflexivity; discriminate.
Qed.

Section Callback.
Variable np_linspace : spec_float -> spec_float -> Z -> list spec_float.
Variable np_interp :
  list spec_float -> list spec_float -> list spec_float -> option (list spec_float).
Variable cast_overflow : spec_float -> Z.

(** C3, amended: with recording enabled, at a device rate of 16 kHz the
    chunk holds one sample per input frame.  At any other rate the frames
    go through [np.interp] onto [int(frames / device_rate * 16000)] points,
    the product being truncated; with no frames at all [np.interp] raises
    and no chunk is produced, as when the rate is 0 or the count negative.
    Every sample whose scaled value, the product with 32767 in the
    precision of the array, truncates into the [int16] range is stored as
    that truncation toward zero, in two bytes, least significant first;
    every other sample is stored as what the conversion of the platform
    yields for the scaled value: the code does not clip. *)
Theorem pcm_chunk_is_truncated (a : AudioService) (indata : list spec_float) :
  (forall x xp fp, xp <> [] -> length fp = length xp ->
     exists audio, np_interp x xp fp = Some audio /\ length audio = length x) ->
  (forall x fp, np_interp x [] fp = None) ->
  (forall start stop num, 0 <= num -> length (np_linspace start stop num) = Z.to_nat num) ->
  is_recording a = true ->
  (device_rate a = 16000 ->
   exists pcm,
     audio_callback np_linspace np_interp cast_overflow a indata = Enqueued (tobytes pcm)
     /\ length (tobytes pcm) = (2 * length indata)%nat
     /\ Forall2 (fun s v => converted cast_overflow (mul32 s (float32_of_int 32767)) v)
          indata pcm)
  /\ (device_rate a = 0 ->
      audio_callback np_linspace np_interp cast_overflow a indata = Raised)
  /\ (device_rate a <> 16000 -> device_rate a <> 0 ->
      let duration := div64 (float64_of_int (Z.of_nat (length indata)))
                            (float64_of_int (device_rate a)) in
      forall new_len,
        truncate (mul64 duration (float64_of_int 16000)) = Some new_len ->
        (new_len < 0 \/ indata = [] ->
         audio_callback np_linspace np_interp cast_overflow a indata = Raised)
        /\ (0 <= new_len -> indata <> [] ->
            exists audio pcm,
              np_interp (np_linspace (float64_of_int 0) duration new_len)
                        (np_linspace (float64_of_int 0) duration (Z.of_nat (length indata)))
                        indata = Some audio
              /\ audio_callback np_linspace np_interp cast_overflow a indata
                 = Enqueued (tobytes pcm)
              /\ length (tobytes pcm) = (2 * Z.to_nat new_len)%nat
              /\ Forall2 (fun s v => converted cast_overflow (mul64 s (float64_of_int 32767)) v)
                   audio pcm)).
Proof.
  intros Hint Hnone Hlin Hrec. unfold audio_callback. rewrite Hrec. split; [|split].
  - intros Hrate. rewrite Hrate. cbn [Z.eqb negb Pos.eqb].
    eexists. split; [reflexivity|]. split.
    + rewrite tobytes_length, length_map. reflexivity.
    + apply Forall2_map_r. intros s. apply converted_astype.
  - intros Hrate. rewrite Hrate. reflexivity.
  - intros Hrate Hzero new_len Hlen.
    destruct (Z.eqb_spec (device_rate a) 16000) as [|_]; [contradiction|].
    destruct (Z.eqb_spec (device_rate a) 0) as [|_]; [contradiction|].
    cbn [negb]. rewrite Hlen. split.
    + intros [Hneg | Hempty].
      * destruct (Z.ltb_spec new_len 0) as [_|]; [reflexivity | lia].
      * destruct (new_len <? 0); [reflexivity|].
        subst indata. cbn [length Z.of_nat].
        assert (Hxp : np_linspace (float64_of_int 0)
                        (div64 (float64_of_int 0) (float64_of_int (device_rate a))) 0 = []).
        { apply length_zero_iff_nil. rewrite Hlin by lia. reflexivity. }
        rewrite Hxp, Hnone. reflexivity.
    + intros Hpos Hne.
      destruct (Z.ltb_spec new_len 0) as [|_]; [lia|].
      destruct (Hint (np_linspace (float64_of_int 0)
                        (div64 (float64_of_int (Z.of_nat (length indata)))
                               (float64_of_int (device_rate a))) new_len)
                     (np_linspace (float64_of_int 0)
                        (div64 (float64_of_int (Z.of_nat (length indata)))
                               (float64_of_int (device_rate a)))
                        (Z.of_nat (length indata)))
                     indata) as (audio & Ha & Hl).
      * intros Hxp. apply (f_equal (@length _)) in Hxp.
        rewrite Hlin in Hxp by lia. cbn [length] in Hxp.
        destruct indata; [contradiction | cbn [length] in Hxp; lia].
      * rewrite Hlin by lia. lia.
      * rewrite Ha. exists audio. eexists. split; [reflexivity|].
        split; [reflexivity|]. split.
        -- rewrite tobytes_length, length_map, Hl, Hlin by lia. reflexivity.
        -- apply Forall2_map_r. intros s. apply converted_astype.
Qed.

End Callback.

Lemma linspace_length start stop num :
  0 <= num -> length (linspace start stop num) = Z.to_nat num.
Proof. intros _. unfold linspace. rewrite length_map, length_seq. reflexivity. Qed.

Lemma interp_some x xp fp :
  xp <> [] -> length fp = length xp ->
  exists audio, interp x xp fp = Some audio /\ length audio = length x.
Proof.
  intros Hxp Hl. unfold interp. destruct xp as [|x0 xp']; [contradiction|].
  rewrite Hl, Nat.eqb_refl. eexists. split; [reflexivity | apply length_map].
Qed.

Lemma interp_none x fp : interp x [] fp = None.
Proof. reflexivity. Qed.

Lemma pcm_chunk_witness :
  (exists pcm,
     audio_callback linspace interp (fun _ => 0)
       {| device_rate := 16000; is_recording := true |} [quarter] = Enqueued (tobytes pcm)
     /\ length (tobytes pcm) = 2%nat
     /\ Forall2 (fun s v => converted (fun _ => 0) (mul32 s (float32_of_int 32767)) v)
          [quarter] pcm)
  /\ (exists audio pcm,
        interp (linspace (float64_of_int 0) (div64 (float64_of_int 6) (float64_of_int 48000)) 2)
               (linspace (float64_of_int 0) (div64 (float64_of_int 6) (float64_of_int 48000)) 6)
               (repeat quarter 6) = Some audio
        /\ audio_callback linspace interp (fun _ => 0)
             {| device_rate := 48000; is_recording := true |} (repeat quarter 6)
           = Enqueued (tobytes pcm)
        /\ length (tobytes pcm) = 4%nat
        /\ Forall2 (fun s v => converted (fun _ => 0) (mul64 s (float64_of_int 32767)) v)
             audio pcm)
  /\ audio_callback linspace interp (fun _ => 0)
       {| device_rate := 48000; is_recording := true |} [] = Raised.
Proof.
  split; [|split].
  - apply (pcm_chunk_is_truncated linspace interp (fun _ => 0)
             {| device_rate := 16000; is_recording := true |} [quarter]
             interp_some interp_none linspace_length eq_refl).
    reflexivity.
  - destruct (pcm_chunk_is_truncated linspace interp (fun _ => 0)
                {| device_rate := 48000; is_recording := true |} (repeat quarter 6)
                interp_some interp_none linspace_length eq_refl) as (_ & _ & H).
    assert (H1 : 48000 <> 16000) by discriminate.
    assert (H2 : 48000 <> 0) by discriminate.
    destruct (H H1 H2 2) as [_ Hok]; [vm_compute; reflexivity|].
    apply Hok; [lia | discriminate].
  - destruct (pcm_chunk_is_truncated linspace interp (fun _ => 0)
                {| device_rate := 48000; is_recording := true |} []
                interp_some interp_none linspace_length eq_refl) as (_ & _ & H).
    assert (H1 : 48000 <> 16000) by discriminate.
    assert (H2 : 48000 <> 0) by discriminate.
    destruct (H H1 H2 0) as [Hraise _]; [vm_compute; reflexivity|].
    apply Hraise. right. reflexivity.
Defined.

(** At 16 kHz the sample 0.25 is stored as 8191, the bytes ff 1f, where
    rounding 8191.75 gives 8192; and 1024 frames at 44.1 kHz yield 371
    samples, where rounding 371.52 gives 372.  The sample 2.0, scaled to
    65534, is stored as the conversion of the platform gives it, whatever
    that is; with a conversion that wraps it is stored as -2, the bytes
    fe ff, where saturation gives 32767. *)
Lemma callback_truncates_where_spec_rounds :
  audio_callback linspace interp (fun _ => 0)
    {| device_rate := 16000; is_recording := true |} [quarter] = Enqueued [xff; x1f]
  /\ int16_frombytes xff x1f = 8191
  /\ spec_int16 quarter = Some 8192
  /\ (exists chunk,
        audio_callback linspace interp (fun _ => 0)
          {| device_rate := 44100; is_recording := true |} (repeat quarter 1024)
        = Enqueued chunk
        /\ length chunk = (2 * 371)%nat)
  /\ spec_new_len 1024 44100 = 372
  /\ (forall cast,
        audio_callback linspace interp cast
          {| device_rate := 16000; is_recording := true |} [two]
        = Enqueued (int16_tobytes (cast (mul32 two (float32_of_int 32767)))))
  /\ audio_callback linspace interp cast_low16
       {| device_rate := 16000; is_recording := true |} [two] = Enqueued [xfe; xff]
  /\ int16_frombytes xfe xff = -2
  /\ spec_int16 two = Some 32767.
Proof.
  split; [vm_compute; reflexivity|].
  split; [reflexivity|].
  split; [vm_compute; reflexivity|].
  split; [eexists; split; [vm_compute; reflexivity | reflexivity]|].
  split; [reflexivity|].
  split; [intros cast; reflexivity|].
  split; [vm_compute; reflexivity|].
  split; [reflexivity | vm_compute; reflexivity].
Qed.

End AudioCaptureFacts.

(** ** More on the sanitizer *)

Module SanitizerLaws.
Import Sanitizer SanitizerFacts.

Lemma subseq_refl {A} (l : list A) : subseq l l.
Proof. induction l; [apply subseq_nil | apply subseq_keep; assumption]. Qed.

Lemma subseq_trans {A} (l1 l2 l3 : list A) : subseq l1 l2 -> subseq l2 l3 -> subseq l1 l3.
Proof.
  intros H12 H23. revert l1 H12.
  induction H23 as [|x l2 l3 _ IH|x l2 l3 _ IH]; intros l1 H12.
  - exact H12.
  - apply subseq_skip. apply IH, H12.
  - inversion H12; subst.
    + apply subseq_skip. apply IH. assumption.
    + apply subseq_keep. apply IH. assumption.
Qed.

Lemma subseq_suffix {A} (p l : list A) : subseq l (p ++ l).
Proof. induction p; simpl; [apply subseq_refl | apply subseq_skip; assumption]. Qed.

Lemma subseq_prefix {A} (l p : list A) : subseq l (l ++ p).
Proof.
  induction l as [|x l IH]; simpl.
  - induction p; [apply subseq_nil | apply subseq_skip; assumption].
  - apply subseq_keep. exact IH.
Qed.

Lemma subseq_filter {A} (f : A -> bool) l : subseq (filter f l) l.
Proof.
  induction l as [|x l IH]; simpl; [apply subseq_nil|].
  destruct (f x); [apply subseq_keep | apply subseq_skip]; exact IH.
Qed.

Lemma subseq_length {A} (l1 l2 : list A) : subseq l1 l2 -> (length l1 <= length l2)%nat.
Proof. induction 1; simpl; lia. Qed.

(** What follows a match is an end of the text matched. *)
Lemma csi_tail_suffix s r : csi_tail s = Some r -> exists p, s = p ++ r.
Proof.
  revert r. induction s as [|c t IH]; simpl; intros r H; [discriminate|].
  destruct (csi_param c).
  - destruct (IH r H) as [p ->]. exists (c :: p). reflexivity.
  - destruct (csi_final c); [|discriminate]. injection H as <-. exists [c]. reflexivity.
Qed.

Lemma osc_tail_suffix s r : osc_tail s = Some r -> exists p, s = p ++ r.
Proof.
  revert r. induction s as [|c t IH]; simpl; intros r H; [discriminate|].
  destruct (c =? BEL).
  - injection H as <-. exists [c]. reflexivity.
  - destruct (c =? LF); [discriminate|].
    destruct (IH r H) as [p ->]. exists (c :: p). reflexivity.
Qed.

Lemma ANSI_match_suffix s r :
  ANSI_match s = Some r -> exists p, s = p ++ r /\ (length r < length s)%nat.
Proof.
  intros H.
  assert (Hex : exists p, s = p ++ r /\ p <> []).
  { unfold ANSI_match in H.
    repeat match type of H with
           | match ?x with _ => _ end = _ => destruct x; try discriminate
           end.
    - apply csi_tail_suffix in H as [p ->]. exists (27 :: 91 :: p). split; [reflexivity | discriminate].
    - apply osc_tail_suffix in H as [p ->]. exists (27 :: 93 :: 48 :: 59 :: p).
      split; [reflexivity | discriminate]. }
  destruct Hex as (p & -> & Hp). exists p. split; [reflexivity|].
  rewrite length_app. destruct p; [contradiction | simpl; lia].
Qed.

Lemma ANSI_sub_subseq s : subseq (ANSI_sub s) s.
Proof.
  remember (length s) as n eqn:Hn.
  revert s Hn. induction n as [n IH] using lt_wf_ind. intros s Hn.
  destruct s as [|c t].
  - rewrite ANSI_sub_equation_1. constructor.
  - rewrite ANSI_sub_cons.
    destruct (ANSI_match (c :: t)) as [r|] eqn:E.
    + destruct (ANSI_match_suffix _ _ E) as (p & Hp & Hlt).
      apply (subseq_trans _ r).
      * apply (IH (length r)); [lia | reflexivity].
      * rewrite Hp. apply subseq_suffix.
    + apply subseq_keep. apply (IH (length t)); [simpl in Hn; lia | reflexivity].
Qed.

Lemma strip_subseq s : subseq (strip s) s.
Proof.
  unfold strip.
  destruct (lstrip_suffix s) as (p & Hp & _).
  destruct (rstrip_prefix (lstrip s)) as (q & Hq & _).
  apply (subseq_trans _ (lstrip s)).
  - rewrite Hq at 2. apply subseq_prefix.
  - rewrite Hp at 2. apply subseq_suffix.
Qed.

Lemma sanitize_subseq x : subseq (sanitize x) x.
Proof.
  destruct x as [|c t]; [constructor|].
  unfold sanitize.
  apply (subseq_trans _ (WHITELIST_sub (ANSI_sub (c :: t)))); [apply strip_subseq|].
  apply (subseq_trans _ (ANSI_sub (c :: t))); [apply subseq_filter | apply ANSI_sub_subseq].
Qed.

(** X1: the sanitizer only deletes: its result is the input with some code
    points left out, in the same order, so it is never longer than the
    input. *)
Theorem sanitize_only_deletes (x : text) :
  subseq (sanitize x) x /\ (length (sanitize x) <= length x)%nat.
Proof.
  split; [apply sanitize_subseq | apply subseq_length, sanitize_subseq].
Qed.

Lemma strip_nil_all_space s : strip s = [] -> forallb py_isspace s = true.
Proof.
  intros H. destruct (lstrip_suffix s) as (p & Hp & Hsp).
  destruct (rstrip_prefix (lstrip s)) as (q & Hq & Hsq).
  unfold strip in H. rewrite H in Hq. cbn [app] in Hq.
  rewrite Hp, Hq, forallb_app, Hsp, Hsq. reflexivity.
Qed.

Lemma forallb_filter {A} (f g : A -> bool) l :
  forallb f l = true -> forallb f (filter g l) = true.
Proof.
  induction l as [|x l IH]; cbn; [reflexivity|].
  intros H. apply andb_true_iff in H as [Hx Hl].
  destruct (g x); cbn; rewrite ?Hx; auto.
Qed.

(** A text that [strip] empties is emptied by the sanitizer. *)
Lemma blank_sanitizes_to_nothing s : strip s = [] -> sanitize s = [].
Proof.
  intros H. apply strip_nil_all_space in H.
  destruct s as [|c t]; [reflexivity|]. unfold sanitize.
  rewrite ANSI_sub_without_esc.
  - unfold strip, WHITELIST_sub.
    rewrite (lstrip_all_space _ (forallb_filter _ whitelisted _ H)). reflexivity.
  - intros Hin. rewrite forallb_forall in H. apply H in Hin. discriminate.
Qed.

(** X2: the texts the sanitizer returns unchanged are exactly those made of
    whitelisted code points that neither start nor end with white space. *)
Theorem sanitize_fixed_points (x : text) :
  sanitize x = x <->
  forallb whitelisted x = true
  /\ starts_clean x = true
  /\ starts_clean (rev x) = true.
Proof.
  split.
  - intros H. rewrite <- H. split; [|split].
    + apply forallb_forall. apply Forall_forall. apply sanitize_whitelisted.
    + apply sanitize_starts_clean.
    + apply sanitize_ends_clean.
  - intros (Hw & Hs & He).
    destruct x as [|c t]; [reflexivity|].
    assert (HF : Forall (fun c => whitelisted c = true) (c :: t)).
    { apply Forall_forall. apply forallb_forall. exact Hw. }
    unfold sanitize. rewrite ANSI_sub_without_esc.
    + rewrite (WHITELIST_sub_fixed _ HF). apply strip_fixed; assumption.
    + intros Hin. rewrite Forall_forall in HF. apply HF in Hin.
      rewrite ESC_not_whitelisted in Hin. discriminate.
Qed.

(** *** Escape sequences *)

Lemma csi_tail_sequence ps f rest :
  forallb csi_param ps = true -> csi_final f = true ->
  csi_tail (ps ++ f :: rest) = Some rest.
Proof.
  intros Hps Hf. induction ps as [|p ps IH]; simpl in *.
  - rewrite Hf.
    assert (csi_param f = false) as ->; [|reflexivity].
    unfold csi_param, csi_final in *. lia.
  - apply andb_true_iff in Hps as [-> Hps]. apply IH, Hps.
Qed.

Lemma osc_tail_sequence body rest :
  forallb (fun c => negb (c =? BEL) && negb (c =? LF)) body = true ->
  osc_tail (body ++ BEL :: rest) = Some rest.
Proof.
  intros Hb. induction body as [|c body IH]; simpl in *.
  - reflexivity.
  - apply andb_true_iff in Hb as [Hc Hb]. apply andb_true_iff in Hc as [H1 H2].
    apply negb_true_iff in H1, H2. rewrite H1, H2. apply IH, Hb.
Qed.

Lemma ANSI_sub_after_plain pre s :
  ~ In ESC pre -> ANSI_sub (pre ++ s) = pre ++ ANSI_sub s.
Proof.
  induction pre as [|c pre IH]; intros Hp; [reflexivity|].
  simpl. rewrite ANSI_sub_cons, ANSI_match_needs_esc.
  - rewrite IH; [reflexivity|]. intros H. apply Hp. right. exact H.
  - intros ->. apply Hp. left. reflexivity.
Qed.

(** X3: after text that holds no ESC, a CSI sequence (ESC, '[', any run of
    digits and ';', one of m G K H) and an OSC title sequence (ESC, "]0;",
    a body without BEL or line feed, BEL) are removed whole, parameters and
    body included, and the substitution goes on behind them. *)
Theorem escape_sequences_removed_whole (pre ps body rest : text) (f : Z) :
  ~ In ESC pre ->
  (forallb csi_param ps = true -> csi_final f = true ->
   ANSI_sub (pre ++ ESC :: 0x5b :: ps ++ f :: rest) = pre ++ ANSI_sub rest)
  /\ (forallb (fun c => negb (c =? BEL) && negb (c =? LF)) body = true ->
      ANSI_sub (pre ++ ESC :: 0x5d :: 0x30 :: 0x3b :: body ++ BEL :: rest)
      = pre ++ ANSI_sub rest).
Proof.
  intros Hpre. split.
  - intros Hps Hf. rewrite ANSI_sub_after_plain by exact Hpre.
    rewrite ANSI_sub_cons. unfold ANSI_match, ESC.
    rewrite (csi_tail_sequence ps f rest Hps Hf). reflexivity.
  - intros Hb. rewrite ANSI_sub_after_plain by exact Hpre.
    rewrite ANSI_sub_cons. unfold ANSI_match, ESC.
    rewrite (osc_tail_sequence body rest Hb). reflexivity.
Qed.

Lemma escape_sequences_removed_witness :
  ANSI_sub ([0x53] ++ ESC :: 0x5b :: [0x33; 0x31] ++ 0x6d :: [0x45]) = [0x53] ++ ANSI_sub [0x45]
  /\ ANSI_sub ([0x53] ++ ESC :: 0x5d :: 0x30 :: 0x3b :: [0x54] ++ BEL :: [0x45])
     = [0x53] ++ ANSI_sub [0x45].
Proof.
  split.
  - apply (escape_sequences_removed_whole [0x53] [0x33; 0x31] [0x54] [0x45] 0x6d);
      try reflexivity.
    intros [H|[]]. discriminate.
  - apply (escape_sequences_removed_whole [0x53] [0x33; 0x31] [0x54] [0x45] 0x6d);
      try reflexivity.
    intros [H|[]]. discriminate.
Defined.

End SanitizerLaws.

(** ** More on the audio buffer *)

Module AudioBufferLaws.
Import AudioBuffer AudioBufferFacts.

Lemma add_all_app cs ds m : add_all (cs ++ ds) m = add_all ds (add_all cs m).
Proof. unfold add_all. apply fold_left_app. Qed.

Lemma tl_skipn {A} k (l : list A) : tl (skipn k l) = skipn (S k) l.
Proof.
  revert l. induction k as [|k IH]; intros [|x l]; try reflexivity.
  change (skipn (S k) (x :: l)) with (skipn k l).
  change (skipn (S (S k)) (x :: l)) with (skipn (S k) l). apply IH.
Qed.

Lemma flush_recorder m :
  snd (flush _ recorder m [])
  = map (fun chunk => (chunk, {| _buffer := []; _is_buffering := false |})) (_buffer m).
Proof.
  assert (Hrec : forall l log,
    fold_left (fun lg chunk => recorder chunk {| _buffer := []; _is_buffering := false |} lg) l log
    = log ++ map (fun chunk => (chunk, {| _buffer := []; _is_buffering := false |})) l).
  { induction l as [|c l IH]; intros log; simpl.
    - rewrite app_nil_r. reflexivity.
    - rewrite IH. unfold recorder. rewrite <- app_assoc. reflexivity. }
  unfold flush. destruct (_buffer m) eqn:E; [reflexivity|].
  cbn [snd]. rewrite Hrec. reflexivity.
Qed.

(** One [add] keeps the latest [MAX_CHUNKS] chunks of the history. *)
Lemma add_keeps_latest history c m :
  _is_buffering m = true ->
  _buffer m = lastn (Z.to_nat MAX_CHUNKS) history ->
  _is_buffering (add c m) = true
  /\ _buffer (add c m) = lastn (Z.to_nat MAX_CHUNKS) (history ++ [c]).
Proof.
  intros Hb Hm. unfold add. rewrite Hb. cbn [_buffer _is_buffering].
  split; [reflexivity|].
  unfold count, pop0. rewrite Hm. unfold lastn, MAX_CHUNKS.
  rewrite length_skipn, length_app. cbn [length].
  set (N := Z.to_nat 20000). assert (HN : Z.of_nat N = 20000) by (subst N; lia).
  destruct (Z.leb_spec 20000 (Z.of_nat (length history - (length history - N)))) as [H|H].
  - (* full: the oldest chunk goes *)
    assert (Hlen : (N <= length history)%nat) by lia.
    replace (length history + 1 - N)%nat with (S (length history - N)) by lia.
    rewrite skipn_app.
    replace (S (length history - N) - length history)%nat with 0%nat by lia.
    cbn [skipn]. f_equal. apply tl_skipn.
  - (* room left: nothing goes *)
    assert (Hlen : (length history < N)%nat) by lia.
    replace (length history - N)%nat with 0%nat by lia.
    replace (length history + 1 - N)%nat with 0%nat by lia.
    reflexivity.
Qed.

Lemma add_all_keeps_latest cs history m :
  _is_buffering m = true ->
  _buffer m = lastn (Z.to_nat MAX_CHUNKS) history ->
  _is_buffering (add_all cs m) = true
  /\ _buffer (add_all cs m) = lastn (Z.to_nat MAX_CHUNKS) (history ++ cs).
Proof.
  revert history m. induction cs as [|c cs IH]; intros history m Hb Hm.
  - rewrite app_nil_r. auto.
  - destruct (add_keeps_latest history c m Hb Hm) as [Hb' Hm'].
    change (add_all (c :: cs) m) with (add_all cs (add c m)).
    replace (history ++ c :: cs) with ((history ++ [c]) ++ cs)
      by (rewrite <- app_assoc; reflexivity).
    apply IH; assumption.
Qed.

(** X4: chunks added to a cleared buffer are kept in order; past the cap
    the buffer holds the latest 20000 of them; and a flush then sends just
    those, oldest first.  Up to 20000 chunks nothing is lost. *)
Theorem buffer_keeps_latest_chunks (cs : list bytes) (m0 : AudioBufferManager) :
  let m := add_all cs (clear m0) in
  _buffer m = lastn (Z.to_nat 20000) cs
  /\ map fst (snd (flush _ recorder m [])) = lastn (Z.to_nat 20000) cs
  /\ (Z.of_nat (length cs) <= 20000 -> _buffer m = cs).
Proof.
  destruct (add_all_keeps_latest cs [] (clear m0) eq_refl eq_refl) as [_ H].
  cbn [app] in H. unfold MAX_CHUNKS in H. cbv zeta. split; [exact H|]. split.
  - rewrite flush_recorder, map_map. cbn [fst]. rewrite map_id. exact H.
  - intros Hlen. rewrite H. unfold lastn.
    replace (length cs - Z.to_nat 20000)%nat with 0%nat by lia. reflexivity.
Qed.

Lemma buffer_keeps_latest_witness :
  _buffer (add_all [[x01]; [x02]] (clear full)) = [[x01]; [x02]].
Proof.
  apply (buffer_keeps_latest_chunks [[x01]; [x02]] full). cbn. lia.
Defined.

End AudioBufferLaws.

(** ** More on the handshake state machine *)

Module HandshakeLaws.
Import Transport TransportFacts.
Local Open Scope string_scope.
Local Open Scope list_scope.
Local Open Scope Z_scope.

(** What [transition_to] does to the timeout task. *)
Lemma transition_to_timer new_state w :
  let s := _state (handshake (transport w)) in
  let w' := exec (transition_to new_state) w in
  moves s new_state = true ->
  (new_state = AUTHENTICATING ->
     _timeout_task (handshake (transport w')) = Some (next_id (loop w))
     /\ In (next_id (loop w),
            TimeoutTask (clock (loop w) + _timeout_duration (handshake (transport w))))
           (pending (loop w')))
  /\ (new_state <> AUTHENTICATING ->
     _timeout_task (handshake (transport w')) = None
     /\ forall id, _timeout_task (handshake (transport w)) = Some id ->
                   lookup_task id (loop w') = None).
Proof.
  unfold transition_to, _start_timeout, _cancel_timeout, moves, lookup_task. run_monad.
  intros Hm. apply andb_true_iff in Hm as [H1 H2]. apply negb_true_iff in H1.
  rewrite H1, H2. run_monad.
  destruct (state_eqb new_state AUTHENTICATING) eqn:E; run_monad;
    destruct (_timeout_task (handshake (transport w))) as [t|] eqn:Et; run_calls;
    (split; [intros Hn | intros Hn]); try (subst new_state; discriminate);
    try (exfalso; apply Hn; apply state_eqb_eq; exact E).
  - split; [reflexivity|]. apply in_or_app. right. left. reflexivity.
  - split; [reflexivity|]. apply in_or_app. right. left. reflexivity.
  - split; [reflexivity|]. intros id Hid. injection Hid as <-.
    rewrite lookup_cancelled. reflexivity.
  - split; [reflexivity|]. intros id Hid. discriminate.
Qed.

Lemma transition_rejected new_state w :
  moves (_state (handshake (transport w))) new_state = false ->
  exec (transition_to new_state) w = w.
Proof.
  unfold transition_to, moves. run_monad. intros Hm.
  destruct (state_eqb (_state (handshake (transport w))) new_state); [reflexivity|].
  simpl in Hm. rewrite Hm. reflexivity.
Qed.



(** All that [reset] does, the event loop apart. *)
Lemma reset_effect w :
  let s := _state (handshake (transport w)) in
  let w' := exec reset w in
  _state (handshake (transport w')) = (if moves s LOCKED then LOCKED else s)
  /\ calls w' = calls w ++ (if moves s LOCKED
                            then map (fun l => Notify l LOCKED) (_listeners (handshake (transport w)))
                            else [])
  /\ _ws (transport w') = _ws (transport w)
  /\ _message_listeners (transport w') = _message_listeners (transport w)
  /\ _idle_timer (transport w') = _idle_timer (transport w)
  /\ _receive_task (transport w') = _receive_task (transport w)
  /\ _listeners (handshake (transport w')) = _listeners (handshake (transport w))
  /\ _timeout_task (handshake (transport w')) = None
  /\ clock (loop w') = clock (loop w).
Proof.
  unfold reset, transition_to, _cancel_timeout, moves. run_monad.
  destruct (_timeout_task (handshake (transport w))) as [t|] eqn:Et; run_monad;
    destruct (_state (handshake (transport w))) eqn:Es; run_calls;
    rewrite ?Et, ?app_nil_r; repeat split; assumption.
Qed.

(** X6: [BANNED] is entered from every state and left only for [LOCKED]:
    any other target leaves a banned machine untouched, while [reset]
    unlocks it. *)
Theorem banned_entered_from_anywhere_left_for_locked (new_state : HandshakeState) (w : World) :
  _state (handshake (transport (exec (transition_to BANNED) w))) = BANNED
  /\ (_state (handshake (transport w)) = BANNED ->
      (new_state <> LOCKED -> exec (transition_to new_state) w = w)
      /\ _state (handshake (transport (exec (transition_to LOCKED) w))) = LOCKED
      /\ _state (handshake (transport (exec reset w))) = LOCKED).
Proof.
  split.
  - destruct (transition_to_effect BANNED w) as (Hs & _). rewrite Hs.
    destruct (_state (handshake (transport w))); reflexivity.
  - intros Hb. split; [|split].
    + intros Hn. apply transition_rejected. rewrite Hb.
      destruct new_state; try reflexivity. contradiction.
    + destruct (transition_to_effect LOCKED w) as (Hs & _). rewrite Hs, Hb. reflexivity.
    + destruct (reset_effect w) as (Hs & _). rewrite Hs, Hb. reflexivity.
Qed.

Lemma banned_witness :
  let banned := exec (transition_to BANNED) authenticated in
  _state (handshake (transport banned)) = BANNED
  /\ exec (transition_to AUTHENTICATING) banned = banned
  /\ _state (handshake (transport (exec reset banned))) = LOCKED.
Proof.
  intros banned.
  assert (Hb : _state (handshake (transport banned)) = BANNED) by reflexivity.
  destruct (banned_entered_from_anywhere_left_for_locked AUTHENTICATING banned)
    as [_ H].
  destruct (H Hb) as (H1 & _ & H3).
  split; [exact Hb|]. split; [apply H1; discriminate | exact H3].
Defined.

(** X7: when the sleep of the handshake timeout ends in [AUTHENTICATING],
    the state becomes [FAILED], every listener is told so once, and no
    timeout stays armed; the socket is not touched.  In any other state
    nothing happens. *)
Theorem handshake_timeout_fails_only_authenticating (w : World) :
  let w' := exec _timeout_coro_wakes w in
  (_state (handshake (transport w)) = AUTHENTICATING ->
   _state (handshake (transport w')) = FAILED
   /\ calls w' = calls w
                 ++ map (fun l => Notify l FAILED) (_listeners (handshake (transport w)))
   /\ _timeout_task (handshake (transport w')) = None
   /\ _ws (transport w') = _ws (transport w))
  /\ (_state (handshake (transport w)) <> AUTHENTICATING -> w' = w).
Proof.
  cbv zeta. unfold _timeout_coro_wakes, exec, bind, state, gets. cbn [fst snd].
  split.
  - intros Hs. rewrite Hs. cbn [state_eqb].
    destruct (transition_to_effect FAILED w) as (S1 & C1 & W1 & _).
    rewrite Hs in S1, C1.
    assert (Hm : moves (_state (handshake (transport w))) FAILED = true)
      by (rewrite Hs; reflexivity).
    destruct (transition_to_timer FAILED w Hm) as [_ Hn].
    destruct Hn as [Hn _]; [discriminate|].
    repeat split; assumption.
  - intros Hs. destruct (_state (handshake (transport w))); try reflexivity.
    contradiction.
Qed.

Lemma handshake_timeout_witness :
  _state (handshake (transport (exec _timeout_coro_wakes authenticating))) = FAILED
  /\ exec _timeout_coro_wakes authenticated = authenticated.
Proof.
  split.
  - apply (handshake_timeout_fails_only_authenticating authenticating). reflexivity.
  - apply (handshake_timeout_fails_only_authenticating authenticated). discriminate.
Defined.

End HandshakeLaws.

(** ** More on the transport *)

Module TransportLaws.
Import Transport TransportFacts HandshakeLaws.
Local Open Scope string_scope.
Local Open Scope list_scope.
Local Open Scope Z_scope.

Lemma socket_calls_app l1 l2 : socket_calls (l1 ++ l2) = socket_calls l1 ++ socket_calls l2.
Proof. apply filter_app. Qed.

Lemma socket_calls_notify ls s : socket_calls (map (fun l => Notify l s) ls) = [].
Proof. induction ls; simpl; auto. Qed.

Lemma socket_calls_deliver ls msg : socket_calls (map (fun cb => Deliver cb msg) ls) = [].
Proof. induction ls; simpl; auto. Qed.

Lemma find_filter_none {A} (P Q : A -> bool) l :
  find P l = None -> find P (filter Q l) = None.
Proof.
  induction l as [|x l IH]; simpl; [reflexivity|].
  destruct (P x) eqn:E; [discriminate|]. intros H.
  destruct (Q x); simpl; rewrite ?E; apply IH, H.
Qed.

Lemma lookup_cancelled_then id (Q : TaskId * Task -> bool) l :
  find (fun p : TaskId * Task => Nat.eqb (fst p) id)
       (filter Q (filter (fun p => negb (Nat.eqb (fst p) id)) l)) = None.
Proof. apply find_filter_none, lookup_cancelled. Qed.

Ltac socket_tac :=
  unfold socket_calls;
  rewrite ?filter_app; fold socket_calls;
  rewrite ?socket_calls_notify, ?socket_calls_deliver, ?app_nil_r; simpl.

Section Laws.
Variable IDLE_TIMEOUT : Z.
Variable incognito : bool.
Variable json_loads : string -> option pyval.
Variable json_dumps : pyval -> string.

(** All that [disconnect] does, the event loop apart. *)
Lemma disconnect_effect reason w :
  let s := _state (handshake (transport w)) in
  let w' := exec (disconnect reason) w in
  _ws (transport w') = None
  /\ _idle_timer (transport w') = None
  /\ _receive_task (transport w') = None
  /\ _timeout_task (handshake (transport w')) = None
  /\ _state (handshake (transport w')) = (if moves s LOCKED then LOCKED else s)
  /\ socket_calls (calls w')
     = socket_calls (calls w)
       ++ match _ws (transport w) with
          | Some c => [WsClose c 1000 reason]
          | None => []
          end
  /\ _message_listeners (transport w') = _message_listeners (transport w)
  /\ _listeners (handshake (transport w')) = _listeners (handshake (transport w))
  /\ clock (loop w') = clock (loop w).
Proof.
  cbv zeta.
  destruct (reset_effect w) as (S1 & C1 & W1 & M1 & I1 & R1 & L1 & T1 & K1).
  unfold exec in *. unfold disconnect, bind, gets. cbn [fst snd].
  set (w1 := snd (reset w)) in *.
  (* the idle task goes *)
  set (w2 := snd (match _idle_timer (transport w1) with
                  | Some id => _
                  | None => ret tt
                  end w1)).
  assert (H2 : _idle_timer (transport w2) = None
               /\ _ws (transport w2) = _ws (transport w1)
               /\ _receive_task (transport w2) = _receive_task (transport w1)
               /\ handshake (transport w2) = handshake (transport w1)
               /\ _message_listeners (transport w2) = _message_listeners (transport w1)
               /\ calls w2 = calls w1
               /\ clock (loop w2) = clock (loop w1)).
  { subst w2. destruct (_idle_timer (transport w1)) eqn:E; cbn; repeat split; assumption. }
  destruct H2 as (I2 & W2 & R2 & H2 & M2 & C2 & K2).
  (* the receiver goes *)
  set (w3 := snd (match _receive_task (transport w2) with
                  | Some id => _
                  | None => ret tt
                  end w2)).
  assert (H3 : _idle_timer (transport w3) = _idle_timer (transport w2)
               /\ _ws (transport w3) = _ws (transport w2)
               /\ _receive_task (transport w3) = None
               /\ handshake (transport w3) = handshake (transport w2)
               /\ _message_listeners (transport w3) = _message_listeners (transport w2)
               /\ calls w3 = calls w2
               /\ clock (loop w3) = clock (loop w2)).
  { subst w3. destruct (_receive_task (transport w2)) eqn:E; cbn; repeat split; assumption. }
  destruct H3 as (I3 & W3 & R3 & H3 & M3 & C3 & K3).
  (* the socket goes *)
  assert (Hws : _ws (transport w3) = _ws (transport w)) by congruence.
  rewrite Hws.
  destruct (_ws (transport w)) as [c|]; cbn;
    rewrite ?I3, ?I2, ?R3, ?H3, ?H2, ?M3, ?M2, ?M1, ?C3, ?C2, ?C1, ?K3, ?K2, ?K1,
            ?T1, ?S1, ?L1;
    repeat split; try assumption;
    destruct (moves (_state (handshake (transport w))) LOCKED);
    socket_tac; reflexivity.
Qed.

(** All that [disconnect] does when it runs inside the task [self], the
    event loop apart: as above, but the socket is kept when [disconnect]
    cancels [self]. *)
Lemma disconnect_inside_effect self reason w :
  let s := _state (handshake (transport w)) in
  let w' := exec (disconnect_inside self reason) w in
  _ws (transport w')
  = (if handle_is self (_idle_timer (transport w))
        || handle_is self (_receive_task (transport w))
     then _ws (transport w) else None)
  /\ _idle_timer (transport w') = None
  /\ _receive_task (transport w') = None
  /\ _timeout_task (handshake (transport w')) = None
  /\ _state (handshake (transport w')) = (if moves s LOCKED then LOCKED else s)
  /\ socket_calls (calls w')
     = socket_calls (calls w)
       ++ match _ws (transport w) with
          | Some c => [WsClose c 1000 reason]
          | None => []
          end
  /\ _message_listeners (transport w') = _message_listeners (transport w)
  /\ _listeners (handshake (transport w')) = _listeners (handshake (transport w))
  /\ clock (loop w') = clock (loop w).
Proof.
  cbv zeta.
  destruct (reset_effect w) as (S1 & C1 & W1 & M1 & I1 & R1 & L1 & T1 & K1).
  unfold exec in *. unfold disconnect_inside, bind, gets. cbn [fst snd].
  set (w1 := snd (reset w)) in *.
  set (w2 := snd (match _idle_timer (transport w1) with
                  | Some id => _
                  | None => ret tt
                  end w1)).
  assert (H2 : _idle_timer (transport w2) = None
               /\ _ws (transport w2) = _ws (transport w1)
               /\ _receive_task (transport w2) = _receive_task (transport w1)
               /\ handshake (transport w2) = handshake (transport w1)
               /\ _message_listeners (transport w2) = _message_listeners (transport w1)
               /\ calls w2 = calls w1
               /\ clock (loop w2) = clock (loop w1)).
  { subst w2. destruct (_idle_timer (transport w1)) eqn:E; cbn; repeat split; assumption. }
  destruct H2 as (I2 & W2 & R2 & H2 & M2 & C2 & K2).
  set (w3 := snd (match _receive_task (transport w2) with
                  | Some id => _
                  | None => ret tt
                  end w2)).
  assert (H3 : _idle_timer (transport w3) = _idle_timer (transport w2)
               /\ _ws (transport w3) = _ws (transport w2)
               /\ _receive_task (transport w3) = None
               /\ handshake (transport w3) = handshake (transport w2)
               /\ _message_listeners (transport w3) = _message_listeners (transport w2)
               /\ calls w3 = calls w2
               /\ clock (loop w3) = clock (loop w2)).
  { subst w3. destruct (_receive_task (transport w2)) eqn:E; cbn; repeat split; assumption. }
  destruct H3 as (I3 & W3 & R3 & H3 & M3 & C3 & K3).
  assert (Hws : _ws (transport w3) = _ws (transport w)) by congruence.
  rewrite Hws, I1, R2, R1.
  destruct (_ws (transport w)) as [c|];
    destruct (handle_is self (_idle_timer (transport w))
              || handle_is self (_receive_task (transport w)));
    cbn;
    rewrite ?Hws, ?I3, ?I2, ?R3, ?H3, ?H2, ?M3, ?M2, ?M1, ?C3, ?C2, ?C1, ?K3, ?K2, ?K1,
            ?T1, ?S1, ?L1;
    repeat split; try assumption;
    destruct (moves (_state (handshake (transport w))) LOCKED);
    socket_tac; reflexivity.
Qed.

Lemma reset_settled w :
  _timeout_task (handshake (transport w)) = None ->
  moves (_state (handshake (transport w))) LOCKED = false ->
  snd (reset w) = w.
Proof.
  intros Ht Hm. unfold reset, _cancel_timeout, bind, gets. cbn [fst snd].
  rewrite Ht. unfold ret. cbn [fst snd]. apply (transition_rejected LOCKED w Hm).
Qed.

(** A service that holds nothing is left alone by [disconnect]. *)
Lemma disconnect_settled reason w :
  _ws (transport w) = None ->
  _idle_timer (transport w) = None ->
  _receive_task (transport w) = None ->
  _timeout_task (handshake (transport w)) = None ->
  moves (_state (handshake (transport w))) LOCKED = false ->
  exec (disconnect reason) w = w.
Proof.
  intros Hw Hi Hr Ht Hm. unfold exec, disconnect, bind, gets. cbn [fst snd].
  rewrite (reset_settled w Ht Hm), Hi. unfold ret. cbn [fst snd].
  rewrite Hr. cbn [fst snd]. rewrite Hw. reflexivity.
Qed.


Lemma reset_idle_timer_arms_clock w :
  clock (loop (snd (_reset_idle_timer IDLE_TIMEOUT w))) = clock (loop w).
Proof.
  unfold _reset_idle_timer. run_calls.
  destruct (_idle_timer (transport w)); reflexivity.
Qed.

Lemma reset_keeps_duration w :
  _timeout_duration (handshake (transport (snd (reset w))))
  = _timeout_duration (handshake (transport w)).
Proof.
  unfold reset, transition_to, _cancel_timeout, moves. run_monad.
  destruct (_timeout_task (handshake (transport w))) as [t|] eqn:Et; run_monad;
    destruct (_state (handshake (transport w))) eqn:Es; run_calls;
    rewrite ?Et; reflexivity.
Qed.

(** *** Connecting *)

Lemma connect_when_connected dial api_key w c0 :
  _ws (transport w) = Some c0 ->
  connect IDLE_TIMEOUT incognito json_dumps dial api_key w = (true, w).
Proof. intros H. unfold connect, bind, gets. cbn [fst snd]. rewrite H. reflexivity. Qed.

Lemma connect_refused err api_key w :
  _ws (transport w) = None ->
  let r := connect IDLE_TIMEOUT incognito json_dumps (DialError err) api_key w in
  fst r = false
  /\ _ws (transport (snd r)) = None
  /\ socket_calls (calls (snd r)) = socket_calls (calls w).
Proof.
  intros H. cbv zeta. unfold connect, bind, gets. cbn [fst snd]. rewrite H.
  unfold ret. cbn [fst snd].
  destruct (reset_effect w) as (S1 & C1 & W1 & _). unfold exec in *.
  destruct (disconnect_effect err (snd (reset w))) as (Hw & _ & _ & _ & _ & Hc & _).
  unfold exec in *. split; [reflexivity|]. split; [exact Hw|].
  rewrite Hc, W1, H, C1, app_nil_r.
  destruct (moves (_state (handshake (transport w))) LOCKED); socket_tac; reflexivity.
Qed.

Lemma dialled_effect c w :
  let w2 := dialled c w in
  _ws (transport w2) = Some c
  /\ calls w2 = calls (snd (reset w))
  /\ handshake (transport w2) = handshake (transport (snd (reset w)))
  /\ listening w2 = true
  /\ clock (loop w2) = clock (loop (snd (reset w)))
  /\ next_id (loop w2) = S (next_id (loop (snd (reset w)))).
Proof.
  cbv zeta. unfold dialled. cbn. repeat split.
  unfold listening. cbn. rewrite existsb_app. cbn. apply orb_true_r.
Qed.

Lemma connect_without_key c w :
  _ws (transport w) = None ->
  let r := connect IDLE_TIMEOUT incognito json_dumps (Dialled c) "" w in
  fst r = false
  /\ _ws (transport (snd r)) = None
  /\ socket_calls (calls (snd r))
     = socket_calls (calls w)
       ++ [WsClose c 1000 "No API Key available for authentication."].
Proof.
  intros H. cbv zeta. unfold connect, bind, gets. cbn [fst snd]. rewrite H.
  unfold ret. cbn [fst snd String.eqb].
  change (snd (set_receive_task _ _)) with (dialled c w).
  destruct (reset_effect w) as (S1 & C1 & W1 & _). unfold exec in *.
  destruct (dialled_effect c w) as (W2 & C2 & _).
  destruct (disconnect_effect "No API Key available for authentication." (dialled c w))
    as (Hw & _ & _ & _ & _ & Hc & _).
  unfold exec in *. split; [reflexivity|]. split; [exact Hw|].
  rewrite Hc, W2, C2, C1.
  destruct (moves (_state (handshake (transport w))) LOCKED); socket_tac; reflexivity.
Qed.

Lemma connect_with_key c api_key w :
  _ws (transport w) = None ->
  String.eqb api_key "" = false ->
  let r := connect IDLE_TIMEOUT incognito json_dumps (Dialled c) api_key w in
  fst r = true
  /\ _ws (transport (snd r)) = Some c
  /\ socket_calls (calls (snd r))
     = socket_calls (calls w)
       ++ [WsSend c (Text (json_dumps (build_hello api_key "api_key" incognito)))]
  /\ _state (handshake (transport (snd r))) = AUTHENTICATING
  /\ (_state (handshake (transport w)) <> AUTHENTICATING ->
      exists id at_,
        _timeout_task (handshake (transport (snd r))) = Some id
        /\ In (id, TimeoutTask at_) (pending (loop (snd r)))
        /\ at_ = clock (loop w) + _timeout_duration (handshake (transport w)))
  /\ (_state (handshake (transport w)) = AUTHENTICATING ->
      _timeout_task (handshake (transport (snd r))) = None).
Proof.
  intros H Hk. cbv zeta. unfold connect, bind, gets. cbn [fst snd]. rewrite H.
  unfold ret. cbn [fst snd]. rewrite Hk. cbn [fst snd].
  change (snd (set_receive_task _ _)) with (dialled c w).
  destruct (reset_effect w) as (S1 & C1 & W1 & _ & _ & _ & L1 & T1 & K1). unfold exec in *.
  destruct (dialled_effect c w) as (W2 & C2 & H2 & _ & K2 & _).
  unfold _send_json, bind, gets. cbn [fst snd]. rewrite W2. cbn [fst snd].
  destruct (reset_idle_timer_frame IDLE_TIMEOUT (dialled c w)) as (H3 & _ & W3 & C3).
  pose proof (reset_idle_timer_arms_clock (dialled c w)) as K3.
  set (w3 := snd (_reset_idle_timer IDLE_TIMEOUT (dialled c w))) in *.
  set (hello := WsSend c (Text (json_dumps (build_hello api_key "api_key" incognito)))).
  set (w4 := snd (call hello w3)).
  assert (F4 : handshake (transport w4) = handshake (transport w3)
               /\ _ws (transport w4) = _ws (transport w3)
               /\ calls w4 = calls w3 ++ [hello]
               /\ clock (loop w4) = clock (loop w3)) by (repeat split).
  destruct F4 as (H4 & W4 & C4 & K4).
  destruct (transition_to_effect AUTHENTICATING w4) as (S5 & C5 & W5 & _).
  unfold exec in *.
  assert (Hst : _state (handshake (transport w4))
                = if moves (_state (handshake (transport w))) LOCKED
                  then LOCKED else _state (handshake (transport w)))
    by (rewrite H4, H3, H2; exact S1).
  assert (Hdur : _timeout_duration (handshake (transport w4))
                 = _timeout_duration (handshake (transport w))).
  { rewrite H4, H3, H2. apply reset_keeps_duration. }
  split; [reflexivity|]. split; [congruence|]. split; [|split; [|split]].
  - rewrite C5, C4, C3, C2, C1.
    destruct (moves (_state (handshake (transport w))) LOCKED),
             (moves (_state (handshake (transport w4))) AUTHENTICATING);
      socket_tac; reflexivity.
  - rewrite S5, Hst. destruct (_state (handshake (transport w))); reflexivity.
  - intros Hs.
    assert (Hm : moves (_state (handshake (transport w4))) AUTHENTICATING = true).
    { rewrite Hst. destruct (_state (handshake (transport w))); try reflexivity.
      contradiction. }
    destruct (transition_to_timer AUTHENTICATING w4 Hm) as [Ha _].
    destruct (Ha eq_refl) as [Hh Hin]. unfold exec in *.
    eexists _, _. split; [exact Hh|]. split; [exact Hin|].
    rewrite Hdur. congruence.
  - intros Hs.
    pose proof (transition_rejected AUTHENTICATING w4) as Hr.
    unfold exec in Hr. rewrite Hr by (rewrite Hst, Hs; reflexivity).
    rewrite H4, H3, H2. exact T1.
Qed.

(** X9: [connect] does nothing and answers [True] when a socket is held.
    Otherwise: if dialling fails it answers [False] and no socket call is
    made; if no API key is stored it answers [False], after closing the new
    socket without having sent anything on it; else it answers [True], holds
    the socket, has sent the hello frame and nothing else on it, and the
    handshake is [AUTHENTICATING], with its timeout armed unless the
    handshake was already [AUTHENTICATING] when [connect] was called. *)
Theorem connect_sends_hello_or_gives_up (dial : Dial) (api_key : string) (w : World) :
  let r := connect IDLE_TIMEOUT incognito json_dumps dial api_key w in
  (_ws (transport w) <> None -> r = (true, w))
  /\ (_ws (transport w) = None ->
      match dial with
      | DialError _ =>
        fst r = false /\ _ws (transport (snd r)) = None
        /\ socket_calls (calls (snd r)) = socket_calls (calls w)
      | Dialled c =>
        if String.eqb api_key "" then
          fst r = false /\ _ws (transport (snd r)) = None
          /\ socket_calls (calls (snd r))
             = socket_calls (calls w)
               ++ [WsClose c 1000 "No API Key available for authentication."]
        else
          fst r = true /\ _ws (transport (snd r)) = Some c
          /\ socket_calls (calls (snd r))
             = socket_calls (calls w)
               ++ [WsSend c (Text (json_dumps (build_hello api_key "api_key" incognito)))]
          /\ _state (handshake (transport (snd r))) = AUTHENTICATING
          /\ (_state (handshake (transport w)) <> AUTHENTICATING ->
              exists id at_,
                _timeout_task (handshake (transport (snd r))) = Some id
                /\ In (id, TimeoutTask at_) (pending (loop (snd r)))
                /\ at_ = clock (loop w) + _timeout_duration (handshake (transport w)))
          /\ (_state (handshake (transport w)) = AUTHENTICATING ->
              _timeout_task (handshake (transport (snd r))) = None)
      end).
Proof.
  cbv zeta. split.
  - intros H. destruct (_ws (transport w)) as [c0|] eqn:E; [|contradiction].
    apply (connect_when_connected dial api_key w c0 E).
  - intros H. destruct dial as [c|err].
    + destruct (String.eqb api_key "") eqn:Ek.
      * apply String.eqb_eq in Ek. subst api_key. apply connect_without_key, H.
      * apply connect_with_key; assumption.
    + apply connect_refused, H.
Qed.

End Laws.

Lemma connect_witness :
  let again := exec (disconnect "Closed by server") authenticating in
  fst (connect 300 false example_dumps (Dialled 7%nat) "key" init) = true
  /\ _state (handshake (transport again)) = AUTHENTICATING
  /\ _timeout_task (handshake (transport
        (snd (connect 300 false example_dumps (Dialled 8%nat) "key" again)))) = None.
Proof.
  cbv zeta. split; [|split; [reflexivity|]].
  - destruct (connect_sends_hello_or_gives_up 300 false example_dumps
                (Dialled 7%nat) "key" init) as [_ H].
    apply (H eq_refl).
  - destruct (connect_sends_hello_or_gives_up 300 false example_dumps
                (Dialled 8%nat) "key" (exec (disconnect "Closed by server") authenticating))
      as [_ H].
    apply (H eq_refl). reflexivity.
Defined.

End TransportLaws.

(** ** The audio gate of the transport *)

Module GateLaws.
Import Transport TransportFacts HandshakeLaws TransportLaws.
Local Open Scope string_scope.
Local Open Scope list_scope.
Local Open Scope Z_scope.

(** *** Statements that send no audio *)

Lemma mute_same {A} (c : M A) :
  (forall w, _state (handshake (transport (snd (c w)))) = _state (handshake (transport w))
             /\ filter is_audio (calls (snd (c w))) = filter is_audio (calls w)) ->
  mute c.
Proof. intros H w Hs. destruct (H w) as [H1 H2]. rewrite H1. split; assumption. Qed.

Lemma mute_ret {A} (a : A) : mute (ret a).
Proof. apply mute_same; intros w; split; reflexivity. Qed.

Lemma mute_gets {A} (f : World -> A) : mute (gets f).
Proof. apply mute_same; intros w; split; reflexivity. Qed.

Lemma mute_bind {A B} (c : M A) (k : A -> M B) :
  mute c -> (forall a, mute (k a)) -> mute (bind c k).
Proof.
  intros Hc Hk w Hs. unfold bind. destruct (Hc w Hs) as [H1 H2].
  destruct (Hk (fst (c w)) (snd (c w)) H1) as [H3 H4].
  split; [exact H3 | congruence].
Qed.

Lemma mute_if {A} (b : bool) (c d : M A) : mute c -> mute d -> mute (if b then c else d).
Proof. destruct b; auto. Qed.

Lemma mute_for_each {A} (l : list A) (body : A -> M unit) :
  (forall x, mute (body x)) -> mute (for_each l body).
Proof.
  intros H. induction l as [|x l IH]; simpl.
  - apply mute_ret.
  - apply mute_bind; [apply H | intros _; exact IH].
Qed.

Lemma mute_call c : is_audio c = false -> mute (call c).
Proof.
  intros H. apply mute_same; intros w; split; [reflexivity|].
  unfold call, modify. cbn. rewrite filter_app. cbn. rewrite H. apply app_nil_r.
Qed.

Lemma mute_notify l s : mute (call (Notify l s)).
Proof. apply mute_call; reflexivity. Qed.

Lemma mute_deliver cb msg : mute (call (Deliver cb msg)).
Proof. apply mute_call; reflexivity. Qed.

Lemma mute_send_text c s : mute (call (WsSend c (Text s))).
Proof. apply mute_call; reflexivity. Qed.

Lemma mute_close c code reason : mute (call (WsClose c code reason)).
Proof. apply mute_call; reflexivity. Qed.

Lemma mute_set_state s : s <> AUTHENTICATED -> mute (set_state s).
Proof. intros H w _. split; [exact H | reflexivity]. Qed.

Lemma mute_set_timeout_task t : mute (set_timeout_task t).
Proof. apply mute_same; intros w; split; reflexivity. Qed.

Lemma mute_set_ws c : mute (set_ws c).
Proof. apply mute_same; intros w; split; reflexivity. Qed.

Lemma mute_set_receive_task r : mute (set_receive_task r).
Proof. apply mute_same; intros w; split; reflexivity. Qed.

Lemma mute_set_idle_timer i : mute (set_idle_timer i).
Proof. apply mute_same; intros w; split; reflexivity. Qed.

Lemma mute_cancel id : mute (cancel id).
Proof. apply mute_same; intros w; split; reflexivity. Qed.

Lemma mute_create_task t : mute (create_task t).
Proof. apply mute_same; intros w; split; reflexivity. Qed.

Lemma mute_now : mute now.
Proof. apply mute_same; intros w; split; reflexivity. Qed.

Lemma mute_state : mute state.
Proof. apply mute_same; intros w; split; reflexivity. Qed.

Lemma mute_advance d : mute (advance d).
Proof. apply mute_same; intros w; split; reflexivity. Qed.

Lemma mute_add_listener cb : mute (add_listener cb).
Proof. apply mute_same; intros w; split; reflexivity. Qed.

Lemma mute_add_message_listener cb : mute (add_message_listener cb).
Proof. apply mute_same; intros w; split; reflexivity. Qed.

Create HintDb mute.
#[local] Hint Resolve mute_ret mute_gets mute_notify mute_deliver mute_send_text
  mute_close mute_set_timeout_task mute_set_ws mute_set_receive_task
  mute_set_idle_timer mute_cancel mute_create_task mute_now mute_state
  mute_advance mute_add_listener mute_add_message_listener : mute.

Ltac mute_tac :=
  repeat first
    [ progress (intros)
    | solve [auto with mute]
    | apply mute_set_state; discriminate
    | apply mute_bind
    | apply mute_for_each
    | apply mute_if
    | match goal with
      | |- mute (match ?x with _ => _ end) => destruct x
      end ].

Lemma mute_cancel_timeout : mute _cancel_timeout.
Proof. unfold _cancel_timeout. mute_tac. Qed.
#[local] Hint Resolve mute_cancel_timeout : mute.

Lemma mute_start_timeout : mute _start_timeout.
Proof. unfold _start_timeout. mute_tac. Qed.
#[local] Hint Resolve mute_start_timeout : mute.

Lemma mute_transition_to s : s <> AUTHENTICATED -> mute (transition_to s).
Proof.
  intros H. unfold transition_to.
  apply mute_bind; [auto with mute|]. intros s0.
  apply mute_if; [auto with mute|]. apply mute_if; [auto with mute|].
  apply mute_bind; [apply mute_set_state, H|]. intros _. mute_tac.
Qed.

Lemma mute_reset : mute reset.
Proof.
  unfold reset. apply mute_bind; [auto with mute|]. intros _.
  apply mute_transition_to. discriminate.
Qed.
#[local] Hint Resolve mute_reset : mute.

Lemma mute_timeout_coro_wakes : mute _timeout_coro_wakes.
Proof.
  unfold _timeout_coro_wakes. apply mute_bind; [auto with mute|]. intros s.
  apply mute_if; [|auto with mute]. apply mute_transition_to. discriminate.
Qed.
#[local] Hint Resolve mute_timeout_coro_wakes : mute.

Section Gate.
Variable IDLE_TIMEOUT : Z.
Variable incognito : bool.
Variable json_loads : string -> option pyval.
Variable json_dumps : pyval -> string.

Lemma mute_reset_idle_timer : mute (_reset_idle_timer IDLE_TIMEOUT).
Proof. unfold _reset_idle_timer. mute_tac. Qed.

Lemma mute_notify_message_listeners msg : mute (notify_message_listeners msg).
Proof. unfold notify_message_listeners. mute_tac. Qed.

Lemma mute_disconnect reason : mute (disconnect reason).
Proof. unfold disconnect. mute_tac. Qed.

Lemma mute_send_json data : mute (_send_json IDLE_TIMEOUT json_dumps data).
Proof.
  unfold _send_json. apply mute_bind; [auto with mute|]. intros [c|]; [|auto with mute].
  apply mute_bind; [apply mute_reset_idle_timer | intros _; auto with mute].
Qed.

Lemma mute_disconnect_inside self reason : mute (disconnect_inside self reason).
Proof. unfold disconnect_inside. mute_tac. Qed.

Lemma mute_timeout_wakes self : mute (_timeout_wakes self).
Proof.
  unfold _timeout_wakes. apply mute_bind; [auto with mute|].
  intros [c|]; [apply mute_disconnect_inside | auto with mute].
Qed.

Lemma mute_connect dial api_key :
  mute (connect IDLE_TIMEOUT incognito json_dumps dial api_key).
Proof.
  unfold connect. apply mute_bind; [auto with mute|]. intros [c0|]; [auto with mute|].
  apply mute_bind; [auto with mute|]. intros _. destruct dial as [c|e].
  - apply mute_bind; [auto with mute|]. intros _.
    apply mute_bind; [auto with mute|]. intros r.
    apply mute_bind; [auto with mute|]. intros _.
    apply mute_if.
    + apply mute_bind; [apply mute_disconnect | intros _; auto with mute].
    + apply mute_bind; [apply mute_send_json|]. intros _.
      apply mute_bind; [apply mute_transition_to; discriminate | intros _; auto with mute].
  - apply mute_bind; [apply mute_disconnect | intros _; auto with mute].
Qed.

Lemma mute_ensure_connected dial api_key :
  mute (ensure_connected IDLE_TIMEOUT incognito json_dumps dial api_key).
Proof.
  unfold ensure_connected. apply mute_bind; [auto with mute|]. intros s.
  apply mute_if; [auto with mute | apply mute_connect].
Qed.

(** Audio asked for while the handshake is not [AUTHENTICATED] goes
    nowhere. *)
Lemma mute_send_audio chunk : mute (send_audio IDLE_TIMEOUT chunk).
Proof.
  intros w Hs. unfold send_audio, can_send_audio, bind, state, gets, ret. cbn [fst snd].
  destruct (state_eqb (_state (handshake (transport w))) AUTHENTICATED) eqn:E.
  - apply state_eqb_eq in E. contradiction.
  - split; [exact Hs | reflexivity].
Qed.

Lemma mute_handle_raw_message data :
  accepts json_loads (EvRecv data) = false ->
  mute (_handle_raw_message IDLE_TIMEOUT json_loads data).
Proof.
  intros Ha. unfold _handle_raw_message. destruct data as [s|b]; [|auto with mute].
  apply mute_bind; [apply mute_reset_idle_timer|]. intros _.
  cbn in Ha. destruct (json_loads s) as [[| | | | | |msg]|]; auto with mute.
  cbv zeta. rewrite Ha.
  apply mute_if; [auto with mute|].
  apply mute_if.
  - apply mute_bind; [|intros _; apply mute_notify_message_listeners].
    apply mute_if; [|auto with mute].
    apply mute_bind; [apply mute_transition_to; discriminate|]. intros _.
    apply mute_if; [apply mute_transition_to; discriminate | auto with mute].
  - apply mute_notify_message_listeners.
Qed.

Lemma step_mute e w w' :
  _state (handshake (transport w)) <> AUTHENTICATED ->
  accepts json_loads e = false ->
  step IDLE_TIMEOUT incognito json_loads json_dumps e w = Some w' ->
  _state (handshake (transport w')) <> AUTHENTICATED
  /\ filter is_audio (calls w') = filter is_audio (calls w).
Proof.
  intros Hs Ha Hstep.
  assert (Hm : forall A (c : M A), mute c -> Some (exec c w) = Some w' ->
               _state (handshake (transport w')) <> AUTHENTICATED
               /\ filter is_audio (calls w') = filter is_audio (calls w)).
  { intros A c Hc [= <-]. exact (Hc w Hs). }
  destruct e as [cb|cb|dial api_key|chunk|data|reason|data|rid|id|d]; cbn [step] in Hstep.
  - apply (Hm _ _ (mute_add_listener cb) Hstep).
  - apply (Hm _ _ (mute_add_message_listener cb) Hstep).
  - apply (Hm _ _ (mute_ensure_connected dial api_key) Hstep).
  - apply (Hm _ _ (mute_send_audio chunk) Hstep).
  - apply (Hm _ _ (mute_send_json data) Hstep).
  - apply (Hm _ _ (mute_disconnect reason) Hstep).
  - destruct (listening w); [|discriminate].
    apply (Hm _ _ (mute_handle_raw_message data Ha) Hstep).
  - destruct (lookup_task rid (loop w)) as [[at_|at_|]|]; try discriminate.
    refine (Hm _ (cancel rid ;; _listen_loop_closed rid) _ Hstep).
    apply mute_bind; [auto with mute | intros _; apply mute_disconnect_inside].
  - destruct (lookup_task id (loop w)) as [[at_|at_|]|]; try discriminate;
      destruct (at_ <=? clock (loop w)); try discriminate.
    + refine (Hm _ (cancel id ;; _timeout_coro_wakes) _ Hstep).
      apply mute_bind; [auto with mute | intros _; auto with mute].
    + refine (Hm _ (cancel id ;; _timeout_wakes id) _ Hstep).
      apply mute_bind; [auto with mute | intros _; apply mute_timeout_wakes].
  - destruct ((0 <=? d) && none_due_before (clock (loop w) + d) (loop w)); [|discriminate].
    apply (Hm _ _ (mute_advance d) Hstep).
Qed.

(** X10: as long as no frame with the event [authenticated] has arrived,
    the handshake is not [AUTHENTICATED] and no audio chunk is handed to
    the socket, whatever else the client is asked to do: connect, send
    audio or JSON, disconnect, handle other frames, let timers fire. *)
Theorem no_audio_before_authenticated (es : list Event) (w0 w : World) :
  _state (handshake (transport w0)) <> AUTHENTICATED ->
  forallb (fun e => negb (accepts json_loads e)) es = true ->
  run IDLE_TIMEOUT incognito json_loads json_dumps es w0 = Some w ->
  _state (handshake (transport w)) <> AUTHENTICATED
  /\ filter is_audio (calls w) = filter is_audio (calls w0).
Proof.
  revert w0. induction es as [|e es IH]; intros w0 Hs Hall Hrun.
  - injection Hrun as <-. split; [exact Hs | reflexivity].
  - cbn [forallb] in Hall. apply andb_true_iff in Hall as [He Hall].
    apply negb_true_iff in He. cbn [run] in Hrun.
    destruct (step IDLE_TIMEOUT incognito json_loads json_dumps e w0) as [w1|] eqn:E;
      [|discriminate].
    destruct (step_mute e w0 w1 Hs He E) as [Hs1 Hc1].
    destruct (IH w1 Hs1 Hall Hrun) as [Hs2 Hc2].
    split; [exact Hs2 | congruence].
Qed.

End Gate.

Lemma no_audio_before_authenticated_witness :
  let es := [EvAddListener 9%nat; EvEnsureConnected (Dialled 7%nat) "key";
             EvSendAudio [x01; x02]; EvElapse 10;
             EvRecv (DataStr (json_text "status" "")); EvSendAudio [x03; x04]] in
  exists w, example_run es init = Some w
            /\ _state (handshake (transport w)) <> AUTHENTICATED
            /\ filter is_audio (calls w) = filter is_audio (calls init).
Proof.
  intros es. eexists. split; [vm_compute; reflexivity|].
  apply (no_audio_before_authenticated 300 false example_loads example_dumps es init).
  - vm_compute. discriminate.
  - vm_compute. reflexivity.
  - vm_compute. reflexivity.
Defined.

(** *** Statements that keep the socket and the receiver *)

Lemma steady_same {A} (c : M A) :
  (forall w, _ws (transport (snd (c w))) = _ws (transport w)
             /\ _receive_task (transport (snd (c w))) = _receive_task (transport w)
             /\ pending (loop (snd (c w))) = pending (loop w)) ->
  steady c.
Proof.
  intros H w. destruct (H w) as (H1 & H2 & H3). split; [exact H1|]. split; [exact H2|].
  unfold listen_pending. rewrite H3. apply incl_refl.
Qed.

Lemma steady_ret {A} (a : A) : steady (ret a).
Proof. apply steady_same; intros w; repeat split. Qed.

Lemma steady_gets {A} (f : World -> A) : steady (gets f).
Proof. apply steady_same; intros w; repeat split. Qed.

Lemma steady_bind {A B} (c : M A) (k : A -> M B) :
  steady c -> (forall a, steady (k a)) -> steady (bind c k).
Proof.
  intros Hc Hk w. unfold bind. destruct (Hc w) as (H1 & H2 & H3).
  destruct (Hk (fst (c w)) (snd (c w))) as (H4 & H5 & H6).
  split; [congruence|]. split; [congruence|].
  eapply incl_tran; eassumption.
Qed.

Lemma steady_if {A} (b : bool) (c d : M A) : steady c -> steady d -> steady (if b then c else d).
Proof. destruct b; auto. Qed.

Lemma steady_for_each {A} (l : list A) (body : A -> M unit) :
  (forall x, steady (body x)) -> steady (for_each l body).
Proof.
  intros H. induction l as [|x l IH]; simpl.
  - apply steady_ret.
  - apply steady_bind; [apply H | intros _; exact IH].
Qed.

Lemma steady_call c : steady (call c).
Proof. apply steady_same; intros w; repeat split. Qed.

Lemma steady_set_state s : steady (set_state s).
Proof. apply steady_same; intros w; repeat split. Qed.

Lemma steady_set_timeout_task t : steady (set_timeout_task t).
Proof. apply steady_same; intros w; repeat split. Qed.

Lemma steady_set_idle_timer i : steady (set_idle_timer i).
Proof. apply steady_same; intros w; repeat split. Qed.

Lemma steady_now : steady now.
Proof. apply steady_same; intros w; repeat split. Qed.

Lemma steady_state : steady state.
Proof. apply steady_same; intros w; repeat split. Qed.

Lemma steady_advance d : steady (advance d).
Proof. apply steady_same; intros w; repeat split. Qed.

Lemma steady_add_listener cb : steady (add_listener cb).
Proof. apply steady_same; intros w; repeat split. Qed.

Lemma steady_add_message_listener cb : steady (add_message_listener cb).
Proof. apply steady_same; intros w; repeat split. Qed.

Lemma listen_pending_cancelled id w :
  forall r, In r (listen_pending (snd (cancel id w))) ->
            In r (listen_pending w) /\ r <> id.
Proof.
  intros r. unfold listen_pending, cancel, modify, with_loop. cbn.
  induction (pending (loop w)) as [|[i t] l IH]; cbn; [tauto|].
  destruct (Nat.eqb i id) eqn:E; cbn.
  - intros H. destruct (IH H) as [H1 H2]. split; [|exact H2].
    apply in_or_app. right. exact H1.
  - intros H. apply in_app_or in H as [H|H].
    + split; [apply in_or_app; left; exact H|].
      destruct t; cbn in H; try contradiction. destruct H as [<-|[]].
      intros ->. rewrite Nat.eqb_refl in E. discriminate.
    + destruct (IH H) as [H1 H2]. split; [|exact H2].
      apply in_or_app. right. exact H1.
Qed.

Lemma steady_cancel id : steady (cancel id).
Proof.
  intros w. split; [reflexivity|]. split; [reflexivity|].
  intros r H. apply (listen_pending_cancelled id w r H).
Qed.

Lemma listen_pending_created t w :
  listen_pending (snd (create_task t w))
  = listen_pending w ++ match t with ListenTask => [next_id (loop w)] | _ => [] end.
Proof.
  unfold listen_pending, create_task, with_loop. cbn. rewrite flat_map_app. cbn.
  destruct t; reflexivity.
Qed.

Lemma steady_create_timeout at_ : steady (create_task (TimeoutTask at_)).
Proof.
  intros w. split; [reflexivity|]. split; [reflexivity|].
  rewrite listen_pending_created, app_nil_r. apply incl_refl.
Qed.

Lemma steady_create_idle at_ : steady (create_task (IdleTask at_)).
Proof.
  intros w. split; [reflexivity|]. split; [reflexivity|].
  rewrite listen_pending_created, app_nil_r. apply incl_refl.
Qed.

Create HintDb steady.
#[local] Hint Resolve steady_ret steady_gets steady_call steady_set_state
  steady_set_timeout_task steady_set_idle_timer steady_now steady_state
  steady_advance steady_add_listener steady_add_message_listener
  steady_cancel steady_create_timeout steady_create_idle : steady.

Ltac steady_tac :=
  repeat first
    [ progress (intros)
    | solve [auto with steady]
    | apply steady_bind
    | apply steady_for_each
    | apply steady_if
    | match goal with
      | |- steady (match ?x with _ => _ end) => destruct x
      | |- steady (let _ := _ in _) => cbv zeta
      end ].

Lemma steady_cancel_timeout : steady _cancel_timeout.
Proof. unfold _cancel_timeout. steady_tac. Qed.
#[local] Hint Resolve steady_cancel_timeout : steady.

Lemma steady_start_timeout : steady _start_timeout.
Proof. unfold _start_timeout. steady_tac. Qed.
#[local] Hint Resolve steady_start_timeout : steady.

Lemma steady_transition_to s : steady (transition_to s).
Proof. unfold transition_to. steady_tac. Qed.
#[local] Hint Resolve steady_transition_to : steady.

Lemma steady_reset : steady reset.
Proof. unfold reset. steady_tac. Qed.
#[local] Hint Resolve steady_reset : steady.

Lemma steady_timeout_coro_wakes : steady _timeout_coro_wakes.
Proof. unfold _timeout_coro_wakes. steady_tac. Qed.
#[local] Hint Resolve steady_timeout_coro_wakes : steady.

Lemma listening_pending w : listening w = true -> exists id, In id (listen_pending w).
Proof.
  unfold listening, listen_pending. intros H. apply existsb_exists in H as [[i t] [Hin Ht]].
  exists i. apply in_flat_map. exists (i, t). split; [exact Hin|].
  destruct t; try discriminate. left. reflexivity.
Qed.

Lemma mute_back {A} (c : M A) w :
  mute c ->
  _state (handshake (transport (snd (c w)))) = AUTHENTICATED ->
  _state (handshake (transport w)) = AUTHENTICATED.
Proof.
  intros Hc H. destruct (_state (handshake (transport w))) eqn:E; try reflexivity;
    exfalso; refine (proj1 (Hc w _) H); rewrite E; discriminate.
Qed.

Lemma held_steady {A} (c : M A) w :
  steady c -> held w ->
  (_state (handshake (transport (snd (c w)))) = AUTHENTICATED ->
   _state (handshake (transport w)) = AUTHENTICATED \/ _ws (transport w) <> None) ->
  held (snd (c w)).
Proof.
  intros Hc [H1 H2] Hs. destruct (Hc w) as (W & R & L). split.
  - intros id Hin. rewrite W, R. apply H1, L, Hin.
  - intros Ha. rewrite W. destruct (Hs Ha) as [Hb|Hb]; [apply H2, Hb | exact Hb].
Qed.

Lemma held_quiet {A} (c : M A) w :
  steady c -> mute c -> held w -> held (snd (c w)).
Proof.
  intros Hc Hm Hw. apply held_steady; [exact Hc | exact Hw|].
  intros Ha. left. apply (mute_back c w Hm Ha).
Qed.

Section Held.
Variable IDLE_TIMEOUT : Z.
Variable incognito : bool.
Variable json_loads : string -> option pyval.
Variable json_dumps : pyval -> string.

Lemma steady_reset_idle_timer : steady (_reset_idle_timer IDLE_TIMEOUT).
Proof. unfold _reset_idle_timer. steady_tac. Qed.

Lemma steady_notify_message_listeners msg : steady (notify_message_listeners msg).
Proof. unfold notify_message_listeners. steady_tac. Qed.

Lemma steady_send_json data : steady (_send_json IDLE_TIMEOUT json_dumps data).
Proof.
  unfold _send_json. apply steady_bind; [auto with steady|]. intros [c|]; [|auto with steady].
  apply steady_bind; [apply steady_reset_idle_timer | intros _; auto with steady].
Qed.

Lemma steady_send_audio chunk : steady (send_audio IDLE_TIMEOUT chunk).
Proof.
  unfold send_audio, can_send_audio.
  apply steady_bind; [steady_tac|]. intros ok.
  apply steady_bind; [auto with steady|]. intros [c|]; destruct ok; auto with steady.
  apply steady_bind; [apply steady_reset_idle_timer | intros _; auto with steady].
Qed.

Lemma steady_handle_raw_message data :
  steady (_handle_raw_message IDLE_TIMEOUT json_loads data).
Proof.
  unfold _handle_raw_message. destruct data as [s|b]; [|auto with steady].
  apply steady_bind; [apply steady_reset_idle_timer|]. intros _.
  destruct (json_loads s) as [[| | | | | |msg]|]; auto with steady.
  cbv zeta.
  apply steady_if; [auto with steady|].
  apply steady_if; [auto with steady|].
  apply steady_if.
  - apply steady_bind; [|intros _; apply steady_notify_message_listeners].
    steady_tac.
  - apply steady_notify_message_listeners.
Qed.

(** [disconnect] stops the receiver that [_receive_task] holds. *)
Lemma disconnect_listen reason w id :
  In id (listen_pending (exec (disconnect reason) w)) ->
  In id (listen_pending w) /\ _receive_task (transport w) <> Some id.
Proof.
  unfold exec, disconnect, bind, gets. cbn [fst snd].
  destruct (steady_reset w) as (W1 & R1 & L1).
  set (w1 := snd (reset w)) in *.
  set (w2 := snd (match _idle_timer (transport w1) with
                  | Some id => _
                  | None => ret tt
                  end w1)).
  assert (H2 : _receive_task (transport w2) = _receive_task (transport w1)
               /\ incl (listen_pending w2) (listen_pending w1)).
  { subst w2. destruct (_idle_timer (transport w1)) as [i|]; cbn [snd ret].
    - apply (steady_bind (cancel i) (fun _ => set_idle_timer None)); auto with steady.
    - split; [reflexivity | apply incl_refl]. }
  destruct H2 as (R2 & L2).
  set (w3 := snd (match _receive_task (transport w2) with
                  | Some id => _
                  | None => ret tt
                  end w2)).
  assert (H3 : forall r, In r (listen_pending w3) ->
                         In r (listen_pending w2) /\ _receive_task (transport w2) <> Some r).
  { subst w3. intros r. destruct (_receive_task (transport w2)) as [i|]; cbn [snd ret].
    - unfold bind, set_receive_task, modify, with_transport. cbn [fst snd].
      intros H. destruct (listen_pending_cancelled i w2 r H) as [Ha Hb].
      split; [exact Ha | congruence].
    - intros H. split; [exact H | discriminate]. }
  intros H.
  assert (H' : In id (listen_pending w3)).
  { destruct (_ws (transport w3)); exact H. }
  destruct (H3 id H') as [Ha Hb]. split.
  - apply L1, L2, Ha.
  - rewrite <- R1, <- R2. exact Hb.
Qed.

Lemma held_disconnect reason w : held w -> held (exec (disconnect reason) w).
Proof.
  intros [H1 H2].
  destruct (disconnect_effect reason w) as (Hw & _ & _ & _ & Hs & _). split.
  - intros id Hin. destruct (disconnect_listen reason w id Hin) as [Ha Hb].
    exfalso. apply Hb. apply H1, Ha.
  - rewrite Hs. intros Ha. exfalso.
    destruct (_state (handshake (transport w))); discriminate.
Qed.

(** So does [disconnect] run inside a task, interrupted or not. *)
Lemma disconnect_inside_listen self reason w id :
  In id (listen_pending (exec (disconnect_inside self reason) w)) ->
  In id (listen_pending w) /\ _receive_task (transport w) <> Some id.
Proof.
  unfold exec, disconnect_inside, bind, gets. cbn [fst snd].
  destruct (steady_reset w) as (W1 & R1 & L1).
  set (w1 := snd (reset w)) in *.
  set (w2 := snd (match _idle_timer (transport w1) with
                  | Some id => _
                  | None => ret tt
                  end w1)).
  assert (H2 : _receive_task (transport w2) = _receive_task (transport w1)
               /\ incl (listen_pending w2) (listen_pending w1)).
  { subst w2. destruct (_idle_timer (transport w1)) as [i|]; cbn [snd ret].
    - apply (steady_bind (cancel i) (fun _ => set_idle_timer None)); auto with steady.
    - split; [reflexivity | apply incl_refl]. }
  destruct H2 as (R2 & L2).
  set (w3 := snd (match _receive_task (transport w2) with
                  | Some id => _
                  | None => ret tt
                  end w2)).
  assert (H3 : forall r, In r (listen_pending w3) ->
                         In r (listen_pending w2) /\ _receive_task (transport w2) <> Some r).
  { subst w3. intros r. destruct (_receive_task (transport w2)) as [i|]; cbn [snd ret].
    - unfold bind, set_receive_task, modify, with_transport. cbn [fst snd].
      intros H. destruct (listen_pending_cancelled i w2 r H) as [Ha Hb].
      split; [exact Ha | congruence].
    - intros H. split; [exact H | discriminate]. }
  intros H.
  assert (H' : In id (listen_pending w3)).
  { destruct (_ws (transport w3)); [|exact H].
    destruct (handle_is self (_idle_timer (transport w1))
              || handle_is self (_receive_task (transport w2))); exact H. }
  destruct (H3 id H') as [Ha Hb]. split.
  - apply L1, L2, Ha.
  - rewrite <- R1, <- R2. exact Hb.
Qed.

Lemma held_disconnect_inside self reason w :
  held w -> held (exec (disconnect_inside self reason) w).
Proof.
  intros [H1 H2].
  destruct (disconnect_inside_effect self reason w) as (_ & _ & _ & _ & Hs & _). split.
  - intros id Hin. destruct (disconnect_inside_listen self reason w id Hin) as [Ha Hb].
    exfalso. apply Hb. apply H1, Ha.
  - rewrite Hs. intros Ha. exfalso.
    destruct (_state (handshake (transport w))); discriminate.
Qed.

Lemma held_dialled c w : held w -> _ws (transport w) = None -> held (dialled c w).
Proof.
  intros Hw Hn. pose proof (held_quiet reset w steady_reset mute_reset Hw) as [H1 H2].
  destruct (steady_reset w) as (W1 & _).
  assert (Hl : listen_pending (snd (reset w)) = []).
  { destruct (listen_pending (snd (reset w))) as [|i l] eqn:E; [reflexivity|].
    exfalso. destruct (H1 i (or_introl eq_refl)) as [_ Hc]. apply Hc. congruence. }
  split.
  - intros id. unfold dialled, set_receive_task, set_ws, modify, with_transport.
    cbn [fst snd]. intros Hin.
    change (In id (listen_pending
                     (snd (create_task ListenTask
                             {| loop := loop (snd (reset w));
                                transport := {| _ws := Some c;
                                                handshake := handshake (transport (snd (reset w)));
                                                _message_listeners := _message_listeners (transport (snd (reset w)));
                                                _receive_task := _receive_task (transport (snd (reset w)));
                                                _idle_timer := _idle_timer (transport (snd (reset w))) |};
                                calls := calls (snd (reset w)) |})))) in Hin.
    rewrite listen_pending_created in Hin. unfold listen_pending at 1 in Hin.
    cbn [loop] in Hin. fold (listen_pending (snd (reset w))) in Hin. rewrite Hl in Hin.
    cbn in Hin. destruct Hin as [<-|[]]. split; [reflexivity | discriminate].
  - intros _. unfold dialled. cbn. discriminate.
Qed.

Lemma held_connect dial api_key w :
  held w -> held (exec (connect IDLE_TIMEOUT incognito json_dumps dial api_key) w).
Proof.
  intros Hw. unfold exec, connect, bind, gets. cbn [fst snd].
  destruct (_ws (transport w)) as [c0|] eqn:E; [exact Hw|].
  destruct dial as [c|e].
  - unfold ret. cbn [fst snd].
    change (snd (set_receive_task _ _)) with (dialled c w).
    pose proof (held_dialled c w Hw E) as Hd.
    destruct (dialled_effect c w) as (W2 & _).
    destruct (String.eqb api_key "").
    + cbn [fst snd]. apply (held_disconnect _ _ Hd).
    + cbn [fst snd].
      pose (k := _send_json IDLE_TIMEOUT json_dumps (build_hello api_key "api_key" incognito) ;;
                 transition_to AUTHENTICATING).
      change (held (snd (k (dialled c w)))).
      apply held_steady; [|exact Hd|].
      * unfold k. apply steady_bind; [apply steady_send_json | intros _; auto with steady].
      * intros _. right. rewrite W2. discriminate.
  - unfold ret. cbn [fst snd].
    apply (held_disconnect e (snd (reset w))).
    apply (held_quiet reset w steady_reset mute_reset Hw).
Qed.

Lemma step_held e w w' :
  held w ->
  step IDLE_TIMEOUT incognito json_loads json_dumps e w = Some w' ->
  held w'.
Proof.
  intros Hw Hstep.
  assert (Hq : forall A (c : M A), steady c -> mute c -> Some (exec c w) = Some w' -> held w').
  { intros A c Hc Hm [= <-]. apply held_quiet; assumption. }
  destruct e as [cb|cb|dial api_key|chunk|data|reason|data|rid|id|d]; cbn [step] in Hstep.
  - apply (Hq _ (add_listener cb)); auto with steady mute.
  - apply (Hq _ (add_message_listener cb)); auto with steady mute.
  - injection Hstep as <-. unfold exec, ensure_connected, bind, state, gets. cbn [fst snd].
    destruct (state_eqb (_state (handshake (transport w))) AUTHENTICATED); [exact Hw|].
    apply held_connect, Hw.
  - injection Hstep as <-. apply held_steady; [apply steady_send_audio | exact Hw|].
    intros Ha. left.
    destruct (state_eqb (_state (handshake (transport w))) AUTHENTICATED) eqn:E.
    + apply state_eqb_eq, E.
    + apply (mute_back (send_audio IDLE_TIMEOUT chunk) w); [|exact Ha].
      apply mute_send_audio.
  - apply (Hq _ (_send_json IDLE_TIMEOUT json_dumps data));
      [apply steady_send_json | apply mute_send_json | exact Hstep].
  - injection Hstep as <-. apply held_disconnect, Hw.
  - destruct (listening w) eqn:El; [|discriminate]. injection Hstep as <-.
    apply held_steady; [apply steady_handle_raw_message | exact Hw|].
    intros _. right. destruct (listening_pending w El) as [id Hid].
    apply (proj1 Hw id Hid).
  - destruct (lookup_task rid (loop w)) as [[at_|at_|]|]; try discriminate.
    injection Hstep as <-. unfold exec, bind. cbn [fst snd].
    pose proof (held_quiet (cancel rid) w (steady_cancel rid) (mute_cancel rid) Hw) as Hc.
    apply (held_disconnect_inside _ _ _ Hc).
  - destruct (lookup_task id (loop w)) as [[at_|at_|]|]; try discriminate;
      destruct (at_ <=? clock (loop w)); try discriminate.
    + apply (Hq _ (cancel id ;; _timeout_coro_wakes)); [| |exact Hstep].
      * apply steady_bind; [auto with steady | intros _; auto with steady].
      * apply mute_bind; [auto with mute | intros _; auto with mute].
    + injection Hstep as <-. unfold exec, bind. cbn [fst snd].
      pose proof (held_quiet (cancel id) w (steady_cancel id) (mute_cancel id) Hw) as Hc.
      unfold _timeout_wakes, bind, gets. cbn [fst snd].
      destruct (_ws (transport (snd (cancel id w)))); [|exact Hc].
      apply (held_disconnect_inside _ _ _ Hc).
  - destruct ((0 <=? d) && none_due_before (clock (loop w) + d) (loop w)); [|discriminate].
    apply (Hq _ (advance d)); auto with steady mute.
Qed.

Lemma run_held es w w' :
  held w ->
  run IDLE_TIMEOUT incognito json_loads json_dumps es w = Some w' ->
  held w'.
Proof.
  revert w. induction es as [|e es IH]; intros w Hw Hrun.
  - injection Hrun as <-. exact Hw.
  - cbn [run] in Hrun.
    destruct (step IDLE_TIMEOUT incognito json_loads json_dumps e w) as [w1|] eqn:E;
      [|discriminate].
    apply (IH w1); [|exact Hrun]. apply (step_held e w w1 Hw E).
Qed.

Lemma held_init : held init.
Proof. split; [intros id [] | discriminate]. Qed.

Lemma send_audio_sends chunk c w :
  _state (handshake (transport w)) = AUTHENTICATED ->
  _ws (transport w) = Some c ->
  calls (exec (send_audio IDLE_TIMEOUT chunk) w) = calls w ++ [WsSend c (Binary chunk)].
Proof.
  intros Hs Hc. unfold exec, send_audio, can_send_audio, bind, state, gets, ret.
  cbn [fst snd]. rewrite Hs, Hc. cbn [state_eqb fst snd].
  destruct (reset_idle_timer_frame IDLE_TIMEOUT w) as (_ & _ & _ & C).
  unfold call, modify. cbn [fst snd calls]. rewrite C. reflexivity.
Qed.



End Held.



(** *** Statements that make no call on the socket *)

Lemma offline_same {A} (c : M A) :
  (forall w, calls (snd (c w)) = calls w) -> offline c.
Proof. intros H w. rewrite H. reflexivity. Qed.

Lemma offline_ret {A} (a : A) : offline (ret a).
Proof. apply offline_same; reflexivity. Qed.

Lemma offline_gets {A} (f : World -> A) : offline (gets f).
Proof. apply offline_same; reflexivity. Qed.

Lemma offline_bind {A B} (c : M A) (k : A -> M B) :
  offline c -> (forall a, offline (k a)) -> offline (bind c k).
Proof. intros Hc Hk w. unfold bind. rewrite Hk, Hc. reflexivity. Qed.

Lemma offline_if {A} (b : bool) (c d : M A) : offline c -> offline d -> offline (if b then c else d).
Proof. destruct b; auto. Qed.

Lemma offline_for_each {A} (l : list A) (body : A -> M unit) :
  (forall x, offline (body x)) -> offline (for_each l body).
Proof.
  intros H. induction l as [|x l IH]; simpl.
  - apply offline_ret.
  - apply offline_bind; [apply H | intros _; exact IH].
Qed.

Lemma offline_call c : on_socket c = false -> offline (call c).
Proof.
  intros H w. unfold call, modify, socket_calls. cbn. rewrite filter_app. cbn.
  rewrite H. apply app_nil_r.
Qed.

Lemma offline_notify l s : offline (call (Notify l s)).
Proof. apply offline_call; reflexivity. Qed.

Lemma offline_deliver cb msg : offline (call (Deliver cb msg)).
Proof. apply offline_call; reflexivity. Qed.

Lemma offline_set_state s : offline (set_state s).
Proof. apply offline_same; reflexivity. Qed.

Lemma offline_set_timeout_task t : offline (set_timeout_task t).
Proof. apply offline_same; reflexivity. Qed.

Lemma offline_set_idle_timer i : offline (set_idle_timer i).
Proof. apply offline_same; reflexivity. Qed.

Lemma offline_cancel id : offline (cancel id).
Proof. apply offline_same; reflexivity. Qed.

Lemma offline_create_task t : offline (create_task t).
Proof. apply offline_same; reflexivity. Qed.

Lemma offline_now : offline now.
Proof. apply offline_same; reflexivity. Qed.

Lemma offline_state : offline state.
Proof. apply offline_same; reflexivity. Qed.

Create HintDb offline.
#[local] Hint Resolve offline_ret offline_gets offline_notify offline_deliver
  offline_set_state offline_set_timeout_task offline_set_idle_timer
  offline_cancel offline_create_task offline_now offline_state : offline.

Ltac offline_tac :=
  repeat first
    [ progress (intros)
    | solve [auto with offline]
    | apply offline_bind
    | apply offline_for_each
    | apply offline_if
    | match goal with
      | |- offline (match ?x with _ => _ end) => destruct x
      end ].

Lemma offline_transition_to s : offline (transition_to s).
Proof. unfold transition_to, _start_timeout, _cancel_timeout. offline_tac. Qed.

Section Frames.
Variable IDLE_TIMEOUT : Z.
Variable json_loads : string -> option pyval.

Lemma offline_handle_raw_message data :
  offline (_handle_raw_message IDLE_TIMEOUT json_loads data).
Proof.
  unfold _handle_raw_message. destruct data as [s|b]; [|auto with offline].
  apply offline_bind; [unfold _reset_idle_timer; offline_tac|]. intros _.
  destruct (json_loads s) as [[| | | | | |msg]|]; auto with offline.
  cbv zeta.
  apply offline_if; [auto with offline|].
  apply offline_if; [apply offline_transition_to|].
  unfold notify_message_listeners.
  apply offline_if.
  - apply offline_bind; [|offline_tac].
    apply offline_if; [|auto with offline].
    apply offline_bind; [apply offline_transition_to|]. intros _.
    apply offline_if; [apply offline_transition_to | auto with offline].
  - offline_tac.
Qed.

(** What a frame with the event [authenticated] does. *)
Lemma accepted_frame data w :
  accepts json_loads (EvRecv data) = true ->
  exec (_handle_raw_message IDLE_TIMEOUT json_loads data) w
  = exec (transition_to AUTHENTICATED) (snd (_reset_idle_timer IDLE_TIMEOUT w)).
Proof.
  intros Ha. destruct data as [s|b]; [|discriminate]. cbn in Ha.
  unfold exec, _handle_raw_message, bind. cbn [fst snd].
  destruct (json_loads s) as [[| | | | | |msg]|]; try discriminate.
  cbv zeta. rewrite Ha.
  apply py_eq_str_eq in Ha. rewrite Ha. reflexivity.
Qed.


End Frames.


End GateLaws.

(** ** The handshake timeout in runs of the service *)

Module TimeoutLaws.
Import Transport TransportFacts HandshakeLaws.
Local Open Scope string_scope.
Local Open Scope list_scope.
Local Open Scope Z_scope.

Lemma keeps_ret I {A} (a : A) : keeps I (ret a).
Proof. intros w H. exact H. Qed.

Lemma keeps_gets I {A} (f : World -> A) : keeps I (gets f).
Proof. intros w H. exact H. Qed.

Lemma keeps_bind I {A B} (c : M A) (k : A -> M B) :
  keeps I c -> (forall a, keeps I (k a)) -> keeps I (bind c k).
Proof. intros Hc Hk w H. unfold bind. apply Hk, Hc, H. Qed.

Lemma keeps_if I {A} (b : bool) (c d : M A) : keeps I c -> keeps I d -> keeps I (if b then c else d).
Proof. destruct b; auto. Qed.

Lemma keeps_for_each I {A} (l : list A) (body : A -> M unit) :
  (forall x, keeps I (body x)) -> keeps I (for_each l body).
Proof.
  intros H. induction l as [|x l IH]; simpl.
  - apply keeps_ret.
  - apply keeps_bind; [apply H | intros _; exact IH].
Qed.

Lemma timeout_pending_cancelled id w r at_ :
  In (r, at_) (timeout_pending (snd (cancel id w))) ->
  In (r, at_) (timeout_pending w) /\ r <> id.
Proof.
  unfold timeout_pending, cancel, modify, with_loop. cbn.
  induction (pending (loop w)) as [|[i t] l IH]; cbn; [tauto|].
  destruct (Nat.eqb i id) eqn:E; cbn.
  - intros H. destruct (IH H) as [H1 H2]. split; [|exact H2].
    apply in_or_app. right. exact H1.
  - intros H. apply in_app_or in H as [H|H].
    + split; [apply in_or_app; left; exact H|].
      destruct t; cbn in H; try contradiction. destruct H as [[= <- <-]|[]].
      intros ->. rewrite Nat.eqb_refl in E. discriminate.
    + destruct (IH H) as [H1 H2]. split; [|exact H2].
      apply in_or_app. right. exact H1.
Qed.

Lemma timeout_pending_created t w :
  timeout_pending (snd (create_task t w))
  = timeout_pending w
    ++ match t with TimeoutTask at_ => [(next_id (loop w), at_)] | _ => [] end.
Proof.
  unfold timeout_pending, create_task, with_loop. cbn. rewrite flat_map_app. cbn.
  destruct t; reflexivity.
Qed.

(** Statements that touch neither the clock nor what the handshake holds,
    and arm no timeout. *)
Lemma timed_calm d {A} (c : M A) :
  (forall w, _timeout_duration (handshake (transport (snd (c w))))
             = _timeout_duration (handshake (transport w))
             /\ _timeout_task (handshake (transport (snd (c w))))
                = _timeout_task (handshake (transport w))
             /\ _state (handshake (transport (snd (c w))))
                = _state (handshake (transport w))
             /\ clock (loop (snd (c w))) = clock (loop w)
             /\ incl (timeout_pending (snd (c w))) (timeout_pending w)) ->
  keeps (timed d) c.
Proof.
  intros H w (Hd & H0 & Hw). destruct (H w) as (D & T & S & K & P).
  split; [congruence|]. split; [exact H0|].
  intros id at_ Hin. rewrite T, S, K. apply Hw, P, Hin.
Qed.

Lemma timed_same d {A} (c : M A) :
  (forall w, handshake (transport (snd (c w))) = handshake (transport w)
             /\ loop (snd (c w)) = loop w) ->
  keeps (timed d) c.
Proof.
  intros H. apply timed_calm. intros w. destruct (H w) as [Hh Hl].
  unfold timeout_pending. rewrite Hh, Hl. repeat split. apply incl_refl.
Qed.

Lemma timed_call d c : keeps (timed d) (call c).
Proof. apply timed_same; intros w; split; reflexivity. Qed.

Lemma timed_set_ws d c : keeps (timed d) (set_ws c).
Proof. apply timed_same; intros w; split; reflexivity. Qed.

Lemma timed_set_receive_task d r : keeps (timed d) (set_receive_task r).
Proof. apply timed_same; intros w; split; reflexivity. Qed.

Lemma timed_set_idle_timer d i : keeps (timed d) (set_idle_timer i).
Proof. apply timed_same; intros w; split; reflexivity. Qed.

Lemma timed_add_message_listener d cb : keeps (timed d) (add_message_listener cb).
Proof. apply timed_same; intros w; split; reflexivity. Qed.

Lemma timed_add_listener d cb : keeps (timed d) (add_listener cb).
Proof. apply timed_calm; intros w; repeat split. apply incl_refl. Qed.

Lemma timed_cancel d id : keeps (timed d) (cancel id).
Proof.
  apply timed_calm; intros w; repeat split.
  intros [r at_] H. apply (timeout_pending_cancelled id w r at_ H).
Qed.

Lemma timed_create_idle d at_ : keeps (timed d) (create_task (IdleTask at_)).
Proof.
  apply timed_calm; intros w; repeat split.
  rewrite timeout_pending_created, app_nil_r. apply incl_refl.
Qed.

Lemma timed_create_listen d : keeps (timed d) (create_task ListenTask).
Proof.
  apply timed_calm; intros w; repeat split.
  rewrite timeout_pending_created, app_nil_r. apply incl_refl.
Qed.

(** [_cancel_timeout] leaves no timeout armed, when each armed one is
    under the handle held. *)
Lemma cancel_timeout_clears w :
  (forall id at_, In (id, at_) (timeout_pending w) ->
                  _timeout_task (handshake (transport w)) = Some id) ->
  let w' := snd (_cancel_timeout w) in
  timeout_pending w' = []
  /\ _timeout_task (handshake (transport w')) = None
  /\ _state (handshake (transport w')) = _state (handshake (transport w))
  /\ _timeout_duration (handshake (transport w')) = _timeout_duration (handshake (transport w))
  /\ loop w' = loop (snd (match _timeout_task (handshake (transport w)) with
                          | Some id => cancel id w
                          | None => (tt, w)
                          end))
  /\ clock (loop w') = clock (loop w).
Proof.
  intros H. cbv zeta. unfold _cancel_timeout, bind, gets. cbn [fst snd].
  destruct (_timeout_task (handshake (transport w))) as [t|] eqn:E.
  - unfold set_timeout_task, modify, with_transport, with_handshake. cbn [fst snd].
    split; [|repeat split].
    change (timeout_pending (snd (cancel t w)) = []).
    destruct (timeout_pending (snd (cancel t w))) as [|[r at_] l] eqn:El; [reflexivity|].
    exfalso.
    destruct (timeout_pending_cancelled t w r at_) as [Hin Hne];
      [rewrite El; left; reflexivity|].
    apply H in Hin. congruence.
  - unfold ret. cbn [fst snd]. split; [|repeat split; assumption].
    destruct (timeout_pending w) as [|[r at_] l] eqn:El; [reflexivity|].
    exfalso. specialize (H r at_ (or_introl eq_refl)). congruence.
Qed.

Lemma start_timeout_arms w :
  (forall id at_, In (id, at_) (timeout_pending w) ->
                  _timeout_task (handshake (transport w)) = Some id) ->
  let w' := snd (_start_timeout w) in
  exists id,
    timeout_pending w'
    = [(id, clock (loop w) + _timeout_duration (handshake (transport w)))]
    /\ _timeout_task (handshake (transport w')) = Some id
    /\ _state (handshake (transport w')) = _state (handshake (transport w))
    /\ _timeout_duration (handshake (transport w')) = _timeout_duration (handshake (transport w))
    /\ clock (loop w') = clock (loop w).
Proof.
  intros H. cbv zeta. unfold _start_timeout, bind, now, gets. cbn [fst snd].
  destruct (cancel_timeout_clears w H) as (P & T & S & D & _ & K). cbv zeta in *.
  set (w1 := snd (_cancel_timeout w)) in *.
  exists (next_id (loop w1)).
  unfold set_timeout_task, modify, with_transport, with_handshake. cbn [fst snd].
  split; [|repeat split; assumption].
  change (timeout_pending
            (snd (create_task (TimeoutTask (clock (loop w1)
                                            + _timeout_duration (handshake (transport w1)))) w1))
          = [(next_id (loop w1), clock (loop w) + _timeout_duration (handshake (transport w)))]).
  rewrite timeout_pending_created, P, K, D. reflexivity.
Qed.

Lemma timed_handle d w :
  timed d w ->
  forall id at_, In (id, at_) (timeout_pending w) ->
                 _timeout_task (handshake (transport w)) = Some id.
Proof. intros (_ & _ & H) id at_ Hin. apply (H id at_ Hin). Qed.

Lemma timed_cancel_timeout d : keeps (timed d) _cancel_timeout.
Proof.
  intros w Hw. destruct (cancel_timeout_clears w (timed_handle d w Hw)) as (P & T & S & D & _ & K).
  cbv zeta in *. destruct Hw as (Hd & H0 & _).
  split; [congruence|]. split; [exact H0|]. rewrite P. intros id at_ [].
Qed.

Lemma timed_transition_to d s : keeps (timed d) (transition_to s).
Proof.
  intros w Hw. unfold transition_to, bind, state, gets. cbn [fst snd].
  destruct (state_eqb (_state (handshake (transport w))) s) eqn:E1; [exact Hw|].
  destruct (_is_valid_transition (_state (handshake (transport w))) s);
    cbn [negb]; [|exact Hw].
  unfold set_state, modify, with_transport, with_handshake. cbn [fst snd].
  rewrite for_each_notify. cbn [fst snd loop transport handshake _listeners].
  match goal with
  | |- timed d (snd (_ ?W)) => set (w1 := W)
  end.
  assert (H1 : forall id at_, In (id, at_) (timeout_pending w1) ->
                              _timeout_task (handshake (transport w1)) = Some id).
  { intros id at_ Hin. apply (timed_handle d w Hw id at_ Hin). }
  destruct Hw as (Hd & H0 & _).
  destruct (state_eqb s AUTHENTICATING) eqn:E3.
  - apply state_eqb_eq in E3.
    destruct (start_timeout_arms w1 H1) as (id & P & T & S & D & K). cbv zeta in *.
    split; [rewrite D; exact Hd|]. split; [exact H0|].
    set (a := clock (loop w1) + _timeout_duration (handshake (transport w1))) in P.
    assert (Ha : a = clock (loop w) + d) by (subst a; rewrite <- Hd; reflexivity).
    assert (K1 : clock (loop w1) = clock (loop w)) by reflexivity.
    clearbody a.
    intros r at_ Hin. rewrite P in Hin. destruct Hin as [[= <- <-]|[]].
    split; [exact T|]. split; [rewrite S; exact E3|].
    rewrite K, K1. lia.
  - destruct (cancel_timeout_clears w1 H1) as (P & T & S & D & _ & K). cbv zeta in *.
    split; [rewrite D; exact Hd|]. split; [exact H0|].
    rewrite P. intros r at_ [].
Qed.

Create HintDb timed.
#[local] Hint Resolve keeps_ret keeps_gets timed_call timed_set_ws timed_set_receive_task
  timed_set_idle_timer timed_add_message_listener timed_add_listener
  timed_cancel timed_create_idle timed_create_listen timed_cancel_timeout
  timed_transition_to : timed.

Ltac timed_tac :=
  repeat first
    [ progress (intros)
    | solve [auto with timed]
    | apply keeps_bind
    | apply keeps_for_each
    | apply keeps_if
    | match goal with
      | |- keeps _ (match ?x with _ => _ end) => destruct x
      end ].

Lemma timed_reset d : keeps (timed d) reset.
Proof. unfold reset. timed_tac. Qed.
#[local] Hint Resolve timed_reset : timed.

Lemma timed_timeout_coro_wakes d : keeps (timed d) _timeout_coro_wakes.
Proof. unfold _timeout_coro_wakes, state. timed_tac. Qed.
#[local] Hint Resolve timed_timeout_coro_wakes : timed.

Lemma timed_disconnect d reason : keeps (timed d) (disconnect reason).
Proof. unfold disconnect. timed_tac. Qed.
#[local] Hint Resolve timed_disconnect : timed.

Lemma timed_disconnect_inside d self reason : keeps (timed d) (disconnect_inside self reason).
Proof. unfold disconnect_inside. timed_tac. Qed.
#[local] Hint Resolve timed_disconnect_inside : timed.

Lemma timed_timeout_wakes d self : keeps (timed d) (_timeout_wakes self).
Proof. unfold _timeout_wakes. timed_tac. Qed.
#[local] Hint Resolve timed_timeout_wakes : timed.

Section Runs.
Variable IDLE_TIMEOUT : Z.
Variable incognito : bool.
Variable json_loads : string -> option pyval.
Variable json_dumps : pyval -> string.

Lemma timed_reset_idle_timer d : keeps (timed d) (_reset_idle_timer IDLE_TIMEOUT).
Proof. unfold _reset_idle_timer, now. timed_tac. Qed.
#[local] Hint Resolve timed_reset_idle_timer : timed.

Lemma timed_send_json d data : keeps (timed d) (_send_json IDLE_TIMEOUT json_dumps data).
Proof. unfold _send_json. timed_tac. Qed.
#[local] Hint Resolve timed_send_json : timed.

Lemma timed_send_audio d chunk : keeps (timed d) (send_audio IDLE_TIMEOUT chunk).
Proof. unfold send_audio, can_send_audio, state. timed_tac. Qed.

Lemma timed_handle_raw_message d data :
  keeps (timed d) (_handle_raw_message IDLE_TIMEOUT json_loads data).
Proof.
  unfold _handle_raw_message, notify_message_listeners.
  destruct data as [s|b]; [|auto with timed].
  apply keeps_bind; [auto with timed|]. intros _.
  destruct (json_loads s) as [[| | | | | |msg]|]; auto with timed.
  cbv zeta. timed_tac.
Qed.

Lemma timed_ensure_connected d dial api_key :
  keeps (timed d) (ensure_connected IDLE_TIMEOUT incognito json_dumps dial api_key).
Proof. unfold ensure_connected, connect, state. timed_tac. Qed.

Lemma none_due_timeout t w id at_ :
  none_due_before t (loop w) = true -> In (id, at_) (timeout_pending w) -> t <= at_.
Proof.
  unfold none_due_before, timeout_pending. intros H Hin.
  apply in_flat_map in Hin as ([i k] & Hp & Hk).
  rewrite forallb_forall in H. specialize (H _ Hp). cbn [snd fst] in *.
  destruct k; cbn in Hk; try contradiction. destruct Hk as [[= <- <-]|[]].
  apply Z.leb_le, H.
Qed.

Lemma step_timed d e w w' :
  timed d w ->
  step IDLE_TIMEOUT incognito json_loads json_dumps e w = Some w' ->
  timed d w'.
Proof.
  intros Hw Hstep.
  assert (Hk : forall A (c : M A), keeps (timed d) c -> Some (exec c w) = Some w' -> timed d w').
  { intros A c Hc [= <-]. apply Hc, Hw. }
  destruct e as [cb|cb|dial api_key|chunk|data|reason|data|rid|id|t]; cbn [step] in Hstep.
  - apply (Hk _ (add_listener cb)); auto with timed.
  - apply (Hk _ (add_message_listener cb)); auto with timed.
  - apply (Hk _ _ (timed_ensure_connected d dial api_key) Hstep).
  - apply (Hk _ _ (timed_send_audio d chunk) Hstep).
  - apply (Hk _ _ (timed_send_json d data) Hstep).
  - apply (Hk _ _ (timed_disconnect d reason) Hstep).
  - destruct (listening w); [|discriminate].
    apply (Hk _ _ (timed_handle_raw_message d data) Hstep).
  - destruct (lookup_task rid (loop w)) as [[at_|at_|]|]; try discriminate.
    apply (Hk _ (cancel rid ;; _listen_loop_closed rid));
      [unfold _listen_loop_closed; timed_tac | exact Hstep].
  - destruct (lookup_task id (loop w)) as [[at_|at_|]|]; try discriminate;
      destruct (at_ <=? clock (loop w)); try discriminate.
    + apply (Hk _ (cancel id ;; _timeout_coro_wakes)); [timed_tac | exact Hstep].
    + apply (Hk _ (cancel id ;; _timeout_wakes id)); [timed_tac | exact Hstep].
  - destruct (0 <=? t) eqn:E0; [|discriminate]. cbn [andb] in Hstep.
    destruct (none_due_before (clock (loop w) + t) (loop w)) eqn:En; [|discriminate].
    injection Hstep as <-. apply Z.leb_le in E0.
    destruct Hw as (Hd & H0 & Hw). split; [exact Hd|]. split; [exact H0|].
    intros id at_ Hin.
    change (timeout_pending (exec (advance t) w)) with (timeout_pending w) in Hin.
    destruct (Hw id at_ Hin) as (T & S & K).
    pose proof (none_due_timeout _ w id at_ En Hin) as Hdue.
    split; [exact T|]. split; [exact S|].
    change (clock (loop (exec (advance t) w))) with (clock (loop w) + t). lia.
Qed.

Lemma run_timed d es : forall w w',
  timed d w ->
  run IDLE_TIMEOUT incognito json_loads json_dumps es w = Some w' ->
  timed d w'.
Proof.
  induction es as [|e es IH]; intros w w' Hw Hrun.
  - injection Hrun as <-. exact Hw.
  - cbn [run] in Hrun.
    destruct (step IDLE_TIMEOUT incognito json_loads json_dumps e w) as [w1|] eqn:E;
      [|discriminate].
    apply (IH w1); [|exact Hrun]. apply (step_timed d e w w1 Hw E).
Qed.

Lemma timed_init : timed 15 init.
Proof. split; [reflexivity|]. split; [lia|]. intros id at_ []. Qed.

Lemma lookup_timeout_pending id at_ w :
  lookup_task id (loop w) = Some (TimeoutTask at_) -> In (id, at_) (timeout_pending w).
Proof.
  unfold lookup_task, timeout_pending. intros H.
  match type of H with
  | option_map snd ?F = _ => destruct F as [[i k]|] eqn:E; [|discriminate]
  end.
  cbn in H. injection H as ->. apply find_some in E as [Hin Hi].
  cbn in Hi. apply Nat.eqb_eq in Hi. subst i.
  apply in_flat_map. exists (id, TimeoutTask at_). split; [exact Hin|]. left. reflexivity.
Qed.

(** X13: in every run of the service from its initial state, a handshake
    timeout is pending only while the handshake is [AUTHENTICATING], under
    the handle the state machine holds, and is due within the 15 seconds
    of the handshake; so when its sleep ends the handshake becomes
    [FAILED]. *)
Theorem pending_timeout_fails_the_handshake (es : list Event) (w : World)
  (id : TaskId) (at_ : Z) :
  run IDLE_TIMEOUT incognito json_loads json_dumps es init = Some w ->
  lookup_task id (loop w) = Some (TimeoutTask at_) ->
  _state (handshake (transport w)) = AUTHENTICATING
  /\ _timeout_task (handshake (transport w)) = Some id
  /\ clock (loop w) <= at_ <= clock (loop w) + 15
  /\ forall w', step IDLE_TIMEOUT incognito json_loads json_dumps (EvWake id) w = Some w' ->
                _state (handshake (transport w')) = FAILED.
Proof.
  intros Hrun Hl. pose proof (run_timed 15 es init w timed_init Hrun) as (_ & _ & Hw).
  destruct (Hw id at_ (lookup_timeout_pending id at_ w Hl)) as (T & S & K).
  split; [exact S|]. split; [exact T|]. split; [exact K|].
  intros w' Hstep. cbn [step] in Hstep. rewrite Hl in Hstep.
  destruct (at_ <=? clock (loop w)); [|discriminate]. injection Hstep as <-.
  unfold exec, bind. cbn [fst snd].
  assert (Sc : _state (handshake (transport (snd (cancel id w)))) = AUTHENTICATING) by exact S.
  unfold _timeout_coro_wakes, bind, state, gets. cbn [fst snd]. rewrite Sc. cbn [state_eqb].
  destruct (transition_to_effect FAILED (snd (cancel id w))) as (S2 & _).
  unfold exec in S2. rewrite S2, Sc. reflexivity.
Qed.

End Runs.

Lemma pending_timeout_witness :
  exists w, example_run [EvEnsureConnected (Dialled 7%nat) "key"; EvElapse 15] init = Some w
            /\ _state (handshake (transport w)) = AUTHENTICATING
            /\ exists w', example_run [EvWake 2%nat] w = Some w'
                          /\ _state (handshake (transport w')) = FAILED.
Proof.
  eexists. split; [vm_compute; reflexivity|].
  match goal with
  | |- _ (handshake (transport ?W)) = _ /\ _ =>
    destruct (pending_timeout_fails_the_handshake 300 false example_loads example_dumps
                [EvEnsureConnected (Dialled 7%nat) "key"; EvElapse 15] W 2%nat 15)
      as (S & _ & _ & F); [vm_compute; reflexivity | vm_compute; reflexivity |]
  end.
  split; [exact S|].
  eexists. split; [vm_compute; reflexivity|].
  apply F. vm_compute. reflexivity.
Defined.

End TimeoutLaws.

(** ** The recording controller *)

Module ControllerLaws.
Import Transport TransportFacts GateLaws Controller.
Local Open Scope string_scope.
Local Open Scope list_scope.
Local Open Scope Z_scope.

Section Session.
Variable IDLE_TIMEOUT : Z.
Variable json_dumps : pyval -> string.

(** A chunk sent on an authenticated session: all that changes beside the
    idle timer is the call made. *)
Lemma send_audio_effect chunk c w :
  _state (handshake (Transport.transport w)) = AUTHENTICATED ->
  _ws (Transport.transport w) = Some c ->
  let w' := exec (send_audio IDLE_TIMEOUT chunk) w in
  calls w' = calls w ++ [WsSend c (Binary chunk)]
  /\ handshake (Transport.transport w') = handshake (Transport.transport w)
  /\ _ws (Transport.transport w') = Some c.
Proof.
  intros Hs Hc. cbv zeta. split; [apply send_audio_sends; assumption|].
  unfold exec, send_audio, can_send_audio, bind, state, gets, ret.
  cbn [fst snd]. rewrite Hs, Hc. cbn [state_eqb fst snd].
  destruct (reset_idle_timer_frame IDLE_TIMEOUT w) as (H1 & _ & W1 & _).
  unfold call, modify. cbn [fst snd Transport.transport]. rewrite H1, W1. auto.
Qed.

Lemma send_all_effect l : forall c w,
  _state (handshake (Transport.transport w)) = AUTHENTICATED ->
  _ws (Transport.transport w) = Some c ->
  forall m,
  let w' := fold_left (fun w chunk => send_callback IDLE_TIMEOUT chunk m w) l w in
  calls w' = calls w ++ map (fun chunk => WsSend c (Binary chunk)) l
  /\ handshake (Transport.transport w') = handshake (Transport.transport w)
  /\ _ws (Transport.transport w') = Some c.
Proof.
  induction l as [|x l IH]; intros c w Hs Hc m; cbn [fold_left map].
  - rewrite app_nil_r. auto.
  - destruct (send_audio_effect x c w Hs Hc) as (C1 & H1 & W1).
    change (send_callback IDLE_TIMEOUT x m w) with (exec (send_audio IDLE_TIMEOUT x) w).
    destruct (IH c (exec (send_audio IDLE_TIMEOUT x) w)) with (m := m) as (C2 & H2 & W2).
    + rewrite H1. exact Hs.
    + exact W1.
    + cbv zeta in *. rewrite C2, C1, H2, H1, <- app_assoc. auto.
Qed.

Lemma is_empty_buffer m : AudioBuffer.is_empty m = true <-> AudioBuffer._buffer m = [].
Proof.
  unfold AudioBuffer.is_empty, AudioBuffer.count. rewrite Z.eqb_eq.
  destruct (AudioBuffer._buffer m); cbn [length]; split; intros H;
    try reflexivity; try discriminate; lia.
Qed.

Lemma pipe_authenticated chunk c rc :
  handshake_state rc = AUTHENTICATED ->
  _ws (Transport.transport (transport rc)) = Some c ->
  let rc' := _process_audio_pipe IDLE_TIMEOUT chunk rc in
  calls (transport rc')
  = calls (transport rc)
    ++ map (fun ch => WsSend c (Binary ch))
           (AudioBuffer._buffer (buffer_manager rc) ++ [chunk])
  /\ AudioBuffer._buffer (buffer_manager rc') = []
  /\ handshake_state rc' = AUTHENTICATED
  /\ _ws (Transport.transport (transport rc')) = Some c.
Proof.
  intros Hs Hc. cbv zeta. unfold _process_audio_pipe, handshake_state in *.
  rewrite Hs. cbn [state_eqb].
  destruct (AudioBuffer.is_empty (buffer_manager rc)) eqn:E;
    cbn [negb fst snd transport buffer_manager].
  - apply is_empty_buffer in E. rewrite E. cbn [app map].
    destruct (send_audio_effect chunk c (transport rc) Hs Hc) as (C1 & H1 & W1).
    rewrite C1, H1, W1. auto.
  - assert (En : AudioBuffer._buffer (buffer_manager rc) <> []).
    { intros H. apply is_empty_buffer in H. congruence. }
    unfold AudioBuffer.flush.
    destruct (AudioBuffer._buffer (buffer_manager rc)) as [|x l] eqn:Eb; [contradiction|].
    cbn [fst snd AudioBuffer._buffer AudioBuffer._is_buffering].
    destruct (send_all_effect (x :: l) c (transport rc) Hs Hc
                {| AudioBuffer._buffer := []; AudioBuffer._is_buffering := false |})
      as (C1 & H1 & W1).
    cbv zeta in C1, H1, W1.
    set (w1 := fold_left _ (x :: l) (transport rc)) in *.
    destruct (send_audio_effect chunk c w1) as (C2 & H2 & W2);
      [rewrite H1; exact Hs | exact W1 |].
    cbv zeta in C2, H2, W2.
    rewrite C2, C1, H2, H1, W2, map_app, <- app_assoc. auto.
Qed.

(** X14: a turn of the pipe on an authenticated session with a socket
    hands the buffered chunks, oldest first, and then the new chunk to the
    socket, one binary frame each, and leaves the buffer empty; the
    manager stops buffering if it held anything. *)
Theorem pipe_sends_backlog_then_chunk (chunk : bytes) (c : Conn) (rc : RecordingController) :
  handshake_state rc = AUTHENTICATED ->
  _ws (Transport.transport (transport rc)) = Some c ->
  let rc' := _process_audio_pipe IDLE_TIMEOUT chunk rc in
  calls (transport rc')
  = calls (transport rc)
    ++ map (fun ch => WsSend c (Binary ch))
           (AudioBuffer._buffer (buffer_manager rc) ++ [chunk])
  /\ AudioBuffer._buffer (buffer_manager rc') = []
  /\ AudioBuffer._is_buffering (buffer_manager rc')
     = AudioBuffer._is_buffering (buffer_manager rc)
       && AudioBuffer.is_empty (buffer_manager rc)
  /\ handshake_state rc' = AUTHENTICATED
  /\ _ws (Transport.transport (transport rc')) = Some c.
Proof.
  intros Hs Hc. cbv zeta.
  destruct (pipe_authenticated chunk c rc Hs Hc) as (C & B & S & W).
  split; [exact C|]. split; [exact B|]. split; [|split; [exact S | exact W]].
  (* the flush, if there is one, ends the buffering *)
  unfold _process_audio_pipe. unfold handshake_state in Hs. unfold handshake_state.
  rewrite Hs. cbn [state_eqb buffer_manager].
  destruct (AudioBuffer.is_empty (buffer_manager rc)) eqn:E; cbn [negb fst].
  - rewrite andb_true_r. reflexivity.
  - rewrite andb_false_r. unfold AudioBuffer.flush.
    destruct (AudioBuffer._buffer (buffer_manager rc)); reflexivity.
Qed.

Lemma pipe_buffers chunk rc :
  handshake_state rc <> AUTHENTICATED ->
  _process_audio_pipe IDLE_TIMEOUT chunk rc
  = {| audio := audio rc; transport := transport rc;
       buffer_manager := AudioBuffer.add chunk (buffer_manager rc);
       is_recording := is_recording rc |}.
Proof.
  intros Hs. unfold _process_audio_pipe.
  destruct (state_eqb (handshake_state rc) AUTHENTICATED) eqn:E; [|reflexivity].
  apply state_eqb_eq in E. contradiction.
Qed.

Lemma pipe_all_buffers chunks : forall rc,
  handshake_state rc <> AUTHENTICATED ->
  pipe_all IDLE_TIMEOUT chunks rc
  = {| audio := audio rc; transport := transport rc;
       buffer_manager := AudioBuffer.add_all chunks (buffer_manager rc);
       is_recording := is_recording rc |}.
Proof.
  induction chunks as [|x l IH]; intros rc Hs.
  - destruct rc; reflexivity.
  - change (pipe_all IDLE_TIMEOUT (x :: l) rc)
      with (pipe_all IDLE_TIMEOUT l (_process_audio_pipe IDLE_TIMEOUT x rc)).
    rewrite (pipe_buffers x rc Hs), IH by exact Hs. reflexivity.
Qed.

(** X15: once a flush has stopped the buffering, a chunk that comes while
    the handshake is not [AUTHENTICATED] is neither sent nor kept: the
    turn of the pipe changes nothing.  Of the handshake notifications only
    [FAILED] makes the controller buffer again. *)
Theorem chunks_are_dropped_after_a_flush (chunk : bytes) (rc : RecordingController) :
  AudioBuffer._is_buffering (buffer_manager rc) = false ->
  handshake_state rc <> AUTHENTICATED ->
  _process_audio_pipe IDLE_TIMEOUT chunk rc = rc
  /\ (forall s, s <> FAILED -> _on_handshake_state_changed s rc = rc)
  /\ AudioBuffer._buffer
       (buffer_manager
          (_process_audio_pipe IDLE_TIMEOUT chunk (_on_handshake_state_changed FAILED rc)))
     = [chunk].
Proof.
  intros Hb Hs. split; [|split].
  - rewrite (pipe_buffers chunk rc Hs). unfold AudioBuffer.add. rewrite Hb.
    destruct rc; reflexivity.
  - intros s Hn. destruct s; try reflexivity. contradiction.
  - rewrite pipe_buffers by exact Hs. reflexivity.
Qed.

Lemma send_json_effect data c w :
  _ws (Transport.transport w) = Some c ->
  calls (exec (_send_json IDLE_TIMEOUT json_dumps data) w)
  = calls w ++ [WsSend c (Text (json_dumps data))].
Proof.
  intros Hc. unfold exec, _send_json, bind, gets. cbn [fst snd]. rewrite Hc.
  destruct (reset_idle_timer_frame IDLE_TIMEOUT w) as (_ & _ & _ & C).
  unfold call, modify. cbn [fst snd calls]. rewrite C. reflexivity.
Qed.

Lemma stop_effect c rc :
  is_recording rc = true ->
  handshake_state rc = AUTHENTICATED ->
  _ws (Transport.transport (transport rc)) = Some c ->
  let rc' := _stop_recording_session IDLE_TIMEOUT json_dumps rc in
  calls (transport rc')
  = calls (transport rc)
    ++ [WsSend c (Text (json_dumps (PyDict [("event", PyStr "end-of-stream")])))]
  /\ is_recording rc' = false
  /\ AudioCapture.is_recording (audio rc') = false.
Proof.
  intros Hr Hs Hc. cbv zeta. unfold _stop_recording_session. rewrite Hr, Hs.
  cbn [negb state_eqb transport is_recording audio].
  rewrite (send_json_effect _ c _ Hc). auto.
Qed.

(** X16: [_stop_recording_session] leaves the controller not recording and
    does nothing when called again.  It hands the frame
    [{"event": "end-of-stream"}] to the socket, once, when the controller
    was recording on an authenticated session, and leaves the transport
    untouched when the controller was not recording or the handshake was
    not [AUTHENTICATED]. *)
Theorem stop_sends_end_of_stream_once (c : Conn) (rc : RecordingController) :
  let rc' := _stop_recording_session IDLE_TIMEOUT json_dumps rc in
  is_recording rc' = false
  /\ _stop_recording_session IDLE_TIMEOUT json_dumps rc' = rc'
  /\ (is_recording rc = true ->
      handshake_state rc = AUTHENTICATED ->
      _ws (Transport.transport (transport rc)) = Some c ->
      calls (transport rc')
      = calls (transport rc) ++ [WsSend c (Text (json_dumps build_end_of_stream))]
      /\ AudioCapture.is_recording (audio rc') = false)
  /\ (is_recording rc = false \/ handshake_state rc <> AUTHENTICATED ->
      transport rc' = transport rc).
Proof.
  cbv zeta. split; [|split; [|split]].
  - unfold _stop_recording_session. destruct (is_recording rc) eqn:E; [reflexivity | exact E].
  - unfold _stop_recording_session. destruct (is_recording rc) eqn:E; cbn [negb is_recording].
    + reflexivity.
    + rewrite E. reflexivity.
  - intros Hr Hs Hc. destruct (stop_effect c rc Hr Hs Hc) as (H1 & _ & H3).
    split; assumption.
  - intros H. unfold _stop_recording_session.
    destruct (is_recording rc) eqn:E; cbn [negb transport]; [|reflexivity].
    destruct H as [H|H]; [discriminate|].
    destruct (state_eqb (handshake_state rc) AUTHENTICATED) eqn:E2; [|reflexivity].
    apply state_eqb_eq in E2. contradiction.
Qed.

Lemma pipe_keeps_flags chunk rc :
  is_recording (_process_audio_pipe IDLE_TIMEOUT chunk rc) = is_recording rc
  /\ audio (_process_audio_pipe IDLE_TIMEOUT chunk rc) = audio rc.
Proof.
  unfold _process_audio_pipe.
  destruct (state_eqb (handshake_state rc) AUTHENTICATED); split; reflexivity.
Qed.

Lemma pipe_all_authenticated l : forall x c rc,
  handshake_state rc = AUTHENTICATED ->
  _ws (Transport.transport (transport rc)) = Some c ->
  let rc' := pipe_all IDLE_TIMEOUT (x :: l) rc in
  calls (transport rc')
  = calls (transport rc)
    ++ map (fun ch => WsSend c (Binary ch))
           (AudioBuffer._buffer (buffer_manager rc) ++ x :: l)
  /\ AudioBuffer._buffer (buffer_manager rc') = []
  /\ handshake_state rc' = AUTHENTICATED
  /\ _ws (Transport.transport (transport rc')) = Some c
  /\ is_recording rc' = is_recording rc.
Proof.
  induction l as [|y l IH]; intros x c rc Hs Hc; cbv zeta.
  - destruct (pipe_authenticated x c rc Hs Hc) as (C & B & S & W).
    destruct (pipe_keeps_flags x rc) as [R _].
    cbn [pipe_all fold_left]. auto.
  - change (pipe_all IDLE_TIMEOUT (x :: y :: l) rc)
      with (pipe_all IDLE_TIMEOUT (y :: l) (_process_audio_pipe IDLE_TIMEOUT x rc)).
    destruct (pipe_authenticated x c rc Hs Hc) as (C & B & S & W).
    destruct (pipe_keeps_flags x rc) as [R _].
    destruct (IH y c _ S W) as (C2 & B2 & S2 & W2 & R2). cbv zeta in *.
    rewrite C2, C, B, B2, R2, R. cbn [app].
    rewrite <- app_assoc, <- map_app, <- app_assoc. cbn [app]. auto.
Qed.

(** X17: a whole session.  The hotkey starts it; the pipe takes [before]
    while the handshake is not yet [AUTHENTICATED] and [after] once it is,
    on a socket; the hotkey stops it.  If [after] is not empty, the socket
    gets the last 20000 chunks of [before], then [after], all in the order
    they came, and then the end-of-stream frame.  If [after] is empty, the
    socket gets the end-of-stream frame alone: what was buffered is never
    sent. *)
Theorem session_streams_in_order
  (before after : list bytes) (c : Conn) (w : World) (rc : RecordingController) :
  is_recording rc = false ->
  handshake_state rc <> AUTHENTICATED ->
  _state (handshake (Transport.transport w)) = AUTHENTICATED ->
  _ws (Transport.transport w) = Some c ->
  let started := fst (toggle_recording IDLE_TIMEOUT json_dumps rc) in
  let waiting := pipe_all IDLE_TIMEOUT before started in
  let streaming := pipe_all IDLE_TIMEOUT after (set_transport w waiting) in
  let stopped := fst (toggle_recording IDLE_TIMEOUT json_dumps streaming) in
  calls (transport waiting) = calls (transport rc)
  /\ calls (transport stopped)
     = calls w
       ++ match after with
          | [] => []
          | _ => map (fun ch => WsSend c (Binary ch))
                     (AudioBuffer.lastn (Z.to_nat 20000) before ++ after)
          end
       ++ [WsSend c (Text (json_dumps build_end_of_stream))]
  /\ is_recording stopped = false.
Proof.
  intros Hr Hs Hw Hc. cbv zeta.
  assert (Est : fst (toggle_recording IDLE_TIMEOUT json_dumps rc)
                = {| audio := AudioCapture.start_capture (audio rc);
                     transport := transport rc;
                     buffer_manager := AudioBuffer.clear (buffer_manager rc);
                     is_recording := true |}).
  { unfold toggle_recording, _start_recording_session. rewrite Hr. reflexivity. }
  rewrite Est. rewrite pipe_all_buffers by exact Hs.
  destruct (AudioBufferLaws.add_all_keeps_latest before []
              (AudioBuffer.clear (buffer_manager rc)) eq_refl eq_refl) as [_ Hb].
  cbn [app] in Hb. unfold AudioBuffer.MAX_CHUNKS in Hb.
  cbn [transport]. split; [reflexivity|].
  unfold set_transport. cbn [audio transport buffer_manager is_recording].
  set (rc1 := {| audio := AudioCapture.start_capture (audio rc); transport := w;
                 buffer_manager := AudioBuffer.add_all before
                                     (AudioBuffer.clear (buffer_manager rc));
                 is_recording := true |}).
  assert (S1 : handshake_state rc1 = AUTHENTICATED) by exact Hw.
  assert (W1 : _ws (Transport.transport (transport rc1)) = Some c) by exact Hc.
  destruct after as [|x l].
  - cbn [pipe_all fold_left app]. unfold toggle_recording. cbn [is_recording rc1 negb fst].
    destruct (stop_effect c rc1 eq_refl S1 W1) as (C & R & _). split; assumption.
  - destruct (pipe_all_authenticated l x c rc1 S1 W1) as (C2 & _ & S2 & W2 & R2).
    cbv zeta in *. set (rc2 := pipe_all IDLE_TIMEOUT (x :: l) rc1) in *.
    unfold toggle_recording. rewrite R2. cbn [is_recording rc1 negb fst].
    destruct (stop_effect c rc2 R2 S2 W2) as (C & R & _). cbv zeta in *.
    split; [|exact R].
    rewrite C, C2. cbn [buffer_manager rc1 transport]. rewrite Hb, <- app_assoc. reflexivity.
Qed.

End Session.

Lemma stop_sends_end_of_stream_witness :
  let rc := {| audio := AudioCapture.start_capture AudioCapture.init;
               transport := authenticated;
               buffer_manager := AudioBuffer.init;
               is_recording := true |} in
  calls (transport (_stop_recording_session 300 example_dumps rc))
  = calls authenticated ++ [WsSend 7%nat (Text (json_text "end-of-stream" ""))].
Proof.
  intros rc.
  destruct (stop_sends_end_of_stream_once 300 example_dumps 7%nat rc) as (_ & _ & H & _).
  destruct (H eq_refl eq_refl eq_refl) as [Hc _].
  etransitivity; [exact Hc|]. vm_compute. reflexivity.
Defined.

Lemma pipe_sends_backlog_witness :
  let rc := {| audio := AudioCapture.init; transport := authenticated;
               buffer_manager := {| AudioBuffer._buffer := [chunk1];
                                   AudioBuffer._is_buffering := true |};
               is_recording := true |} in
  calls (transport (_process_audio_pipe 300 chunk2 rc))
  = calls authenticated ++ [WsSend 7%nat (Binary chunk1); WsSend 7%nat (Binary chunk2)].
Proof.
  intros rc.
  pose proof (pipe_sends_backlog_then_chunk 300 chunk2 7%nat rc eq_refl eq_refl) as H.
  cbv zeta in H. destruct H as [H _].
  etransitivity; [exact H|]. vm_compute. reflexivity.
Defined.

Lemma chunks_are_dropped_witness :
  let rc := {| audio := AudioCapture.init; transport := init;
               buffer_manager := {| AudioBuffer._buffer := [];
                                   AudioBuffer._is_buffering := false |};
               is_recording := true |} in
  _process_audio_pipe 300 chunk1 rc = rc.
Proof.
  intros rc.
  assert (Hs : handshake_state rc <> AUTHENTICATED) by discriminate.
  destruct (chunks_are_dropped_after_a_flush 300 chunk1 rc eq_refl Hs) as [H _].
  exact H.
Defined.

Lemma session_streams_witness :
  let started := fst (toggle_recording 300 example_dumps (idle_on authenticating)) in
  let waiting := pipe_all 300 [chunk1] started in
  let streaming := pipe_all 300 [chunk2] (set_transport authenticated waiting) in
  let stopped := fst (toggle_recording 300 example_dumps streaming) in
  calls (transport stopped)
  = calls authenticated
    ++ [WsSend 7%nat (Binary chunk1); WsSend 7%nat (Binary chunk2);
        WsSend 7%nat (Text (json_text "end-of-stream" ""))].
Proof.
  cbv zeta.
  assert (Hs : handshake_state (idle_on authenticating) <> AUTHENTICATED)
    by (vm_compute; discriminate).
  pose proof (session_streams_in_order 300 example_dumps [chunk1] [chunk2] 7%nat
                authenticated (idle_on authenticating) eq_refl Hs eq_refl eq_refl) as H.
  cbv zeta in H. destruct H as (_ & H & _).
  etransitivity; [exact H|]. vm_compute. reflexivity.
Defined.

(** X18: [_paste_text] pastes exactly when the sanitized text is not
    empty, so its test for blank text rejects nothing that the sanitizer
    would let through; what is pasted is the sanitized text: whitelisted
    characters only, no white space at either end, obtained from the
    received text by deletions. *)
Theorem paste_text_pastes_sanitized (text : Sanitizer.text) :
  (_paste_text text = None <-> Sanitizer.sanitize text = [])
  /\ (forall safe_text, _paste_text text = Some safe_text ->
        safe_text = Sanitizer.sanitize text
        /\ forallb Sanitizer.whitelisted safe_text = true
        /\ Sanitizer.starts_clean safe_text = true
        /\ Sanitizer.starts_clean (rev safe_text) = true
        /\ Sanitizer.subseq safe_text text).
Proof.
  assert (Hblank : Sanitizer.strip text = [] -> Sanitizer.sanitize text = []).
  { intros H. apply SanitizerLaws.blank_sanitizes_to_nothing, H. }
  assert (Hsome : forall safe, _paste_text text = Some safe -> safe = Sanitizer.sanitize text).
  { intros safe. unfold _paste_text.
    destruct text as [|a t]; [discriminate|].
    destruct (Sanitizer.strip (a :: t)); [discriminate|].
    destruct (Sanitizer.sanitize (a :: t)); [discriminate|]. congruence. }
  split.
  - unfold _paste_text. split.
    + destruct text as [|a t]; [reflexivity|].
      destruct (Sanitizer.strip (a :: t)) eqn:E; [intros _; apply Hblank; reflexivity|].
      destruct (Sanitizer.sanitize (a :: t)); [reflexivity | discriminate].
    + intros H. destruct text as [|a t]; [reflexivity|].
      destruct (Sanitizer.strip (a :: t)); [reflexivity|]. rewrite H. reflexivity.
  - intros safe H. apply Hsome in H. subst safe. split; [reflexivity|].
    split; [|split; [|split]].
    + apply forallb_forall. apply Forall_forall. apply SanitizerFacts.sanitize_whitelisted.
    + apply SanitizerFacts.sanitize_starts_clean.
    + apply SanitizerFacts.sanitize_ends_clean.
    + apply SanitizerLaws.sanitize_subseq.
Qed.

Lemma paste_text_witness :
  _paste_text [0x1b; 0x5b; 0x33; 0x31; 0x6d] = None
  /\ _paste_text [0x20; 0x48; 0x69; 0x07] = Some [0x48; 0x69].
Proof.
  split.
  - apply (paste_text_pastes_sanitized [0x1b; 0x5b; 0x33; 0x31; 0x6d]). reflexivity.
  - destruct (_paste_text [0x20; 0x48; 0x69; 0x07]) as [safe|] eqn:E.
    + destruct (paste_text_pastes_sanitized [0x20; 0x48; 0x69; 0x07]) as [_ H].
      destruct (H safe E) as [-> _]. reflexivity.
    + apply (paste_text_pastes_sanitized [0x20; 0x48; 0x69; 0x07]) in E. discriminate.
Defined.

End ControllerLaws.

(** ** Reading the PCM chunks back *)

Module AudioCaptureLaws.
Import AudioCapture AudioCaptureFacts.

Lemma frombytes_tobytes a :
  Forall (fun v => -32768 <= v <= 32767) a -> frombytes (tobytes a) = a.
Proof.
  induction 1 as [|v a Hv _ IH]; [reflexivity|].
  destruct (int16_roundtrip v Hv) as (lo & hi & Hb & Hr).
  unfold tobytes in *. cbn [flat_map]. rewrite Hb. cbn [app frombytes].
  rewrite Hr, IH. reflexivity.
Qed.

Section Callback.
Variable np_linspace : spec_float -> spec_float -> Z -> list spec_float.
Variable np_interp :
  list spec_float -> list spec_float -> list spec_float -> option (list spec_float).
Variable cast_overflow : spec_float -> Z.

(** The conversion yields an [int16], as its type says. *)
Hypothesis cast_overflow_int16 : forall f, -32768 <= cast_overflow f <= 32767.

Lemma astype_int16_range f : -32768 <= astype_int16 cast_overflow f <= 32767.
Proof.
  unfold astype_int16. destruct (truncate f) as [t|]; [|apply cast_overflow_int16].
  destruct ((-32768 <=? t) && (t <=? 32767)) eqn:E; [|apply cast_overflow_int16].
  apply andb_true_iff in E as [E1 E2]. apply Z.leb_le in E1, E2. lia.
Qed.

Lemma converted_range (g : spec_float -> spec_float) l :
  Forall (fun v => -32768 <= v <= 32767) (map (fun s => astype_int16 cast_overflow (g s)) l).
Proof. apply Forall_forall. intros v Hv. apply in_map_iff in Hv as (s & <- & _). apply astype_int16_range. Qed.

(** X19: a chunk that the callback enqueues loses nothing in its bytes:
    read back as little-endian [int16], two bytes a value, it gives
    values of the [int16] range whose bytes are the chunk again; at the
    rate of 16 kHz they are the converted samples of the input, one per
    frame and in order. *)
Theorem pcm_chunk_reads_back (a : AudioService) (indata : list spec_float) (pcm_data : bytes) :
  audio_callback np_linspace np_interp cast_overflow a indata = Enqueued pcm_data ->
  tobytes (frombytes pcm_data) = pcm_data
  /\ Forall (fun v => -32768 <= v <= 32767) (frombytes pcm_data)
  /\ length pcm_data = (2 * length (frombytes pcm_data))%nat
  /\ (device_rate a = 16000 ->
      frombytes pcm_data
      = map (fun s => astype_int16 cast_overflow (mul32 s (float32_of_int 32767))) indata).
Proof.
  unfold audio_callback. intros H.
  assert (Hgen : forall samples,
            Forall (fun v => -32768 <= v <= 32767) samples ->
            pcm_data = tobytes samples ->
            tobytes (frombytes pcm_data) = pcm_data
            /\ Forall (fun v => -32768 <= v <= 32767) (frombytes pcm_data)
            /\ length pcm_data = (2 * length (frombytes pcm_data))%nat
            /\ frombytes pcm_data = samples).
  { intros samples Hr ->. rewrite (frombytes_tobytes samples Hr).
    repeat split; try assumption. apply tobytes_length. }
  destruct (is_recording a); [|discriminate].
  destruct (Z.eqb_spec (device_rate a) 16000) as [Hrate|Hrate]; cbn [negb] in H.
  - injection H as <-.
    destruct (Hgen _ (converted_range (fun s => mul32 s (float32_of_int 32767)) indata) eq_refl)
      as (H1 & H2 & H3 & H4).
    split; [exact H1|]. split; [exact H2|]. split; [exact H3|]. intros _. exact H4.
  - destruct (device_rate a =? 0); [discriminate|].
    destruct (truncate _) as [new_len|]; [|discriminate].
    destruct (new_len <? 0); [discriminate|].
    destruct (np_interp _ _ indata) as [audio|]; [|discriminate]. injection H as <-.
    destruct (Hgen _ (converted_range (fun s => mul64 s (float64_of_int 32767)) _) eq_refl)
      as (H1 & H2 & H3 & _).
    split; [exact H1|]. split; [exact H2|]. split; [exact H3|].
    intros Hr. contradiction.
Qed.

End Callback.

Lemma pcm_chunk_reads_back_witness :
  frombytes [xff; x1f] = [8191]
  /\ tobytes (frombytes [xff; x1f]) = [xff; x1f].
Proof.
  assert (Hc : forall f : spec_float, -32768 <= (fun _ : spec_float => 0) f <= 32767)
    by (intros f; cbn; lia).
  destruct (pcm_chunk_reads_back linspace interp (fun _ => 0) Hc
              {| device_rate := 16000; is_recording := true |} [quarter] [xff; x1f])
    as (H1 & _ & _ & H4); [vm_compute; reflexivity|].
  split; [|exact H1].
  etransitivity; [apply H4; reflexivity|]. vm_compute. reflexivity.
Defined.

End AudioCaptureLaws.
